(** * swagger_builder: the document model and its text transformations

    A shallow embedding of the TypeScript sources of the OpenAPI builder:
    the operation-id generator, the path-parameter synchroniser, the YAML
    serialiser and importer, the structural validator and the mutations of
    the document hook that the specification singles out.

    JavaScript strings are embedded as [string]; a character is one code
    unit, and the embedding covers the ASCII range, where [toUpperCase],
    [trim] and the regular-expression classes used by the sources have the
    meaning given below. *)

From Stdlib Require Import String Ascii List Bool Arith ZArith Lia.
From Stdlib Require Import DecimalString Sorted.
Import ListNotations.
Open Scope list_scope.
Open Scope string_scope.

(** ** JavaScript string primitives used by the sources *)

Module Js.

(** [s.split(sep)] for a one-character separator.  The result is never
    empty: [''.split('/')] is [['']]. *)
Fixpoint split (sep : ascii) (s : string) : list string :=
  match s with
  | EmptyString => [ "" ]
  | String c r =>
      if Ascii.eqb c sep then "" :: split sep r
      else match split sep r with
           | [] => [ String c "" ]
           | w :: ws => String c w :: ws
           end
  end.

(** [parts.join(sep)] *)
Definition join (sep : string) (parts : list string) : string :=
  String.concat sep parts.

(** [s.startsWith(p)] *)
Definition startsWith (s p : string) : bool := String.prefix p s.

(** [s.includes(c)] for a one-character needle. *)
Fixpoint includes_char (c : ascii) (s : string) : bool :=
  match s with
  | EmptyString => false
  | String d r => Ascii.eqb d c || includes_char c r
  end.

(** [xs.includes(x)] on an array of strings. *)
Definition includes (xs : list string) (x : string) : bool :=
  existsb (String.eqb x) xs.

(** Truthiness of a string: only [''] is falsy. *)
Definition truthy (s : string) : bool :=
  match s with EmptyString => false | _ => true end.

(** [a || b] on strings. *)
Definition or_else (a b : string) : string := if truthy a then a else b.

(** [c.toUpperCase()] on one code unit of the ASCII range. *)
Definition upper_ascii (c : ascii) : ascii :=
  let n := nat_of_ascii c in
  if Nat.leb 97 n && Nat.leb n 122 then ascii_of_nat (n - 32) else c.

(** [c.toLowerCase()] on one code unit of the ASCII range. *)
Definition lower_ascii (c : ascii) : ascii :=
  let n := nat_of_ascii c in
  if Nat.leb 65 n && Nat.leb n 90 then ascii_of_nat (n + 32) else c.

Fixpoint toLowerCase (s : string) : string :=
  match s with
  | EmptyString => ""
  | String c r => String (lower_ascii c) (toLowerCase r)
  end.

(** [f] holds of every character. *)
Fixpoint every_char (f : ascii -> bool) (s : string) : bool :=
  match s with
  | EmptyString => true
  | String c r => f c && every_char f r
  end.

(** [s.includes(p)] for a string needle. *)
Fixpoint includes_str (p s : string) : bool :=
  String.prefix p s
  || match s with
     | EmptyString => false
     | String _ r => includes_str p r
     end.

(** The text behind a prefix, when the prefix is there. *)
Fixpoint strip_prefix (p s : string) : option string :=
  match p, s with
  | EmptyString, _ => Some s
  | String a p', String b s' =>
      if Ascii.eqb a b then strip_prefix p' s' else None
  | String _ _, EmptyString => None
  end.

(** [xs.map((x, i) => f(x, i))] *)
Fixpoint mapi_from {A B : Type} (i : nat) (f : A -> nat -> B) (xs : list A)
    : list B :=
  match xs with
  | [] => []
  | x :: r => f x i :: mapi_from (S i) f r
  end.

Definition mapi {A B : Type} (f : A -> nat -> B) (xs : list A) : list B :=
  mapi_from 0 f xs.

(** [obj[key]] on an object given by its entries; [None] is
    [undefined]. *)
Fixpoint assoc {A : Type} (fields : list (string * A)) (key : string)
    : option A :=
  match fields with
  | [] => None
  | (k, v) :: r => if k =? key then Some v else assoc r key
  end.

(** Template-literal rendering of an integral number. *)
Definition number_to_string (z : Z) : string :=
  NilZero.string_of_int (Z.to_int z).

(** Template-literal rendering of a boolean. *)
Definition boolean_to_string (b : bool) : string :=
  if b then "true" else "false".

(** [' '.repeat(n)] *)
Fixpoint spaces (n : nat) : string :=
  match n with
  | 0 => ""
  | S k => String " " (spaces k)
  end.

End Js.

(** ** utils/operationIdGenerator.ts *)

(** [word.charAt(0).toUpperCase() + word.slice(1)] *)
Definition capitalize (word : string) : string :=
  match word with
  | EmptyString => ""
  | String c r => String (Js.upper_ascii c) r
  end.

Definition generateOperationId (method pathStr : string) : string :=
  let pathParts :=
    filter (fun p => Js.truthy p && negb (Js.startsWith p "{"))
           (Js.split "/" pathStr) in
  (* pathParts[pathParts.length - 1] || '' *)
  let lastPart := last pathParts "" in
  let formattedPart :=
    Js.join "" (map capitalize (Js.split "-" lastPart)) in
  method ++ formattedPart.

(** ** utils/pathParameterParser.ts *)

Record PathParameter := mkPathParameter {
  pp_name : string;
  pp_in : string;
  pp_description : string;
  pp_required : bool;
  pp_type : string;
  pp_format : option string;
  pp_enum : option string;
  pp_example : option string;
  pp_default : option string;
  pp_deprecated : option bool
}.

(** The longest run of characters other than the closing brace, followed
    by a closing brace: the [[^}]+\}] part of the pattern (the run may
    still be empty here). *)
Fixpoint take_until_close (s : string) : option (string * string) :=
  match s with
  | EmptyString => None
  | String c r =>
      if Ascii.eqb c "}" then Some ("", r)
      else match take_until_close r with
           | Some (n, rest) => Some (String c n, rest)
           | None => None
           end
  end.

(** The pattern [\{([^}]+)\}] tried at the first character of [s]: the
    captured name and the text after the match. *)
Definition match_placeholder_here (s : string) : option (string * string) :=
  match s with
  | String c r =>
      if Ascii.eqb c "{" then
        match take_until_close r with
        | Some (String d n, rest) => Some (String d n, rest)
        | _ => None
        end
      else None
  | EmptyString => None
  end.

(** [regex.exec(path)] from the current [lastIndex]: the leftmost match. *)
Fixpoint regex_exec (s : string) : option (string * string) :=
  match s with
  | EmptyString => None
  | String _ r =>
      match match_placeholder_here s with
      | Some m => Some m
      | None => regex_exec r
      end
  end.

(** The [while ((match = regex.exec(path)) !== null)] loop. *)
Fixpoint exec_loop (fuel : nat) (s : string) : list string :=
  match fuel with
  | 0 => []
  | S f =>
      match regex_exec s with
      | None => []
      | Some (n, rest) => n :: exec_loop f rest
      end
  end.

Definition extractPathParameters (path : string) : list string :=
  exec_loop (S (String.length path)) path.

Definition fresh_path_parameter (name : string) : PathParameter :=
  {| pp_name := name; pp_in := "path"; pp_description := "";
     pp_required := true; pp_type := "string";
     pp_format := None; pp_enum := None; pp_example := None;
     pp_default := None; pp_deprecated := None |}.

Definition syncPathParameters
    (currentParams : list PathParameter) (pathString : string)
    : list PathParameter :=
  let detectedParamNames := extractPathParameters pathString in
  let existingPathParams :=
    filter (fun p => (pp_in p =? "path")
                     && Js.includes detectedParamNames (pp_name p))
           currentParams in
  let nonPathParams :=
    filter (fun p => negb (pp_in p =? "path")) currentParams in
  let existingPathParamNames := map pp_name existingPathParams in
  let newPathParams :=
    map fresh_path_parameter
        (filter (fun name => negb (Js.includes existingPathParamNames name))
                detectedParamNames) in
  let orderedPathParams :=
    flat_map
      (fun name =>
         match find (fun p => pp_name p =? name) existingPathParams with
         | Some p => [p]
         | None =>
             match find (fun p => pp_name p =? name) newPathParams with
             | Some p => [p]
             | None => []
             end
         end)
      detectedParamNames in
  (orderedPathParams ++ nonPathParams)%list.

(** The first path-location parameter of a list that carries a name. *)
Definition first_path_parameter
    (params : list PathParameter) (name : string) : option PathParameter :=
  find (fun p => (pp_in p =? "path") && (pp_name p =? name)) params.

(** The parameter the synchroniser puts at a placeholder: the stored one,
    or a fresh one when none is stored under that name. *)
Definition parameter_for
    (params : list PathParameter) (name : string) : PathParameter :=
  match first_path_parameter params name with
  | Some p => p
  | None => fresh_path_parameter name
  end.

(** ** utils/yamlGenerator.ts: the string formatter *)

(** [description.replace(/'/g, "''")] *)
Fixpoint double_single_quotes (s : string) : string :=
  match s with
  | EmptyString => ""
  | String c r =>
      if Ascii.eqb c "'" then String "'" (String "'" (double_single_quotes r))
      else String c (double_single_quotes r)
  end.

Definition newline : ascii := ascii_of_nat 10.
Definition nl : string := String newline "".

Definition formatDescription (description : string) (indent : nat) : string :=
  if negb (Js.truthy description) then "''"
  else if Js.includes_char newline description then
    let indentStr := Js.spaces indent in
    let lines := Js.split newline description in
    "|" ++ nl ++ Js.join nl (map (fun line => indentStr ++ line) lines)
  else "'" ++ double_single_quotes description ++ "'".


(** ** utils/yamlImporter.ts: reference extraction *)

Definition schemas_marker : string := "#/components/schemas/".

(** The characters the dot of a regular expression refuses (the line
    terminators of the ASCII range). *)
Definition is_line_terminator (c : ascii) : bool :=
  Ascii.eqb c (ascii_of_nat 10) || Ascii.eqb c (ascii_of_nat 13).

(** The longest run the greedy [.+] can take from the front of a text. *)
Fixpoint take_line (s : string) : string :=
  match s with
  | EmptyString => ""
  | String c r =>
      if is_line_terminator c then "" else String c (take_line r)
  end.

(** The pattern [#\/components\/schemas\/(.+)] tried at the first
    character of [s]: the captured group. *)
Definition match_schema_ref_here (s : string) : option string :=
  match Js.strip_prefix schemas_marker s with
  | Some rest =>
      match take_line rest with
      | EmptyString => None
      | name => Some name
      end
  | None => None
  end.

(** [ref.match(...)]: the pattern is not anchored, the leftmost position
    where it matches wins. *)
Fixpoint match_schema_ref (s : string) : option string :=
  match match_schema_ref_here s with
  | Some name => Some name
  | None =>
      match s with
      | EmptyString => None
      | String _ r => match_schema_ref r
      end
  end.

(** [ref] is [string | undefined]; [None] stands for [undefined]. *)
Definition extractSchemaRef (ref : option string) : string :=
  match ref with
  | None => ""
  | Some r =>
      if negb (Js.truthy r) then ""
      else match match_schema_ref r with
           | Some name => name
           | None => ""
           end
  end.

(** ** types/swagger: the document model *)

Record SwaggerContact := mkSwaggerContact {
  contact_name : option string;
  contact_url : option string;
  contact_email : option string
}.

Record SwaggerLicense := mkSwaggerLicense {
  license_name : string;
  license_url : option string
}.

Record SwaggerInfo := mkSwaggerInfo {
  info_title : string;
  info_description : string;
  info_version : string;
  info_termsOfService : option string;
  info_contact : option SwaggerContact;
  info_license : option SwaggerLicense
}.

Record SwaggerServerVariable := mkSwaggerServerVariable {
  variable_default : string;
  variable_description : option string;
  variable_enum : option (list string)
}.

Record SwaggerServer := mkSwaggerServer {
  server_url : string;
  server_description : string;
  server_variables : option (list (string * SwaggerServerVariable))
}.

Record SwaggerSecurityScheme := mkSwaggerSecurityScheme {
  scheme_name : string;
  scheme_type : string;
  scheme_scheme : option string;
  scheme_bearerFormat : option string;
  scheme_in : option string;
  scheme_apiKeyName : option string
}.

Record SwaggerTag := mkSwaggerTag {
  tag_name : string;
  tag_description : string
}.

Record PropertyItems := mkPropertyItems {
  items_type : option string;
  items_ref : option string
}.

Record SchemaProperty := mkSchemaProperty {
  prop_name : string;
  prop_type : string;
  prop_format : option string;
  prop_description : string;
  prop_example : string;
  prop_required : option bool;
  prop_nullable : option bool;
  prop_readOnly : option bool;
  prop_writeOnly : option bool;
  prop_deprecated : option bool;
  prop_minLength : option Z;
  prop_maxLength : option Z;
  prop_minimum : option Z;
  prop_maximum : option Z;
  prop_pattern : option string;
  prop_default : option string;
  prop_ref : option string;
  prop_items : option PropertyItems;
  prop_enumValues : option string
}.

Record SwaggerSchema := mkSwaggerSchema {
  schema_name : string;
  schema_type : string;
  schema_properties : list SchemaProperty;
  schema_isTemplate : option bool
}.

Record ResponseHeader := mkResponseHeader {
  header_name : string;
  header_description : string;
  header_schema_type : string
}.

Record PathResponse := mkPathResponse {
  resp_statusCode : string;
  resp_description : string;
  resp_schemaRef : string;
  resp_contentType : option string;
  resp_headers : option (list ResponseHeader)
}.

Record RequestBody := mkRequestBody {
  body_description : string;
  body_required : bool;
  body_schemaRef : string;
  body_contentType : string
}.

Record PathOperation := mkPathOperation {
  op_method : string;
  op_tags : list string;
  op_summary : string;
  op_operationId : string;
  op_description : string;
  op_deprecated : option bool;
  op_parameters : list PathParameter;
  op_responses : list PathResponse;
  op_requestBody : option RequestBody;
  op_security : option (list string)
}.

Record SwaggerPath := mkSwaggerPath {
  path_path : string;
  path_operations : list PathOperation
}.

(** A path as an older version of the editor stored it: the fields of its
    one operation lie flat on the path and there is no [operations]
    array.  Every field may be missing. *)
Record LegacyPath := mkLegacyPath {
  legacy_path : string;
  legacy_method : option string;
  legacy_tags : option (list string);
  legacy_summary : option string;
  legacy_operationId : option string;
  legacy_description : option string;
  legacy_parameters : option (list PathParameter);
  legacy_responses : option (list PathResponse);
  legacy_requestBody : option RequestBody;
  legacy_security : option (list string);
  legacy_deprecated : option bool
}.

(** What the [paths] array of a stored document can hold at run time: a
    path with an [operations] array, or one in the flat shape. *)
Inductive StoredPath :=
| WithOperations (p : SwaggerPath)
| Flat (l : LegacyPath).

(** The document, over the kind of path its [paths] array holds. *)
Record DocumentOf (P : Type) := mkDocument {
  doc_openapi : string;
  doc_info : SwaggerInfo;
  doc_servers : list SwaggerServer;
  doc_securitySchemes : list SwaggerSecurityScheme;
  doc_tags : list SwaggerTag;
  doc_paths : list P;
  doc_schemas : list SwaggerSchema
}.

Arguments mkDocument {P}.
Arguments doc_openapi {P}.
Arguments doc_info {P}.
Arguments doc_servers {P}.
Arguments doc_securitySchemes {P}.
Arguments doc_tags {P}.
Arguments doc_paths {P}.
Arguments doc_schemas {P}.

Definition SwaggerDocument := DocumentOf SwaggerPath.

(** A document as it comes out of the local store. *)
Definition StoredDocument := DocumentOf StoredPath.

(** [{ ...doc, paths: f(doc.paths) }] *)
Definition with_paths {P Q : Type} (doc : DocumentOf P) (paths : list Q)
    : DocumentOf Q :=
  {| doc_openapi := doc_openapi doc;
     doc_info := doc_info doc;
     doc_servers := doc_servers doc;
     doc_securitySchemes := doc_securitySchemes doc;
     doc_tags := doc_tags doc;
     doc_paths := paths;
     doc_schemas := doc_schemas doc |}.


(** [x || d] for an optional array or string. *)
Definition or_list {A : Type} (x : option (list A)) : list A :=
  match x with Some l => l | None => [] end.

Definition or_empty (x : option string) : string :=
  match x with Some s => s | None => "" end.

(** Truthiness of an optional string: [undefined] and [''] are falsy. *)
Definition truthy_opt (x : option string) : bool :=
  match x with Some s => Js.truthy s | None => false end.

(** Truthiness of an optional flag. *)
Definition truthy_flag (x : option bool) : bool :=
  match x with Some b => b | None => false end.

(** ** hooks/useSwaggerDocument.ts *)

(** The operation both migrations build from the flat fields. *)
Definition legacy_operation (method : string) (oldPath : LegacyPath)
    : PathOperation :=
  {| op_method := method;
     op_tags := or_list (legacy_tags oldPath);
     op_summary := or_empty (legacy_summary oldPath);
     op_operationId := or_empty (legacy_operationId oldPath);
     op_description := or_empty (legacy_description oldPath);
     op_deprecated := legacy_deprecated oldPath;
     op_parameters := or_list (legacy_parameters oldPath);
     op_responses := or_list (legacy_responses oldPath);
     op_requestBody := legacy_requestBody oldPath;
     op_security := legacy_security oldPath |}.

Definition migrate_path (path : StoredPath) : StoredPath :=
  match path with
  | WithOperations p => WithOperations p
  | Flat oldPath =>
      match legacy_method oldPath with
      | Some method =>
          if Js.truthy method then
            WithOperations
              {| path_path := legacy_path oldPath;
                 path_operations := [legacy_operation method oldPath] |}
          else Flat oldPath
      | None => Flat oldPath
      end
  end.

Definition migrateDocument (doc : StoredDocument) : StoredDocument :=
  with_paths doc (map migrate_path (doc_paths doc)).

(** [{ ...p }] on a parameter and on a response. *)
Definition spread_parameter (p : PathParameter) : PathParameter :=
  {| pp_name := pp_name p; pp_in := pp_in p;
     pp_description := pp_description p; pp_required := pp_required p;
     pp_type := pp_type p; pp_format := pp_format p; pp_enum := pp_enum p;
     pp_example := pp_example p; pp_default := pp_default p;
     pp_deprecated := pp_deprecated p |}.

Definition spread_response (r : PathResponse) : PathResponse :=
  {| resp_statusCode := resp_statusCode r;
     resp_description := resp_description r;
     resp_schemaRef := resp_schemaRef r;
     resp_contentType := resp_contentType r;
     resp_headers := resp_headers r |}.

Definition availableMethods : list string :=
  ["get"; "post"; "put"; "patch"; "delete"].

(** The clone that goes on a path of its own. *)
Definition copied_operation (operation : PathOperation) : PathOperation :=
  {| op_method := op_method operation;
     op_tags := op_tags operation;
     op_summary := op_summary operation;
     op_operationId := op_operationId operation ++ "_copy";
     op_description := op_description operation;
     op_deprecated := op_deprecated operation;
     op_parameters := map spread_parameter (op_parameters operation);
     op_responses := map spread_response (op_responses operation);
     op_requestBody := op_requestBody operation;
     op_security := op_security operation |}.

(** The clone that goes on the same path under another method. *)
Definition cloned_operation
    (operation : PathOperation) (nextMethod pathStr : string)
    : PathOperation :=
  {| op_method := nextMethod;
     op_tags := op_tags operation;
     op_summary := op_summary operation;
     op_operationId := generateOperationId nextMethod pathStr;
     op_description := op_description operation;
     op_deprecated := op_deprecated operation;
     op_parameters := map spread_parameter (op_parameters operation);
     op_responses := map spread_response (op_responses operation);
     op_requestBody := op_requestBody operation;
     op_security := op_security operation |}.

(** The handler as a function of the current document.  [None] is the
    TypeError of an index that names no path or no operation. *)
Definition duplicatePath
    (document : SwaggerDocument) (pathIndex operationIndex : nat)
    : option SwaggerDocument :=
  match nth_error (doc_paths document) pathIndex with
  | None => None
  | Some path =>
      match nth_error (path_operations path) operationIndex with
      | None => None
      | Some operation =>
          let usedMethods := map op_method (path_operations path) in
          let nextMethod :=
            find (fun m => negb (Js.includes usedMethods m)) availableMethods in
          match nextMethod with
          | None =>
              let newPath :=
                {| path_path := path_path path ++ "_copy";
                   path_operations := [copied_operation operation] |} in
              Some (with_paths document (doc_paths document ++ [newPath])%list)
          | Some nextMethod =>
              let newOperation :=
                cloned_operation operation nextMethod (path_path path) in
              Some (with_paths document
                      (Js.mapi
                         (fun p i =>
                            if Nat.eqb i pathIndex then
                              {| path_path := path_path p;
                                 path_operations :=
                                   (path_operations p ++ [newOperation])%list |}
                            else p)
                         (doc_paths document)))
          end
      end
  end.

(** ** utils/yamlGenerator.ts: the migration before serialising *)

Definition ensure_operations_path (path : StoredPath) : StoredPath :=
  match path with
  | WithOperations p => WithOperations p
  | Flat oldPath =>
      if truthy_opt (legacy_method oldPath) then
        let operation :=
          {| op_method := or_empty (legacy_method oldPath);
             op_tags := or_list (legacy_tags oldPath);
             op_summary := or_empty (legacy_summary oldPath);
             op_operationId := or_empty (legacy_operationId oldPath);
             op_description := or_empty (legacy_description oldPath);
             op_deprecated := legacy_deprecated oldPath;
             op_parameters := or_list (legacy_parameters oldPath);
             op_responses := or_list (legacy_responses oldPath);
             op_requestBody := legacy_requestBody oldPath;
             op_security := legacy_security oldPath |} in
        WithOperations
          {| path_path := legacy_path oldPath;
             path_operations := [operation] |}
      else Flat oldPath
  end.

Definition ensureOperationsFormat (doc : StoredDocument) : StoredDocument :=
  with_paths doc (map ensure_operations_path (doc_paths doc)).

(** ** Parsed YAML as the validator reads it

    The validator keeps the value that [yaml.parse] returns untyped.  A
    number is taken to be integral.  The fields of an object are listed in
    the order in which [Object.entries] enumerates them. *)

#[warnings="-register-all"]
Inductive json :=
| JNull
| JBool (b : bool)
| JNum (z : Z)
| JStr (s : string)
| JArr (items : list json)
| JObj (fields : list (string * json)).

Module Json.

(** Truthiness of a value. *)
Definition truthy (v : json) : bool :=
  match v with
  | JNull => false
  | JBool b => b
  | JNum z => negb (Z.eqb z 0)
  | JStr s => Js.truthy s
  | JArr _ | JObj _ => true
  end.

(** Truthiness of the result of a property read; [None] is [undefined]. *)
Definition truthy_opt (v : option json) : bool :=
  match v with Some x => truthy x | None => false end.

(** [v[key]] on a value that is neither [null] nor [undefined], for the
    keys the sources read (none of them is defined on arrays, strings,
    numbers or booleans). *)
Definition get (key : string) (v : json) : option json :=
  match v with
  | JObj fields => Js.assoc fields key
  | _ => None
  end.

(** [key] read through an optional receiver that is not [null]. *)
Definition get_opt (key : string) (v : option json) : option json :=
  match v with Some x => get key x | None => None end.

(** [v && typeof v === 'object'] *)
Definition is_object (v : json) : bool :=
  match v with
  | JArr _ | JObj _ => true
  | _ => false
  end.

(** [v === s] for a string [s]. *)
Definition is_string (s : string) (v : option json) : bool :=
  match v with
  | Some (JStr t) => t =? s
  | _ => false
  end.

(** [String(v)] *)
Fixpoint to_String (v : json) : string :=
  match v with
  | JNull => "null"
  | JBool b => Js.boolean_to_string b
  | JNum z => Js.number_to_string z
  | JStr s => s
  | JArr items =>
      Js.join ","
        ((fix each (l : list json) : list string :=
            match l with
            | [] => []
            | x :: r =>
                match x with
                | JNull => ""
                | _ => to_String x
                end :: each r
            end) items)
  | JObj _ => "[object Object]"
  end.

(** The characters of a string, as one-character strings. *)
Fixpoint chars (s : string) : list string :=
  match s with
  | EmptyString => []
  | String c r => String c "" :: chars r
  end.

(** [Object.entries(v)] on a value that is neither [null] nor
    [undefined]. *)
Definition entries (v : json) : list (string * json) :=
  match v with
  | JObj fields => fields
  | JArr items =>
      Js.mapi (fun x i => (Js.number_to_string (Z.of_nat i), x)) items
  | JStr s =>
      Js.mapi (fun c i => (Js.number_to_string (Z.of_nat i), JStr c)) (chars s)
  | _ => []
  end.

(** [Object.keys(v).length] *)
Definition keys_length (v : json) : nat := length (entries v).

End Json.

(** ** utils/openApiValidator.ts *)

Inductive ValidationSeverity := error | warning.

Record ValidationError := mkValidationError {
  ve_path : string;
  ve_message : string;
  ve_severity : ValidationSeverity;
  ve_line : option nat
}.

Record ValidationResult := mkValidationResult {
  vr_isValid : bool;
  vr_errors : list ValidationError;
  vr_warnings : list ValidationError
}.

Definition is_error (e : ValidationError) : bool :=
  match ve_severity e with error => true | warning => false end.

Definition is_warning (e : ValidationError) : bool :=
  match ve_severity e with error => false | warning => true end.

(** The white space of [\s] and of [trimStart] in the ASCII range. *)
Definition is_space (c : ascii) : bool :=
  let n := nat_of_ascii c in
  (Nat.leb 9 n && Nat.leb n 13) || Nat.eqb n 32.

Fixpoint trimStart (s : string) : string :=
  match s with
  | EmptyString => ""
  | String c r => if is_space c then trimStart r else s
  end.

(** A single or a double quote. *)
Definition is_quote (c : ascii) : bool :=
  Ascii.eqb c "'" || Ascii.eqb c (ascii_of_nat 34).

(** An optional quote is skipped: the optional quote class of the
    pattern, where the next part of the pattern cannot start with a
    quote. *)
Definition skip_quote (s : string) : string :=
  match s with
  | String c r => if is_quote c then r else s
  | EmptyString => s
  end.

(** [\s*:] at the front of a text. *)
Definition colon_follows (s : string) : bool :=
  match trimStart s with
  | String c _ => Ascii.eqb c ":"
  | EmptyString => false
  end.

(** The escaped key, an optional quote and [\s*:], at the front of a
    text. *)
Definition key_then_colon (searchKey s : string) : bool :=
  match Js.strip_prefix searchKey s with
  | Some after => colon_follows (skip_quote after)
  | None => false
  end.

(** [keyPattern.test(trimmedLine)]: an optional quote, the escaped search
    key, an optional quote, white space and a colon, anchored at the start
    of the line.  The opening quote is first taken, and left in place when
    that fails. *)
Definition key_pattern_test (searchKey trimmedLine : string) : bool :=
  match trimmedLine with
  | String c r =>
      if is_quote c then
        key_then_colon searchKey r || key_then_colon searchKey trimmedLine
      else key_then_colon searchKey trimmedLine
  | EmptyString => key_then_colon searchKey trimmedLine
  end.

(** The loop of [findLineNumber] over the lines from index [i] on. *)
Fixpoint find_line_loop
    (lines : list string) (i : nat) (path : list string)
    (currentIndent : nat) : option nat :=
  match lines with
  | [] => None
  | line :: rest =>
      let trimmedLine := trimStart line in
      let lineIndent := String.length line - String.length trimmedLine in
      if negb (Js.truthy trimmedLine) || Js.startsWith trimmedLine "#" then
        find_line_loop rest (S i) path currentIndent
      else
        match path with
        | [] => None
        | searchKey :: later =>
            if key_pattern_test searchKey trimmedLine
               && Nat.leb currentIndent lineIndent
            then
              match later with
              | [] => Some (S i)
              | _ => find_line_loop rest (S i) later lineIndent
              end
            else find_line_loop rest (S i) path currentIndent
        end
  end.

Definition findLineNumber (yamlContent : string) (path : option (list string))
    : option nat :=
  match path with
  | None | Some [] => None
  | Some p => find_line_loop (Js.split newline yamlContent) 0 p 0
  end.

(** A computation that can end in a TypeError ([None]). *)
Definition bind {A B : Type} (m : option A) (k : A -> option B) : option B :=
  match m with
  | Some a => k a
  | None => None
  end.

Notation "x <- m ;; k" := (bind m (fun x => k))
  (at level 61, m at next level, right associativity).

(** The double quote inside a message. *)
Definition dq : string := String (ascii_of_nat 34) "".

Fixpoint toUpperCase (s : string) : string :=
  match s with
  | EmptyString => ""
  | String c r => String (Js.upper_ascii c) (toUpperCase r)
  end.

(** [param.slice(1, -1)] *)
Definition slice_inner (s : string) : string :=
  match s with
  | EmptyString => ""
  | String _ r => String.substring 0 (String.length r - 1) r
  end.

(** [pathKey.match(/\{([^}]+)\}/g)]: the matched texts, braces included;
    [None] is the [null] of a text without a match. *)
Definition match_placeholders (pathKey : string) : option (list string) :=
  match extractPathParameters pathKey with
  | [] => None
  | names => Some (map (fun n => "{" ++ n ++ "}") names)
  end.

(** [parameters.some(p => p.name === paramName && p.in === 'path')]; the
    read of a property of [null] is a TypeError. *)
Fixpoint some_path_parameter (parameters : list json) (paramName : string)
    : option bool :=
  match parameters with
  | [] => Some false
  | p :: rest =>
      match p with
      | JNull => None
      | _ =>
          if Json.is_string paramName (Json.get "name" p)
             && Json.is_string "path" (Json.get "in" p)
          then Some true
          else some_path_parameter rest paramName
      end
  end.

(** [operation.parameters || []] as the receiver of [.some]: only an
    array has that method. *)
Definition parameters_or_empty (operation : json) : option (list json) :=
  match Json.get "parameters" operation with
  | Some v =>
      if Json.truthy v then
        match v with
        | JArr items => Some items
        | _ => None
        end
      else Some []
  | None => Some []
  end.

Fixpoint check_path_parameters
    (yamlContent pathKey op : string) (operation : json)
    (pathParams : list string) : option (list ValidationError) :=
  match pathParams with
  | [] => Some []
  | param :: rest =>
      let paramName := slice_inner param in
      parameters <- parameters_or_empty operation ;;
      isDefined <- some_path_parameter parameters paramName ;;
      later <- check_path_parameters yamlContent pathKey op operation rest ;;
      Some ((if negb isDefined then
               [ {| ve_path := "paths." ++ pathKey ++ "." ++ op ++ ".parameters";
                    ve_message :=
                      "Path parameter " ++ dq ++ paramName ++ dq
                      ++ " is used in path but not defined in parameters";
                    ve_severity := error;
                    ve_line :=
                      findLineNumber yamlContent
                        (Some ["paths"; pathKey; op; "parameters"]) |} ]
             else []) ++ later)%list
  end.

Definition validate_operation
    (yamlContent pathKey op : string) (operation : json)
    (pathParams : list string) : option (list ValidationError) :=
  let missingId :=
    if negb (Json.truthy_opt (Json.get "operationId" operation)) then
      [ {| ve_path := "paths." ++ pathKey ++ "." ++ op ++ ".operationId";
           ve_message :=
             "Operation " ++ dq ++ toUpperCase op ++ " " ++ pathKey ++ dq
             ++ " is missing operationId";
           ve_severity := warning;
           ve_line := findLineNumber yamlContent (Some ["paths"; pathKey; op]) |} ]
    else [] in
  let noResponse :=
    match Json.get "responses" operation with
    | Some r =>
        negb (Json.truthy r) || Nat.eqb (Json.keys_length r) 0
    | None => true
    end in
  let missingResponses :=
    if noResponse then
      [ {| ve_path := "paths." ++ pathKey ++ "." ++ op ++ ".responses";
           ve_message :=
             "Operation " ++ dq ++ toUpperCase op ++ " " ++ pathKey ++ dq
             ++ " must have at least one response defined";
           ve_severity := error;
           ve_line := findLineNumber yamlContent (Some ["paths"; pathKey; op]) |} ]
    else [] in
  undefinedParams <-
    check_path_parameters yamlContent pathKey op operation pathParams ;;
  Some (missingId ++ missingResponses ++ undefinedParams)%list.

Definition validator_operations : list string :=
  ["get"; "post"; "put"; "patch"; "delete"; "options"; "head"; "trace"].

Fixpoint validate_operations
    (yamlContent pathKey : string) (pathItem : json)
    (pathParams : list string) (ops : list string)
    : option (list ValidationError) :=
  match ops with
  | [] => Some []
  | op :: rest =>
      here <-
        match Json.get op pathItem with
        | Some operation =>
            if Json.truthy operation then
              validate_operation yamlContent pathKey op operation pathParams
            else Some []
        | None => Some []
        end ;;
      later <- validate_operations yamlContent pathKey pathItem pathParams rest ;;
      Some (here ++ later)%list
  end.

Definition validate_path_entry
    (yamlContent pathKey : string) (pathItem : json)
    : option (list ValidationError) :=
  let badStart :=
    if negb (Js.startsWith pathKey "/") then
      [ {| ve_path := "paths." ++ pathKey;
           ve_message :=
             "Path " ++ dq ++ pathKey ++ dq
             ++ " must start with a forward slash (/)";
           ve_severity := error;
           ve_line := findLineNumber yamlContent (Some ["paths"; pathKey]) |} ]
    else [] in
  match match_placeholders pathKey with
  | Some pathParams =>
      if Json.is_object pathItem then
        found <-
          validate_operations yamlContent pathKey pathItem pathParams
            validator_operations ;;
        Some (badStart ++ found)%list
      else Some badStart
  | None => Some badStart
  end.

Fixpoint validate_path_entries
    (yamlContent : string) (entries : list (string * json))
    : option (list ValidationError) :=
  match entries with
  | [] => Some []
  | (pathKey, pathItem) :: rest =>
      here <- validate_path_entry yamlContent pathKey pathItem ;;
      later <- validate_path_entries yamlContent rest ;;
      Some (here ++ later)%list
  end.

(** The errors [validatePaths] pushes. *)
Definition validatePaths (paths : json) (yamlContent : string)
    : option (list ValidationError) :=
  validate_path_entries yamlContent (Json.entries paths).

Definition validate_schema_entry
    (yamlContent schemaName : string) (schema : json)
    : list ValidationError :=
  if Json.is_object schema then
    let has k := Json.truthy_opt (Json.get k schema) in
    let line :=
      findLineNumber yamlContent (Some ["components"; "schemas"; schemaName]) in
    ((if negb (has "type") && negb (has "$ref") && negb (has "allOf")
         && negb (has "oneOf") && negb (has "anyOf")
      then
        [ {| ve_path := "components.schemas." ++ schemaName;
             ve_message :=
               "Schema " ++ dq ++ schemaName ++ dq ++ " should have a " ++ dq
               ++ "type" ++ dq ++ " field or use $ref/allOf/oneOf/anyOf";
             ve_severity := warning;
             ve_line := line |} ]
      else [])
     ++ (if Json.is_string "object" (Json.get "type" schema)
            && negb (has "properties") && negb (has "additionalProperties")
         then
           [ {| ve_path := "components.schemas." ++ schemaName;
                ve_message :=
                  "Object schema " ++ dq ++ schemaName ++ dq ++ " should have "
                  ++ dq ++ "properties" ++ dq ++ " or " ++ dq
                  ++ "additionalProperties" ++ dq ++ " defined";
                ve_severity := warning;
                ve_line := line |} ]
         else [])
     ++ (if Json.is_string "array" (Json.get "type" schema)
            && negb (has "items")
         then
           [ {| ve_path := "components.schemas." ++ schemaName ++ ".items";
                ve_message :=
                  "Array schema " ++ dq ++ schemaName ++ dq ++ " must have "
                  ++ dq ++ "items" ++ dq ++ " defined";
                ve_severity := error;
                ve_line := line |} ]
         else []))%list
  else [].

(** The errors [validateSchemas] pushes. *)
Definition validateSchemas (schemas : json) (yamlContent : string)
    : list ValidationError :=
  flat_map (fun entry => validate_schema_entry yamlContent (fst entry) (snd entry))
           (Json.entries schemas).

Definition missing_openapi_error : ValidationError :=
  {| ve_path := "openapi";
     ve_message :=
       "Missing required field " ++ dq ++ "openapi" ++ dq
       ++ ". Must specify OpenAPI version (e.g., " ++ dq ++ "3.0.3" ++ dq
       ++ " or " ++ dq ++ "3.1.0" ++ dq ++ ")";
     ve_severity := error;
     ve_line := Some 1 |}.

(** The check of the [openapi] field. *)
Definition check_openapi (spec : json) (yamlContent : string)
    : list ValidationError :=
  match Json.get "openapi" spec with
  | Some v =>
      if Json.truthy v then
        let version := Json.to_String v in
        if negb (Js.startsWith version "3.0")
           && negb (Js.startsWith version "3.1")
        then
          [ {| ve_path := "openapi";
               ve_message :=
                 "Invalid OpenAPI version " ++ dq ++ version ++ dq
                 ++ ". Must be 3.0.x or 3.1.x";
               ve_severity := error;
               ve_line := findLineNumber yamlContent (Some ["openapi"]) |} ]
        else []
      else [missing_openapi_error]
  | None => [missing_openapi_error]
  end.

(** The check of the [info] object. *)
Definition check_info (spec : json) (yamlContent : string)
    : list ValidationError :=
  match Json.get "info" spec with
  | Some info =>
      if Json.truthy info then
        ((if negb (Json.truthy_opt (Json.get "title" info)) then
            [ {| ve_path := "info.title";
                 ve_message :=
                   "Missing required field " ++ dq ++ "info.title" ++ dq;
                 ve_severity := error;
                 ve_line := findLineNumber yamlContent (Some ["info"; "title"]) |} ]
          else [])
         ++ (if negb (Json.truthy_opt (Json.get "version" info)) then
               [ {| ve_path := "info.version";
                    ve_message :=
                      "Missing required field " ++ dq ++ "info.version" ++ dq;
                    ve_severity := error;
                    ve_line :=
                      findLineNumber yamlContent (Some ["info"; "version"]) |} ]
             else []))%list
      else
        [ {| ve_path := "info";
             ve_message := "Missing required field " ++ dq ++ "info" ++ dq;
             ve_severity := error; ve_line := None |} ]
  | None =>
      [ {| ve_path := "info";
           ve_message := "Missing required field " ++ dq ++ "info" ++ dq;
           ve_severity := error; ve_line := None |} ]
  end.

(** The check of the [paths] object. *)
Definition check_paths (spec : json) (yamlContent : string)
    : option (list ValidationError) :=
  let missing :=
    [ {| ve_path := "paths";
         ve_message :=
           "Missing " ++ dq ++ "paths" ++ dq
           ++ " object. At least an empty paths object is recommended";
         ve_severity := warning; ve_line := None |} ] in
  match Json.get "paths" spec with
  | Some paths =>
      if Json.truthy paths then validatePaths paths yamlContent
      else Some missing
  | None => Some missing
  end.

(** The check of [components.schemas]. *)
Definition check_components (spec : json) (yamlContent : string)
    : list ValidationError :=
  match Json.get "components" spec with
  | Some components =>
      if Json.truthy components then
        match Json.get "schemas" components with
        | Some schemas =>
            if Json.truthy schemas then validateSchemas schemas yamlContent
            else []
        | None => []
        end
      else []
  | None => []
  end.

Definition performStructuralValidation (spec : json) (yamlContent : string)
    : option (list ValidationError) :=
  pathErrors <- check_paths spec yamlContent ;;
  Some (check_openapi spec yamlContent
        ++ check_info spec yamlContent
        ++ pathErrors
        ++ check_components spec yamlContent)%list.

(** What [yaml.parse] does with a text: it throws, or returns a value. *)
Inductive parse_result (V : Type) :=
| ParseError (message : string)
| Parsed (value : V).

Arguments ParseError {V}.
Arguments Parsed {V}.

(** One violation reported by the external OpenAPI validator. *)
Record ValidationDetail := mkValidationDetail {
  detail_path : option (list string);
  detail_message : string
}.

(** What the external validator does with a parsed document: it accepts
    it, or throws an error that has a message and may have a list of
    details. *)
Inductive external_outcome :=
| Accepted
| Rejected (details : option (list ValidationDetail)) (message : string).

Section ValidateOpenApiSpec.

(** The YAML parser and the external validator are libraries. *)
Variable yaml_parse : string -> parse_result json.
Variable openApiValidate : json -> external_outcome.

Definition external_errors (yamlContent : string) (parsedSpec : json)
    : list ValidationError :=
  match openApiValidate parsedSpec with
  | Accepted => []
  | Rejected (Some details) _ =>
      map (fun detail =>
             {| ve_path :=
                  Js.or_else
                    (match detail_path detail with
                     | Some segments => Js.join "." segments
                     | None => ""
                     end)
                    "unknown";
                ve_message := detail_message detail;
                ve_severity := error;
                ve_line := findLineNumber yamlContent (detail_path detail) |})
          details
  | Rejected None message =>
      [ {| ve_path := "document";
           ve_message := Js.or_else message "Unknown validation error";
           ve_severity := error;
           ve_line := None |} ]
  end.

(** The promise of [validateOpenApiSpec]: [None] when it is rejected by a
    TypeError of the structural pass. *)
Definition validateOpenApiSpec (yamlContent : string)
    : option ValidationResult :=
  match yaml_parse yamlContent with
  | ParseError message =>
      Some {| vr_isValid := false;
              vr_errors :=
                [ {| ve_path := "document";
                     ve_message := "YAML Parse Error: " ++ message;
                     ve_severity := error; ve_line := None |} ];
              vr_warnings := [] |}
  | Parsed parsedSpec =>
      if negb (Json.truthy parsedSpec) || negb (Json.is_object parsedSpec) then
        Some {| vr_isValid := false;
                vr_errors :=
                  [ {| ve_path := "document";
                       ve_message :=
                         "Invalid OpenAPI document: must be an object";
                       ve_severity := error; ve_line := None |} ];
                vr_warnings := [] |}
      else
        structuralErrors <- performStructuralValidation parsedSpec yamlContent ;;
        let errors :=
          (filter is_error structuralErrors
           ++ external_errors yamlContent parsedSpec)%list in
        Some {| vr_isValid := Nat.eqb (length errors) 0;
                vr_errors := errors;
                vr_warnings := filter is_warning structuralErrors |}
  end.

End ValidateOpenApiSpec.

(** A diagnostic about something other than the [openapi] field. *)
Definition elsewhere (e : ValidationError) : Prop := ve_path e <> "openapi".

(** The same document with a valid [openapi] field in front. *)
Definition with_openapi (fields : list (string * json)) : json :=
  JObj (("openapi", JStr "3.0.0") :: fields).

(** ** Parsed YAML as the importer reads it

    The importer casts the parsed value to the interface it declares and
    each nested value to the shape it reads.  The records below are those
    shapes: every field the importer reads, at the type of the cast, [None]
    for a field that is missing or [null].  An object used as a map is the
    list of its entries in the order of [Object.entries]. *)

Inductive scalar :=
| SNull
| SBool (b : bool)
| SNum (z : Z)
| SStr (s : string).

(** [String(v)] *)
Definition scalar_to_String (v : scalar) : string :=
  match v with
  | SNull => "null"
  | SBool b => Js.boolean_to_string b
  | SNum z => Js.number_to_string z
  | SStr s => s
  end.

Definition scalar_truthy (v : scalar) : bool :=
  match v with
  | SNull => false
  | SBool b => b
  | SNum z => negb (Z.eqb z 0)
  | SStr s => Js.truthy s
  end.

(** The text of an array element inside [Array.prototype.join]. *)
Definition scalar_join_text (v : scalar) : string :=
  match v with
  | SNull => ""
  | _ => scalar_to_String v
  end.

Record OpenApiInfo := mkOpenApiInfo {
  oa_info_title : option string;
  oa_info_description : option string;
  oa_info_version : option string
}.

Record OpenApiServer := mkOpenApiServer {
  oa_server_url : option string;
  oa_server_description : option string
}.

Record OpenApiTag := mkOpenApiTag {
  oa_tag_name : option string;
  oa_tag_description : option string
}.

Record OpenApiSecurityScheme := mkOpenApiSecurityScheme {
  oa_scheme_type : option string;
  oa_scheme_scheme : option string;
  oa_scheme_bearerFormat : option string;
  oa_scheme_in : option string;
  oa_scheme_name : option string
}.

Record OpenApiItems := mkOpenApiItems {
  oa_items_ref : option string;
  oa_items_type : option string
}.

Record OpenApiProperty := mkOpenApiProperty {
  oa_prop_description : option string;
  oa_prop_example : option scalar;
  oa_prop_ref : option string;
  oa_prop_type : option string;
  oa_prop_format : option string;
  oa_prop_enum : option (list scalar);
  oa_prop_items : option OpenApiItems
}.

Record OpenApiSchema := mkOpenApiSchema {
  oa_schema_required : option (list string);
  oa_schema_type : option string;
  oa_schema_properties : option (list (string * OpenApiProperty))
}.

Record OpenApiParameterSchema := mkOpenApiParameterSchema {
  oa_pschema_type : option scalar
}.

Record OpenApiParameter := mkOpenApiParameter {
  oa_param_name : option string;
  oa_param_in : option string;
  oa_param_description : option string;
  oa_param_required : option bool;
  oa_param_schema : option OpenApiParameterSchema
}.

Record OpenApiMediaSchema := mkOpenApiMediaSchema {
  oa_media_ref : option string
}.

Record OpenApiMediaType := mkOpenApiMediaType {
  oa_media_schema : option OpenApiMediaSchema
}.

Record OpenApiResponse := mkOpenApiResponse {
  oa_resp_content : option (list (string * OpenApiMediaType));
  oa_resp_description : option string
}.

Record OpenApiRequestBody := mkOpenApiRequestBody {
  oa_body_content : option (list (string * OpenApiMediaType));
  oa_body_description : option string;
  oa_body_required : option bool
}.

(** A security requirement: scheme names with their scope lists. *)
Definition SecurityRequirement := list (string * list string).

Record OpenApiOperation := mkOpenApiOperation {
  oa_op_security : option (list SecurityRequirement);
  oa_op_tags : option (list string);
  oa_op_summary : option string;
  oa_op_operationId : option string;
  oa_op_description : option string;
  oa_op_parameters : option (list OpenApiParameter);
  oa_op_responses : option (list (string * OpenApiResponse));
  oa_op_requestBody : option OpenApiRequestBody
}.

(** A path item: its keys that hold an operation object.  The importer
    reads a path item under the method names only. *)
Definition OpenApiPathItem := list (string * OpenApiOperation).

Record OpenApiComponents := mkOpenApiComponents {
  oa_schemas : option (list (string * OpenApiSchema));
  oa_securitySchemes : option (list (string * OpenApiSecurityScheme));
  (** the further keys of [components] that hold a truthy value *)
  oa_other_components : list string
}.

Record OpenApiDocument := mkOpenApiDocument {
  oa_openapi : option string;
  oa_info : option OpenApiInfo;
  oa_servers : option (list OpenApiServer);
  oa_tags : option (list OpenApiTag);
  oa_paths : option (list (string * OpenApiPathItem));
  oa_components : option OpenApiComponents;
  oa_security : option (list SecurityRequirement)
}.

(** The value [yaml.parse] returns: a scalar ([null] included), or an
    object, which the importer casts to its interface. *)
Inductive yaml_value :=
| YScalar (v : scalar)
| YObject (parsed : OpenApiDocument).

(** ** utils/yamlImporter.ts *)

Record ImportResult := mkImportResult {
  ir_success : bool;
  ir_document : option SwaggerDocument;
  ir_errors : list string;
  ir_warnings : list string
}.

(** [x || d] on an optional string. *)
Definition or_default (x : option string) (d : string) : string :=
  match x with
  | Some s => if Js.truthy s then s else d
  | None => d
  end.

(** [x ?? d] on an optional flag. *)
Definition nullish_or (x : option bool) (d : bool) : bool :=
  match x with Some b => b | None => d end.

Definition parse_security_scheme (name : string) (s : OpenApiSecurityScheme)
    : SwaggerSecurityScheme :=
  let is_type t :=
    match oa_scheme_type s with Some u => u =? t | None => false end in
  {| scheme_name := name;
     scheme_type := or_default (oa_scheme_type s) "http";
     scheme_scheme :=
       if is_type "http" then Some (or_default (oa_scheme_scheme s) "bearer")
       else None;
     scheme_bearerFormat :=
       if is_type "http" && truthy_opt (oa_scheme_bearerFormat s)
       then oa_scheme_bearerFormat s else None;
     scheme_in :=
       if negb (is_type "http") && is_type "apiKey"
       then Some (or_default (oa_scheme_in s) "header") else None;
     scheme_apiKeyName :=
       if negb (is_type "http") && is_type "apiKey"
       then Some (or_default (oa_scheme_name s) "") else None |}.

Definition parseSecuritySchemes
    (schemes : option (list (string * OpenApiSecurityScheme)))
    : list SwaggerSecurityScheme :=
  match schemes with
  | None => []
  | Some entries =>
      map (fun entry => parse_security_scheme (fst entry) (snd entry)) entries
  end.

Definition property_types : list string :=
  ["string"; "number"; "integer"; "boolean"; "array"; "object"].

Definition parseSchemaProperty
    (name : string) (prop : OpenApiProperty) (requiredFields : list string)
    : SchemaProperty :=
  let description := or_default (oa_prop_description prop) "" in
  let example :=
    match oa_prop_example prop with
    | Some v => scalar_to_String v
    | None => ""
    end in
  let required := Js.includes requiredFields name in
  if truthy_opt (oa_prop_ref prop) then
    {| prop_name := name; prop_type := "object"; prop_format := None;
       prop_description := description; prop_example := example;
       prop_required := Some required;
       prop_nullable := None; prop_readOnly := None; prop_writeOnly := None;
       prop_deprecated := None; prop_minLength := None; prop_maxLength := None;
       prop_minimum := None; prop_maximum := None; prop_pattern := None;
       prop_default := None;
       prop_ref := Some (extractSchemaRef (oa_prop_ref prop));
       prop_items := Some {| items_type := Some "string"; items_ref := Some "" |};
       prop_enumValues := Some "" |}
  else
    let propType := oa_prop_type prop in
    let is_array :=
      match propType with Some t => t =? "array" | None => false end in
    {| prop_name := name;
       prop_type :=
         match propType with
         | Some t => if Js.includes property_types t then t else ""
         | None => ""
         end;
       prop_format :=
         if truthy_opt (oa_prop_format prop) then oa_prop_format prop else None;
       prop_description := description; prop_example := example;
       prop_required := Some required;
       prop_nullable := None; prop_readOnly := None; prop_writeOnly := None;
       prop_deprecated := None; prop_minLength := None; prop_maxLength := None;
       prop_minimum := None; prop_maximum := None; prop_pattern := None;
       prop_default := None;
       prop_ref := Some "";
       prop_items :=
         match oa_prop_items prop with
         | Some items =>
             if is_array then
               if truthy_opt (oa_items_ref items) then
                 Some {| items_type := Some "object";
                         items_ref := Some (extractSchemaRef (oa_items_ref items)) |}
               else
                 Some {| items_type := Some (or_default (oa_items_type items) "string");
                         items_ref := Some "" |}
             else Some {| items_type := Some "string"; items_ref := Some "" |}
         | None => Some {| items_type := Some "string"; items_ref := Some "" |}
         end;
       prop_enumValues :=
         match oa_prop_enum prop with
         | Some values => Some (Js.join ", " (map scalar_join_text values))
         | None => Some ""
         end |}.

Definition parse_schema (name : string) (s : OpenApiSchema) : SwaggerSchema :=
  let requiredFields := or_list (oa_schema_required s) in
  {| schema_name := name;
     schema_type := or_default (oa_schema_type s) "object";
     schema_properties :=
       match oa_schema_properties s with
       | Some props =>
           map (fun entry =>
                  parseSchemaProperty (fst entry) (snd entry) requiredFields)
               props
       | None => []
       end;
     schema_isTemplate := None |}.

Definition parseSchemas (schemas : option (list (string * OpenApiSchema)))
    : list SwaggerSchema :=
  match schemas with
  | None => []
  | Some entries => map (fun entry => parse_schema (fst entry) (snd entry)) entries
  end.

Definition parse_parameter (p : OpenApiParameter) : PathParameter :=
  {| pp_name := or_default (oa_param_name p) "";
     pp_in := or_default (oa_param_in p) "path";
     pp_description := or_default (oa_param_description p) "";
     pp_required := nullish_or (oa_param_required p) false;
     pp_type :=
       match oa_param_schema p with
       | Some schema =>
           match oa_pschema_type schema with
           | Some t => if scalar_truthy t then scalar_to_String t else "string"
           | None => "string"
           end
       | None => "string"
       end;
     pp_format := None; pp_enum := None; pp_example := None;
     pp_default := None; pp_deprecated := None |}.

Definition parseParameters (params : option (list OpenApiParameter))
    : list PathParameter :=
  match params with
  | None => []
  | Some l => map parse_parameter l
  end.

(** The [$ref] of the schema of a media type, when all three are there. *)
Definition media_ref (content : list (string * OpenApiMediaType)) (ct : string)
    : option string :=
  match Js.assoc content ct with
  | Some mediaType =>
      match oa_media_schema mediaType with
      | Some schema =>
          if truthy_opt (oa_media_ref schema) then oa_media_ref schema else None
      | None => None
      end
  | None => None
  end.

(** The loop over the content types a response is searched under. *)
Fixpoint first_media_ref
    (content : list (string * OpenApiMediaType)) (contentTypes : list string)
    : string :=
  match contentTypes with
  | [] => ""
  | ct :: rest =>
      match media_ref content ct with
      | Some ref => extractSchemaRef (Some ref)
      | None => first_media_ref content rest
      end
  end.

Definition parse_response (statusCode : string) (r : OpenApiResponse)
    : PathResponse :=
  {| resp_statusCode := statusCode;
     resp_description := or_default (oa_resp_description r) "";
     resp_schemaRef :=
       match oa_resp_content r with
       | Some content =>
           first_media_ref content
             ["application/json"; "application/vnd.api+json"; "*/*"]
       | None => ""
       end;
     resp_contentType := None;
     resp_headers := None |}.

Definition parseResponses (responses : option (list (string * OpenApiResponse)))
    : list PathResponse :=
  match responses with
  | None => []
  | Some entries =>
      map (fun entry => parse_response (fst entry) (snd entry)) entries
  end.

Definition parseRequestBody (requestBody : option OpenApiRequestBody)
    : option RequestBody :=
  match requestBody with
  | None => None
  | Some body =>
      let found :=
        match oa_body_content body with
        | Some ((contentType, mediaType) :: _) =>
            (match oa_media_schema mediaType with
             | Some schema =>
                 if truthy_opt (oa_media_ref schema)
                 then extractSchemaRef (oa_media_ref schema) else ""
             | None => ""
             end,
             contentType)
        | _ => ("", "application/json")
        end in
      Some {| body_description := or_default (oa_body_description body) "";
              body_required := nullish_or (oa_body_required body) true;
              body_schemaRef := fst found;
              body_contentType := snd found |}
  end.

Definition httpMethods : list string :=
  ["get"; "post"; "put"; "delete"; "patch"; "options"; "head"; "trace"].

(** [securityToUse.flatMap((s) => Object.keys(s))], or the empty list. *)
Definition security_names (securityToUse : option (list SecurityRequirement))
    : list string :=
  match securityToUse with
  | Some requirements => flat_map (fun s => map fst s) requirements
  | None => []
  end.

Definition parse_operation
    (method : string) (operation : OpenApiOperation)
    (globalSecurity : option (list SecurityRequirement)) : PathOperation :=
  let securityToUse :=
    match oa_op_security operation with
    | Some own => Some own
    | None => globalSecurity
    end in
  let security := security_names securityToUse in
  {| op_method := method;
     op_tags := or_list (oa_op_tags operation);
     op_summary := or_default (oa_op_summary operation) "";
     op_operationId := or_default (oa_op_operationId operation) "";
     op_description := or_default (oa_op_description operation) "";
     op_deprecated := None;
     op_parameters := parseParameters (oa_op_parameters operation);
     op_responses := parseResponses (oa_op_responses operation);
     op_requestBody := parseRequestBody (oa_op_requestBody operation);
     op_security :=
       if Nat.ltb 0 (length security) then Some security else None |}.

Definition parse_path_item
    (pathItem : OpenApiPathItem)
    (globalSecurity : option (list SecurityRequirement))
    : list PathOperation :=
  flat_map
    (fun method =>
       match Js.assoc pathItem method with
       | Some operation => [parse_operation method operation globalSecurity]
       | None => []
       end)
    httpMethods.

Definition parsePaths
    (paths : option (list (string * OpenApiPathItem)))
    (globalSecurity : option (list SecurityRequirement))
    : list SwaggerPath :=
  match paths with
  | None => []
  | Some entries =>
      flat_map
        (fun entry =>
           let operations := parse_path_item (snd entry) globalSecurity in
           if Nat.ltb 0 (length operations) then
             [ {| path_path := fst entry; path_operations := operations |} ]
           else [])
        entries
  end.

Definition unsupportedComponents : list string :=
  ["responses"; "parameters"; "examples"; "requestBodies"; "headers";
   "links"; "callbacks"].

Definition import_parsed_document (parsed : OpenApiDocument) : ImportResult :=
  let errors :=
    if negb (truthy_opt (oa_openapi parsed))
    then ["Missing required field: openapi"] else [] in
  let title :=
    match oa_info parsed with Some i => oa_info_title i | None => None end in
  let titleWarning :=
    if negb (truthy_opt title)
    then ["Missing info.title - will be empty"] else [] in
  let info :=
    {| info_title := or_default title "";
       info_description :=
         or_default
           (match oa_info parsed with
            | Some i => oa_info_description i
            | None => None
            end) "";
       info_version :=
         or_default
           (match oa_info parsed with
            | Some i => oa_info_version i
            | None => None
            end) "1.0.0";
       info_termsOfService := None;
       info_contact := None;
       info_license := None |} in
  let servers :=
    map (fun s =>
           {| server_url := or_default (oa_server_url s) "";
              server_description := or_default (oa_server_description s) "";
              server_variables := None |})
        (or_list (oa_servers parsed)) in
  let tags :=
    map (fun t =>
           {| tag_name := or_default (oa_tag_name t) "";
              tag_description := or_default (oa_tag_description t) "" |})
        (or_list (oa_tags parsed)) in
  let securitySchemes :=
    parseSecuritySchemes
      (match oa_components parsed with
       | Some c => oa_securitySchemes c
       | None => None
       end) in
  let schemas :=
    parseSchemas
      (match oa_components parsed with
       | Some c => oa_schemas c
       | None => None
       end) in
  let paths := parsePaths (oa_paths parsed) (oa_security parsed) in
  let componentWarnings :=
    match oa_components parsed with
    | Some components =>
        map (fun comp =>
               "Component " ++ dq ++ comp ++ dq
               ++ " is not fully supported and may not be imported correctly")
            (filter (fun comp => Js.includes (oa_other_components components) comp)
                    unsupportedComponents)
    | None => []
    end in
  {| ir_success := Nat.eqb (length errors) 0;
     ir_document :=
       Some {| doc_openapi := or_default (oa_openapi parsed) "3.0.0";
               doc_info := info;
               doc_servers := servers;
               doc_securitySchemes := securitySchemes;
               doc_tags := tags;
               doc_paths := paths;
               doc_schemas := schemas |};
     ir_errors := errors;
     ir_warnings := (titleWarning ++ componentWarnings)%list |}.

(** What the importer does with the outcome of [yaml.parse]. *)
Definition import_parse_result (outcome : parse_result yaml_value)
    : ImportResult :=
  match outcome with
  | ParseError message =>
      {| ir_success := false; ir_document := None;
         ir_errors := ["YAML Parse Error: " ++ message];
         ir_warnings := [] |}
  | Parsed (YScalar _) =>
      {| ir_success := false; ir_document := None;
         ir_errors := ["Invalid document: must be an object"];
         ir_warnings := [] |}
  | Parsed (YObject parsed) => import_parsed_document parsed
  end.

Section ImportYamlDocument.

(** The YAML parser is a library. *)
Variable yaml_parse : string -> parse_result yaml_value.

Definition importYamlDocument (yamlContent : string) : ImportResult :=
  import_parse_result (yaml_parse yamlContent).

End ImportYamlDocument.

(** An imported operation from which the [security] field is taken away. *)
Definition without_security (operation : OpenApiOperation) : OpenApiOperation :=
  {| oa_op_security := None;
     oa_op_tags := oa_op_tags operation;
     oa_op_summary := oa_op_summary operation;
     oa_op_operationId := oa_op_operationId operation;
     oa_op_description := oa_op_description operation;
     oa_op_parameters := oa_op_parameters operation;
     oa_op_responses := oa_op_responses operation;
     oa_op_requestBody := oa_op_requestBody operation |}.

(** ** utils/yamlGenerator.ts: the serialiser *)

(** The texts a [forEach] appends, one after the other. *)
Definition for_each {A : Type} (f : A -> string) (xs : list A) : string :=
  Js.join "" (map f xs).

(** [s.trim()] in the ASCII range. *)
Fixpoint trimEnd (s : string) : string :=
  match s with
  | EmptyString => ""
  | String c r =>
      match trimEnd r with
      | EmptyString => if is_space c then "" else String c ""
      | t => String c t
      end
  end.

Definition trim (s : string) : string := trimEnd (trimStart s).

(** [raw.split(',').map((v) => v.trim()).filter((v) => v !== '')] *)
Definition enum_array (raw : string) : list string :=
  filter (fun v => negb (v =? "")) (map trim (Js.split "," raw)).

(** An [enum:] block at a key indent, its entries two columns deeper. *)
Definition emit_enum (indent : nat) (enumArray : list string) : string :=
  if Nat.ltb 0 (length enumArray) then
    Js.spaces indent ++ "enum:" ++ nl
    ++ for_each (fun enumValue =>
                   Js.spaces (indent + 2) ++ "- " ++ enumValue ++ nl)
                enumArray
  else "".

(** A line that is there only when a condition holds. *)
Definition when (b : bool) (text : string) : string := if b then text else "".

Definition emit_parameter (param : PathParameter) : string :=
  "        - name: " ++ pp_name param ++ nl
  ++ "          in: " ++ pp_in param ++ nl
  ++ "          description: " ++ formatDescription (pp_description param) 12 ++ nl
  ++ "          required: " ++ Js.boolean_to_string (pp_required param) ++ nl
  ++ when (truthy_flag (pp_deprecated param))
          ("          deprecated: true" ++ nl)
  ++ "          schema:" ++ nl
  ++ "            type: " ++ pp_type param ++ nl
  ++ when (truthy_opt (pp_format param))
          ("            format: " ++ or_empty (pp_format param) ++ nl)
  ++ when (truthy_opt (pp_enum param))
          (emit_enum 12 (enum_array (or_empty (pp_enum param))))
  ++ when (truthy_opt (pp_default param))
          ("            default: " ++ or_empty (pp_default param) ++ nl)
  ++ when (truthy_opt (pp_example param))
          ("          example: " ++ or_empty (pp_example param) ++ nl).

Definition emit_request_body (body : RequestBody) : string :=
  "      requestBody:" ++ nl
  ++ when (Js.truthy (body_description body))
          ("        description: "
           ++ formatDescription (body_description body) 10 ++ nl)
  ++ "        required: " ++ Js.boolean_to_string (body_required body) ++ nl
  ++ "        content:" ++ nl
  ++ "          " ++ Js.or_else (body_contentType body) "application/json"
  ++ ":" ++ nl
  ++ "            schema:" ++ nl
  ++ (if Js.truthy (body_schemaRef body) then
        "              $ref: '#/components/schemas/" ++ body_schemaRef body
        ++ "'" ++ nl
      else "              type: object" ++ nl).

Definition emit_response (resp : PathResponse) : string :=
  "        '" ++ resp_statusCode resp ++ "':" ++ nl
  ++ "          description: " ++ formatDescription (resp_description resp) 12 ++ nl
  ++ "          content:" ++ nl
  ++ "            application/vnd.api+json:" ++ nl
  ++ "              schema:" ++ nl
  ++ (if Js.truthy (resp_schemaRef resp) then
        "                $ref: '#/components/schemas/" ++ resp_schemaRef resp
        ++ "'" ++ nl
      else "                type: object" ++ nl).

Definition emit_operation (operation : PathOperation) : string :=
  "    " ++ op_method operation ++ ":" ++ nl
  ++ when (Nat.ltb 0 (length (op_tags operation)))
          ("      tags:" ++ nl
           ++ for_each (fun tag => "        - " ++ tag ++ nl) (op_tags operation))
  ++ "      summary: " ++ op_summary operation ++ nl
  ++ "      operationId: " ++ op_operationId operation ++ nl
  ++ "      description: " ++ formatDescription (op_description operation) 8 ++ nl
  ++ when (truthy_flag (op_deprecated operation)) ("      deprecated: true" ++ nl)
  ++ when (Nat.ltb 0 (length (op_parameters operation)))
          ("      parameters:" ++ nl
           ++ for_each emit_parameter (op_parameters operation))
  ++ match op_requestBody operation with
     | Some body => emit_request_body body
     | None => ""
     end
  ++ when (Nat.ltb 0 (length (op_responses operation)))
          ("      responses:" ++ nl
           ++ for_each emit_response (op_responses operation)).

Definition emit_path (path : SwaggerPath) : string :=
  "  '" ++ path_path path ++ "':" ++ nl
  ++ for_each emit_operation (path_operations path).

Definition emit_security_scheme (scheme : SwaggerSecurityScheme) : string :=
  "    " ++ scheme_name scheme ++ ":" ++ nl
  ++ "      type: " ++ scheme_type scheme ++ nl
  ++ (if scheme_type scheme =? "http" then
        "      scheme: " ++ or_default (scheme_scheme scheme) "bearer" ++ nl
        ++ when (match scheme_scheme scheme with
                 | Some s => s =? "bearer"
                 | None => false
                 end && truthy_opt (scheme_bearerFormat scheme))
                ("      bearerFormat: " ++ or_empty (scheme_bearerFormat scheme)
                 ++ nl)
      else if scheme_type scheme =? "apiKey" then
        "      in: " ++ or_default (scheme_in scheme) "header" ++ nl
        ++ "      name: " ++ or_default (scheme_apiKeyName scheme) "X-API-Key" ++ nl
      else "").

(** A number that is there: neither [undefined] nor [null]. *)
Definition emit_number (key : string) (n : option Z) : string :=
  match n with
  | Some z => "          " ++ key ++ ": " ++ Js.number_to_string z ++ nl
  | None => ""
  end.

Definition emit_property (prop : SchemaProperty) : string :=
  "        " ++ prop_name prop ++ ":" ++ nl
  ++ (if (prop_type prop =? "object") && truthy_opt (prop_ref prop) then
        "          $ref: '#/components/schemas/" ++ or_empty (prop_ref prop)
        ++ "'" ++ nl
      else if prop_type prop =? "array" then
        let itemsRef :=
          match prop_items prop with Some i => items_ref i | None => None end in
        let itemsType :=
          match prop_items prop with Some i => items_type i | None => None end in
        "          type: array" ++ nl
        ++ "          items:" ++ nl
        ++ (if truthy_opt itemsRef then
              "            $ref: '#/components/schemas/" ++ or_empty itemsRef
              ++ "'" ++ nl
            else "            type: " ++ or_default itemsType "string" ++ nl)
        ++ when (Js.truthy (prop_description prop))
                ("          description: "
                 ++ formatDescription (prop_description prop) 10 ++ nl)
      else
        "          type: " ++ prop_type prop ++ nl
        ++ when (truthy_opt (prop_format prop))
                ("          format: " ++ or_empty (prop_format prop) ++ nl)
        ++ when (truthy_flag (prop_nullable prop)) ("          nullable: true" ++ nl)
        ++ when (truthy_flag (prop_deprecated prop))
                ("          deprecated: true" ++ nl)
        ++ when (truthy_flag (prop_readOnly prop)) ("          readOnly: true" ++ nl)
        ++ when (truthy_flag (prop_writeOnly prop))
                ("          writeOnly: true" ++ nl)
        ++ when (truthy_opt (prop_default prop))
                ("          default: " ++ or_empty (prop_default prop) ++ nl)
        ++ when (truthy_opt (prop_pattern prop))
                ("          pattern: '" ++ or_empty (prop_pattern prop) ++ "'" ++ nl)
        ++ when (prop_type prop =? "string")
                (emit_number "minLength" (prop_minLength prop)
                 ++ emit_number "maxLength" (prop_maxLength prop))
        ++ when ((prop_type prop =? "number") || (prop_type prop =? "integer"))
                (emit_number "minimum" (prop_minimum prop)
                 ++ emit_number "maximum" (prop_maximum prop))
        ++ emit_enum 10
             (if truthy_opt (prop_enumValues prop)
              then enum_array (or_empty (prop_enumValues prop)) else [])
        ++ when (Js.truthy (prop_description prop))
                ("          description: "
                 ++ formatDescription (prop_description prop) 10 ++ nl)
        ++ when (Js.truthy (prop_example prop))
                ("          example: " ++ prop_example prop ++ nl)).

Definition emit_schema (schema : SwaggerSchema) : string :=
  "    " ++ schema_name schema ++ ":" ++ nl
  ++ "      type: " ++ schema_type schema ++ nl
  ++ when (Nat.ltb 0 (length (schema_properties schema)))
          ("      properties:" ++ nl
           ++ for_each emit_property (schema_properties schema)).

Definition emit_info (info : SwaggerInfo) : string :=
  "info:" ++ nl
  ++ "  title: " ++ info_title info ++ nl
  ++ "  description: " ++ formatDescription (info_description info) 4 ++ nl
  ++ "  version: " ++ dq ++ info_version info ++ dq ++ nl
  ++ when (truthy_opt (info_termsOfService info))
          ("  termsOfService: " ++ or_empty (info_termsOfService info) ++ nl)
  ++ match info_contact info with
     | Some contact =>
         when (truthy_opt (contact_name contact)
               || truthy_opt (contact_email contact)
               || truthy_opt (contact_url contact))
              ("  contact:" ++ nl
               ++ when (truthy_opt (contact_name contact))
                       ("    name: " ++ or_empty (contact_name contact) ++ nl)
               ++ when (truthy_opt (contact_email contact))
                       ("    email: " ++ or_empty (contact_email contact) ++ nl)
               ++ when (truthy_opt (contact_url contact))
                       ("    url: " ++ or_empty (contact_url contact) ++ nl))
     | None => ""
     end
  ++ match info_license info with
     | Some license =>
         when (Js.truthy (license_name license))
              ("  license:" ++ nl
               ++ "    name: " ++ license_name license ++ nl
               ++ when (truthy_opt (license_url license))
                       ("    url: " ++ or_empty (license_url license) ++ nl))
     | None => ""
     end.

(** The text of a document whose paths all have an operations array. *)
Definition emit_document (migratedDoc : SwaggerDocument) : string :=
  let hasSchemas := Nat.ltb 0 (length (doc_schemas migratedDoc)) in
  let hasSecuritySchemes :=
    Nat.ltb 0 (length (doc_securitySchemes migratedDoc)) in
  "openapi: " ++ doc_openapi migratedDoc ++ nl
  ++ emit_info (doc_info migratedDoc)
  ++ when (Nat.ltb 0 (length (doc_servers migratedDoc)))
          ("servers:" ++ nl
           ++ for_each
                (fun server =>
                   "  - url: " ++ server_url server ++ nl
                   ++ when (Js.truthy (server_description server))
                           ("    description: "
                            ++ formatDescription (server_description server) 6
                            ++ nl))
                (doc_servers migratedDoc))
  ++ when (Nat.ltb 0 (length (doc_tags migratedDoc)))
          ("tags:" ++ nl
           ++ for_each
                (fun tag =>
                   "  - name: " ++ tag_name tag ++ nl
                   ++ "    description: "
                   ++ formatDescription (tag_description tag) 6 ++ nl)
                (doc_tags migratedDoc))
  ++ when (Nat.ltb 0 (length (doc_paths migratedDoc)))
          ("paths:" ++ nl ++ for_each emit_path (doc_paths migratedDoc))
  ++ when (hasSchemas || hasSecuritySchemes)
          ("components:" ++ nl
           ++ when hasSecuritySchemes
                   ("  securitySchemes:" ++ nl
                    ++ for_each emit_security_scheme
                         (doc_securitySchemes migratedDoc))
           ++ when hasSchemas
                   ("  schemas:" ++ nl
                    ++ for_each emit_schema (doc_schemas migratedDoc)))
  ++ when hasSecuritySchemes
          ("security:" ++ nl
           ++ for_each (fun scheme => "  - " ++ scheme_name scheme ++ ": []" ++ nl)
                (doc_securitySchemes migratedDoc)).

(** The paths of a migrated document, when each has an operations array;
    the serialiser reads [path.operations] of every path, a TypeError on a
    flat path that is left. *)
Fixpoint all_with_operations (paths : list StoredPath)
    : option (list SwaggerPath) :=
  match paths with
  | [] => Some []
  | WithOperations p :: rest =>
      later <- all_with_operations rest ;;
      Some (p :: later)
  | Flat _ :: _ => None
  end.

Definition buildYamlDocument (doc : StoredDocument) : option string :=
  let migratedDoc := ensureOperationsFormat doc in
  paths <- all_with_operations (doc_paths migratedDoc) ;;
  Some (emit_document (with_paths migratedDoc paths)).

(** ** The enumeration order of the keys of an object

    [Object.entries] lists the keys that are array indices first, in
    ascending numeric order, and then the other keys in the order in which
    they were added. *)

Fixpoint decimal_value (s : string) (acc : N) : option N :=
  match s with
  | EmptyString => Some acc
  | String c r =>
      let n := nat_of_ascii c in
      if Nat.leb 48 n && Nat.leb n 57
      then decimal_value r (acc * 10 + N.of_nat (n - 48))%N
      else None
  end.

(** The index a key stands for, when it is a canonical numeric string
    below [2^32 - 1]. *)
Definition array_index (s : string) : option N :=
  match s with
  | EmptyString => None
  | String c r =>
      if Ascii.eqb c "0" && Js.truthy r then None
      else match decimal_value s 0 with
           | Some n => if N.ltb n 4294967295 then Some n else None
           | None => None
           end
  end.

Section OwnPropertyOrder.

Context {A : Type} (key : A -> string).

Fixpoint insert_index (n : N) (x : A) (sorted : list A) : list A :=
  match sorted with
  | [] => [x]
  | y :: r =>
      match array_index (key y) with
      | Some m => if N.leb n m then x :: sorted else y :: insert_index n x r
      | None => y :: insert_index n x r
      end
  end.

Fixpoint sort_indices (l : list A) : list A :=
  match l with
  | [] => []
  | x :: r =>
      match array_index (key x) with
      | Some n => insert_index n x (sort_indices r)
      | None => sort_indices r
      end
  end.

Definition is_named (x : A) : bool :=
  match array_index (key x) with
  | Some _ => false
  | None => true
  end.

(** The items of a list, keyed by [key], in the order in which an object
    built from them in list order enumerates them. *)
Definition own_property_order (l : list A) : list A :=
  (sort_indices l ++ filter is_named l)%list.

(** The index of an item, the named ones counted as zero. *)
Definition index_of (x : A) : N :=
  match array_index (key x) with
  | Some n => n
  | None => 0%N
  end.

Definition ascending (l : list A) : Prop :=
  StronglySorted (fun x y => (index_of x <= index_of y)%N) l.

End OwnPropertyOrder.

(** ** The round trip through the serialiser and the importer *)



(** How a single-quoted scalar is read: the text between the quotes,
    two single quotes in a row standing for one. *)
Fixpoint read_quoted_body (s : string) : option string :=
  match s with
  | EmptyString => None
  | String c r =>
      if Ascii.eqb c "'" then
        match r with
        | EmptyString => Some ""
        | String d r' =>
            if Ascii.eqb d "'" then option_map (String "'") (read_quoted_body r')
            else None
        end
      else option_map (String c) (read_quoted_body r)
  end.

Definition read_single_quoted (s : string) : option string :=
  match s with
  | String c r => if Ascii.eqb c "'" then read_quoted_body r else None
  | EmptyString => None
  end.













(** What comes back of a document: each definition below keeps the fields
    that survive the round trip and says what becomes of the others. *)




























From Stdlib Require Import Permutation.

(** ** hooks/useSwaggerDocument.ts: the other handlers of the hook

    A handler is embedded as the function it hands to [setDocument],
    applied to the state [prev].  The handlers that read the rendered
    [document] as well ([reorderPaths], [reorderSchemas],
    [addCommonErrorResponses], [duplicateSchema]) take that document as an
    argument of its own.  An index is a [nat]: a negative or fractional
    index compares unequal to every position, like an index past the end;
    only [splice] treats a negative index differently, and the reorder
    handlers are embedded for indices from zero on. *)

(** [xs.filter((x, i) => f(x, i))] *)
Fixpoint filteri_from {A : Type} (i : nat) (f : A -> nat -> bool)
    (xs : list A) : list A :=
  match xs with
  | [] => []
  | x :: r =>
      if f x i then x :: filteri_from (S i) f r else filteri_from (S i) f r
  end.

Definition filteri {A : Type} (f : A -> nat -> bool) (xs : list A) : list A :=
  filteri_from 0 f xs.

(** [const [removed] = xs.splice(start, 1); xs.splice(end, 0, removed)] on
    a copy of an array.  [None]: [start] names no element, [removed] is
    [undefined] and the array receives an entry that is no element. *)
Definition splice_move {A : Type} (xs : list A) (startIndex endIndex : nat)
    : option (list A) :=
  match nth_error xs startIndex with
  | None => None
  | Some removed =>
      let result := (firstn startIndex xs ++ skipn (S startIndex) xs)%list in
      Some (firstn endIndex result ++ removed :: skipn endIndex result)%list
  end.

(** [{ ...prev, tags }] and the like. *)
Definition with_tags (prev : SwaggerDocument) (tags : list SwaggerTag)
    : SwaggerDocument :=
  {| doc_openapi := doc_openapi prev;
     doc_info := doc_info prev;
     doc_servers := doc_servers prev;
     doc_securitySchemes := doc_securitySchemes prev;
     doc_tags := tags;
     doc_paths := doc_paths prev;
     doc_schemas := doc_schemas prev |}.

Definition with_servers (prev : SwaggerDocument) (servers : list SwaggerServer)
    : SwaggerDocument :=
  {| doc_openapi := doc_openapi prev;
     doc_info := doc_info prev;
     doc_servers := servers;
     doc_securitySchemes := doc_securitySchemes prev;
     doc_tags := doc_tags prev;
     doc_paths := doc_paths prev;
     doc_schemas := doc_schemas prev |}.

Definition with_securitySchemes
    (prev : SwaggerDocument) (securitySchemes : list SwaggerSecurityScheme)
    : SwaggerDocument :=
  {| doc_openapi := doc_openapi prev;
     doc_info := doc_info prev;
     doc_servers := doc_servers prev;
     doc_securitySchemes := securitySchemes;
     doc_tags := doc_tags prev;
     doc_paths := doc_paths prev;
     doc_schemas := doc_schemas prev |}.

Definition with_schemas (prev : SwaggerDocument) (schemas : list SwaggerSchema)
    : SwaggerDocument :=
  {| doc_openapi := doc_openapi prev;
     doc_info := doc_info prev;
     doc_servers := doc_servers prev;
     doc_securitySchemes := doc_securitySchemes prev;
     doc_tags := doc_tags prev;
     doc_paths := doc_paths prev;
     doc_schemas := schemas |}.

(** [{ ...path, operations }] *)
Definition with_operations (path : SwaggerPath) (operations : list PathOperation)
    : SwaggerPath :=
  {| path_path := path_path path; path_operations := operations |}.

(** [{ ...op, parameters }], [{ ...op, responses }] and
    [{ ...op, requestBody }] *)
Definition with_parameters (op : PathOperation) (parameters : list PathParameter)
    : PathOperation :=
  {| op_method := op_method op;
     op_tags := op_tags op;
     op_summary := op_summary op;
     op_operationId := op_operationId op;
     op_description := op_description op;
     op_deprecated := op_deprecated op;
     op_parameters := parameters;
     op_responses := op_responses op;
     op_requestBody := op_requestBody op;
     op_security := op_security op |}.

Definition with_responses (op : PathOperation) (responses : list PathResponse)
    : PathOperation :=
  {| op_method := op_method op;
     op_tags := op_tags op;
     op_summary := op_summary op;
     op_operationId := op_operationId op;
     op_description := op_description op;
     op_deprecated := op_deprecated op;
     op_parameters := op_parameters op;
     op_responses := responses;
     op_requestBody := op_requestBody op;
     op_security := op_security op |}.

Definition with_requestBody (op : PathOperation) (requestBody : option RequestBody)
    : PathOperation :=
  {| op_method := op_method op;
     op_tags := op_tags op;
     op_summary := op_summary op;
     op_operationId := op_operationId op;
     op_description := op_description op;
     op_deprecated := op_deprecated op;
     op_parameters := op_parameters op;
     op_responses := op_responses op;
     op_requestBody := requestBody;
     op_security := op_security op |}.

(** [{ ...schema, properties }] *)
Definition with_properties
    (schema : SwaggerSchema) (properties : list SchemaProperty)
    : SwaggerSchema :=
  {| schema_name := schema_name schema;
     schema_type := schema_type schema;
     schema_properties := properties;
     schema_isTemplate := schema_isTemplate schema |}.

Definition initialDocument : SwaggerDocument :=
  {| doc_openapi := "3.0.0";
     doc_info :=
       {| info_title := ""; info_description := ""; info_version := "1.0.0";
          info_termsOfService := None; info_contact := None;
          info_license := None |};
     doc_servers := [];
     doc_securitySchemes := [];
     doc_tags := [];
     doc_paths := [];
     doc_schemas := [] |}.

(** *** Tags, servers and security schemes *)

Definition addTag (prev : SwaggerDocument) : SwaggerDocument :=
  with_tags prev
    (doc_tags prev ++ [ {| tag_name := ""; tag_description := "" |} ])%list.

Definition removeTag (index : nat) (prev : SwaggerDocument) : SwaggerDocument :=
  with_tags prev (filteri (fun _ i => negb (Nat.eqb i index)) (doc_tags prev)).

(** [None]: the new array holds an [undefined] entry. *)
Definition reorderTags (oldIndex newIndex : nat) (prev : SwaggerDocument)
    : option SwaggerDocument :=
  match splice_move (doc_tags prev) oldIndex newIndex with
  | Some newTags => Some (with_tags prev newTags)
  | None => None
  end.

Definition addServer (prev : SwaggerDocument) : SwaggerDocument :=
  with_servers prev
    (doc_servers prev
     ++ [ {| server_url := ""; server_description := "";
             server_variables := None |} ])%list.

Definition removeServer (index : nat) (prev : SwaggerDocument)
    : SwaggerDocument :=
  with_servers prev
    (filteri (fun _ i => negb (Nat.eqb i index)) (doc_servers prev)).

Definition addSecurityScheme (prev : SwaggerDocument) : SwaggerDocument :=
  let newScheme :=
    {| scheme_name := ""; scheme_type := "http";
       scheme_scheme := Some "bearer"; scheme_bearerFormat := Some "JWT";
       scheme_in := None; scheme_apiKeyName := None |} in
  with_securitySchemes prev (doc_securitySchemes prev ++ [newScheme])%list.

Definition addCognitoSecurityScheme (prev : SwaggerDocument) : SwaggerDocument :=
  let cognitoScheme :=
    {| scheme_name := "Cognito"; scheme_type := "apiKey";
       scheme_scheme := None; scheme_bearerFormat := None;
       scheme_in := Some "header"; scheme_apiKeyName := Some "Authorization" |} in
  with_securitySchemes prev (doc_securitySchemes prev ++ [cognitoScheme])%list.

Definition removeSecurityScheme (index : nat) (prev : SwaggerDocument)
    : SwaggerDocument :=
  with_securitySchemes prev
    (filteri (fun _ i => negb (Nat.eqb i index)) (doc_securitySchemes prev)).

(** *** Paths and operations *)

Definition addPath (prev : SwaggerDocument) : SwaggerDocument :=
  let newOperation :=
    {| op_method := "get"; op_tags := []; op_summary := "";
       op_operationId := ""; op_description := ""; op_deprecated := None;
       op_parameters := []; op_responses := []; op_requestBody := None;
       op_security := None |} in
  let newPath := {| path_path := ""; path_operations := [newOperation] |} in
  with_paths prev (doc_paths prev ++ [newPath])%list.

(** [value] is the [unknown] the handler casts to a string. *)
Definition updatePath (index : nat) (field value : string)
    (prev : SwaggerDocument) : SwaggerDocument :=
  with_paths prev
    (Js.mapi
       (fun path i =>
          if negb (Nat.eqb i index) then path
          else if field =? "path" then
            let newPathStr := value in
            {| path_path := newPathStr;
               path_operations :=
                 map (fun op =>
                        with_parameters op
                          (syncPathParameters (op_parameters op) newPathStr))
                     (path_operations path) |}
          else path)
       (doc_paths prev)).

Definition removePath (index : nat) (prev : SwaggerDocument) : SwaggerDocument :=
  with_paths prev
    (filteri (fun _ i => negb (Nat.eqb i index)) (doc_paths prev)).

(** The operation [addOperation] builds for a method and a path. *)
Definition newOperation (method : string) (path : SwaggerPath) : PathOperation :=
  {| op_method := method; op_tags := []; op_summary := "";
     op_operationId := generateOperationId method (path_path path);
     op_description := ""; op_deprecated := None;
     op_parameters := syncPathParameters [] (path_path path);
     op_responses := []; op_requestBody := None;
     op_security := None |}.

Definition addOperation (pathIndex : nat) (method : string)
    (prev : SwaggerDocument) : SwaggerDocument :=
  with_paths prev
    (Js.mapi
       (fun path i =>
          if negb (Nat.eqb i pathIndex) then path
          else if existsb (fun op => op_method op =? method)
                          (path_operations path)
          then path
          else
            with_operations path
              (path_operations path ++ [newOperation method path])%list)
       (doc_paths prev)).

Definition removeOperation (pathIndex operationIndex : nat)
    (prev : SwaggerDocument) : SwaggerDocument :=
  with_paths prev
    (filter
       (fun path => Nat.ltb 0 (length (path_operations path)))
       (Js.mapi
          (fun path i =>
             if negb (Nat.eqb i pathIndex) then path
             else
               let filteredOps :=
                 filteri (fun _ j => negb (Nat.eqb j operationIndex))
                         (path_operations path) in
               with_operations path filteredOps)
          (doc_paths prev))).

(** The new order is computed from the rendered [document]. *)
Definition reorderPaths (document : SwaggerDocument) (startIndex endIndex : nat)
    (prev : SwaggerDocument) : option SwaggerDocument :=
  match splice_move (doc_paths document) startIndex endIndex with
  | Some result => Some (with_paths prev result)
  | None => None
  end.

(** The nested [map] that the handlers of parameters, responses and
    request bodies share: [f] on the operation at [operationIndex] of the
    path at [pathIndex]. *)
Definition at_operation (pathIndex operationIndex : nat)
    (f : PathOperation -> PathOperation) (prev : SwaggerDocument)
    : SwaggerDocument :=
  with_paths prev
    (Js.mapi
       (fun path i =>
          if Nat.eqb i pathIndex then
            with_operations path
              (Js.mapi
                 (fun op j => if Nat.eqb j operationIndex then f op else op)
                 (path_operations path))
          else path)
       (doc_paths prev)).

(** *** Parameters, responses and request bodies *)

Definition addParameter (pathIndex operationIndex : nat)
    (prev : SwaggerDocument) : SwaggerDocument :=
  let newParam :=
    {| pp_name := ""; pp_in := "path"; pp_description := "";
       pp_required := true; pp_type := "string";
       pp_format := None; pp_enum := None; pp_example := None;
       pp_default := None; pp_deprecated := None |} in
  at_operation pathIndex operationIndex
    (fun op => with_parameters op (op_parameters op ++ [newParam])%list) prev.

Definition removeParameter (pathIndex operationIndex paramIndex : nat)
    (prev : SwaggerDocument) : SwaggerDocument :=
  at_operation pathIndex operationIndex
    (fun op =>
       with_parameters op
         (filteri (fun _ k => negb (Nat.eqb k paramIndex)) (op_parameters op)))
    prev.

Definition addResponse (pathIndex operationIndex : nat)
    (prev : SwaggerDocument) : SwaggerDocument :=
  let newResponse :=
    {| resp_statusCode := "200"; resp_description := "";
       resp_schemaRef := ""; resp_contentType := None;
       resp_headers := None |} in
  at_operation pathIndex operationIndex
    (fun op => with_responses op (op_responses op ++ [newResponse])%list) prev.

Definition removeResponse (pathIndex operationIndex respIndex : nat)
    (prev : SwaggerDocument) : SwaggerDocument :=
  at_operation pathIndex operationIndex
    (fun op =>
       with_responses op
         (filteri (fun _ k => negb (Nat.eqb k respIndex)) (op_responses op)))
    prev.

(** The five responses of [addCommonErrorResponses], for the reference
    the handler has chosen. *)
Definition commonResponses (schemaRef : string) : list PathResponse :=
  let response statusCode description :=
    {| resp_statusCode := statusCode; resp_description := description;
       resp_schemaRef := schemaRef; resp_contentType := None;
       resp_headers := None |} in
  [ response "400" "Bad request - Invalid parameters";
    response "401" "Unauthorized - Invalid or missing authentication token";
    response "403" "Forbidden - Access denied";
    response "404" "Not found - Resource does not exist";
    response "500" "Internal server error - An unexpected error occurred" ].

(** The schema [Error] is looked up in the rendered [document]. *)
Definition addCommonErrorResponses
    (document : SwaggerDocument) (pathIndex operationIndex : nat)
    (prev : SwaggerDocument) : SwaggerDocument :=
  let errorSchema :=
    find (fun s => schema_name s =? "Error") (doc_schemas document) in
  let schemaRef := match errorSchema with Some _ => "Error" | None => "" end in
  at_operation pathIndex operationIndex
    (fun op =>
       with_responses op (op_responses op ++ commonResponses schemaRef)%list)
    prev.

Definition addRequestBody (pathIndex operationIndex : nat)
    (prev : SwaggerDocument) : SwaggerDocument :=
  let newRequestBody :=
    {| body_description := ""; body_required := true;
       body_schemaRef := ""; body_contentType := "application/json" |} in
  at_operation pathIndex operationIndex
    (fun op => with_requestBody op (Some newRequestBody)) prev.

Definition removeRequestBody (pathIndex operationIndex : nat)
    (prev : SwaggerDocument) : SwaggerDocument :=
  at_operation pathIndex operationIndex
    (fun op => with_requestBody op None) prev.

(** *** utils/schemaTemplates.ts *)




(** *** Schemas and their properties *)

Definition addSchema (prev : SwaggerDocument) : SwaggerDocument :=
  let newSchema :=
    {| schema_name := ""; schema_type := "object";
       schema_properties := []; schema_isTemplate := None |} in
  with_schemas prev (doc_schemas prev ++ [newSchema])%list.


Definition removeSchema (index : nat) (prev : SwaggerDocument)
    : SwaggerDocument :=
  with_schemas prev
    (filteri (fun _ i => negb (Nat.eqb i index)) (doc_schemas prev)).



Definition reorderSchemas (document : SwaggerDocument)
    (startIndex endIndex : nat) (prev : SwaggerDocument)
    : option SwaggerDocument :=
  match splice_move (doc_schemas document) startIndex endIndex with
  | Some result => Some (with_schemas prev result)
  | None => None
  end.

Definition addSchemaProperty (schemaIndex : nat) (prev : SwaggerDocument)
    : SwaggerDocument :=
  let newProperty :=
    {| prop_name := ""; prop_type := "string"; prop_format := None;
       prop_description := ""; prop_example := "";
       prop_required := Some false; prop_nullable := None;
       prop_readOnly := None; prop_writeOnly := None;
       prop_deprecated := None; prop_minLength := None;
       prop_maxLength := None; prop_minimum := None; prop_maximum := None;
       prop_pattern := None; prop_default := None; prop_ref := None;
       prop_items := None; prop_enumValues := None |} in
  with_schemas prev
    (Js.mapi
       (fun schema i =>
          if Nat.eqb i schemaIndex then
            with_properties schema (schema_properties schema ++ [newProperty])%list
          else schema)
       (doc_schemas prev)).

Definition removeSchemaProperty (schemaIndex propertyIndex : nat)
    (prev : SwaggerDocument) : SwaggerDocument :=
  with_schemas prev
    (Js.mapi
       (fun schema i =>
          if Nat.eqb i schemaIndex then
            with_properties schema
              (filteri (fun _ j => negb (Nat.eqb j propertyIndex))
                       (schema_properties schema))
          else schema)
       (doc_schemas prev)).


(** Every path of a document has an operation. *)
Definition has_operations (doc : SwaggerDocument) : Prop :=
  Forall (fun path => path_operations path <> []) (doc_paths doc).

(** No path of a document has two operations of one method. *)
Definition distinct_methods (doc : SwaggerDocument) : Prop :=
  Forall (fun path => NoDup (map op_method (path_operations path)))
         (doc_paths doc).

(** The names of the path-location parameters of an operation, in
    order. *)
Definition path_parameter_names (op : PathOperation) : list string :=
  map pp_name (filter (fun p => pp_in p =? "path") (op_parameters op)).

(** [doc.paths[a]?.operations[b]] *)
Definition operation_at (doc : SwaggerDocument) (a b : nat)
    : option PathOperation :=
  match nth_error (doc_paths doc) a with
  | Some path => nth_error (path_operations path) b
  | None => None
  end.

(** [xs] without the entry at an index. *)
Definition without {A : Type} (index : nat) (xs : list A) : list A :=
  (firstn index xs ++ skipn (S index) xs)%list.

(** [result] is [xs] with the entry [x] taken from position [startIndex]
    and put at position [endIndex], or at the end when [endIndex] lies
    past it. *)
Definition moved {A : Type} (xs : list A) (startIndex endIndex : nat) (x : A)
    (result : list A) : Prop :=
  let position := Nat.min endIndex (length xs - 1) in
  Permutation xs result
  /\ nth_error result position = Some x
  /\ without position result = without startIndex xs.

(** constants/statusCodes.ts *)
Definition ERROR_STATUS_CODES : list string :=
  ["400"; "401"; "403"; "404"; "500"].

(** ** components/SwaggerForm/LivePreview.tsx *)

Section RunValidation.

Variable yaml_parse : string -> parse_result json.
Variable openApiValidate : json -> external_outcome.

(** [String(error)] of the error a rejected validation carries. *)
Variable error_text : string.

(** The result [runValidation] stores: that of the validator, or the one
    built in the [catch] branch. *)
Definition runValidation (content : string) : ValidationResult :=
  match validateOpenApiSpec yaml_parse openApiValidate content with
  | Some result => result
  | None =>
      {| vr_isValid := false;
         vr_errors :=
           [ {| ve_path := "document"; ve_message := error_text;
                ve_severity := error; ve_line := None |} ];
         vr_warnings := [] |}
  end.

End RunValidation.

Definition MIN_FONT_SIZE : Z := 10.
Definition MAX_FONT_SIZE : Z := 24.
Definition DEFAULT_FONT_SIZE : Z := 14.
Definition FONT_SIZE_STEP : Z := 2.

(** [size] is what [parseInt] makes of the stored text; [None] stands
    for a missing entry, a store that throws, and [NaN]. *)
Definition getStoredFontSize (size : option Z) : Z :=
  match size with
  | Some size =>
      if Z.leb MIN_FONT_SIZE size && Z.leb size MAX_FONT_SIZE then size
      else DEFAULT_FONT_SIZE
  | None => DEFAULT_FONT_SIZE
  end.

Definition increaseFontSize (prev : Z) : Z :=
  Z.min (prev + FONT_SIZE_STEP) MAX_FONT_SIZE.

Definition decreaseFontSize (prev : Z) : Z :=
  Z.max (prev - FONT_SIZE_STEP) MIN_FONT_SIZE.

(** ** The import dialog *)


Section ImportDialog.

Variable yaml_parse : string -> parse_result yaml_value.




End ImportDialog.

(** * Properties *)

#[local] Arguments Ascii.eqb : simpl never.
#[local] Arguments String.eqb : simpl never.

(** ** Splitting and joining *)

Section SplitJoin.

Variable sep : ascii.

Lemma split_not_nil (s : string) : Js.split sep s <> [].
Proof.
  destruct s as [|c r]; simpl; [discriminate|].
  destruct (Ascii.eqb c sep); [discriminate|].
  destruct (Js.split sep r); discriminate.
Qed.

Lemma join_cons (w : string) (ws : list string) :
  ws <> [] ->
  Js.join (String sep "") (w :: ws) = w ++ String sep (Js.join (String sep "") ws).
Proof.
  intros H. destruct ws as [|x xs]; [congruence|]. reflexivity.
Qed.

Lemma join_split (s : string) : Js.join (String sep "") (Js.split sep s) = s.
Proof.
  induction s as [|c r IH]; [reflexivity|]. simpl.
  destruct (Ascii.eqb_spec c sep) as [->|Hne].
  - rewrite join_cons by apply split_not_nil. simpl. now rewrite IH.
  - pose proof (split_not_nil r) as Hnil.
    destruct (Js.split sep r) as [|w ws]; [congruence|].
    destruct ws as [|x xs].
    + simpl in *. now rewrite IH.
    + rewrite join_cons by discriminate.
      rewrite join_cons in IH by discriminate.
      rewrite <- IH. reflexivity.
Qed.

Lemma split_no_sep (s : string) :
  Forall (fun w => Js.includes_char sep w = false) (Js.split sep s).
Proof.
  induction s as [|c r IH]; simpl.
  - repeat constructor.
  - destruct (Ascii.eqb c sep) eqn:E.
    + constructor; [reflexivity|exact IH].
    + destruct (Js.split sep r) as [|w ws].
      * constructor; [|constructor]. simpl. now rewrite E.
      * inversion IH; subst. constructor; [|assumption].
        simpl. now rewrite E.
Qed.

Lemma split_whole (w : string) :
  Js.includes_char sep w = false -> Js.split sep w = [w].
Proof.
  induction w as [|c r IH]; simpl; [reflexivity|].
  intros H. apply orb_false_iff in H as [H1 H2].
  rewrite H1, IH by assumption. reflexivity.
Qed.

Lemma split_app_sep (w rest : string) :
  Js.includes_char sep w = false ->
  Js.split sep (w ++ String sep rest) = w :: Js.split sep rest.
Proof.
  induction w as [|c r IH]; simpl.
  - intros _. now rewrite Ascii.eqb_refl.
  - intros H. apply orb_false_iff in H as [H1 H2].
    rewrite H1, IH by assumption. reflexivity.
Qed.

Lemma split_join (ws : list string) :
  ws <> [] ->
  Forall (fun w => Js.includes_char sep w = false) ws ->
  Js.split sep (Js.join (String sep "") ws) = ws.
Proof.
  induction ws as [|w ws IH]; [congruence|].
  intros _ HF. inversion HF as [|? ? Hw Hws]; subst.
  destruct ws as [|x xs].
  - simpl. now apply split_whole.
  - rewrite join_cons by discriminate.
    rewrite split_app_sep by assumption.
    rewrite IH; [reflexivity|discriminate|assumption].
Qed.

End SplitJoin.

Lemma includes_char_app (c : ascii) (a b : string) :
  Js.includes_char c (a ++ b) = Js.includes_char c a || Js.includes_char c b.
Proof.
  induction a as [|d r IH]; simpl; [reflexivity|].
  now rewrite IH, orb_assoc.
Qed.

Lemma includes_char_spaces (c : ascii) (n : nat) :
  c <> " "%char -> Js.includes_char c (Js.spaces n) = false.
Proof.
  intros Hc. induction n as [|k IH]; simpl; [reflexivity|].
  rewrite IH, orb_false_r. apply Ascii.eqb_neq. congruence.
Qed.

Lemma string_length_app (a b : string) :
  String.length (a ++ b) = String.length a + String.length b.
Proof. induction a; simpl; congruence. Qed.

(** ** The operation-id generator *)

Lemma filter_last_kept {A} (f : A -> bool) (before after : list A) (x d : A) :
  f x = true ->
  Forall (fun y => f y = false) after ->
  last (filter f (before ++ x :: after)) d = x.
Proof.
  intros Hx Hafter.
  rewrite filter_app. simpl. rewrite Hx.
  assert (filter f after = []) as ->.
  { induction Hafter as [|y ys Hy _ IH]; simpl; [reflexivity|].
    now rewrite Hy. }
  apply last_last.
Qed.

Lemma filter_none {A} (f : A -> bool) (l : list A) :
  Forall (fun y => f y = false) l -> filter f l = [].
Proof.
  induction 1 as [|y ys Hy _ IH]; simpl; [reflexivity|]. now rewrite Hy.
Qed.

Lemma append_empty_r (s : string) : s ++ "" = s.
Proof. induction s; simpl; congruence. Qed.

(** C5 (as amended).  The identifier is the method string exactly as it is
    passed, followed by the camel-cased last segment of the template that
    is non-empty and does not begin with an opening brace: that segment is
    split on hyphens, each word has its first letter capitalised, and the
    words are concatenated.  A template without such a segment gives the
    bare method string.  The two examples of the specification hold. *)
Theorem generateOperationId_spec : forall method pathStr : string,
  (forall before seg after,
      Js.split "/" pathStr = (before ++ seg :: after)%list ->
      seg <> "" -> Js.startsWith seg "{" = false ->
      Forall (fun s => s = "" \/ Js.startsWith s "{" = true) after ->
      generateOperationId method pathStr
      = method ++ Js.join "" (map capitalize (Js.split "-" seg)))
  /\ (Forall (fun s => s = "" \/ Js.startsWith s "{" = true)
             (Js.split "/" pathStr) ->
      generateOperationId method pathStr = method)
  /\ generateOperationId "get" "/contract-accounts/{id}/payment-plans"
     = "getPaymentPlans"
  /\ generateOperationId "post" "/health" = "postHealth".
Proof.
  intros method pathStr.
  assert (Hdrop : forall l,
    Forall (fun s => s = "" \/ Js.startsWith s "{" = true) l ->
    Forall (fun y => Js.truthy y && negb (Js.startsWith y "{") = false) l).
  { intros l Hl. eapply Forall_impl; [|exact Hl].
    intros s [->|Hs]; [reflexivity|]. rewrite Hs. apply andb_false_r. }
  split; [|split; [|split; reflexivity]].
  - intros before seg after Hsplit Hne Hbrace Hafter.
    unfold generateOperationId. rewrite Hsplit.
    rewrite filter_last_kept; [reflexivity| |now apply Hdrop].
    rewrite Hbrace. destruct seg; [congruence|reflexivity].
  - intros Hall. unfold generateOperationId.
    rewrite filter_none by now apply Hdrop.
    simpl. apply append_empty_r.
Qed.

Lemma generateOperationId_spec_witness :
  generateOperationId "put" "/shop/line-items/{id}/" = "putLineItems"
  /\ generateOperationId "put" "/{id}" = "put".
Proof.
  split.
  - apply (proj1 (generateOperationId_spec "put" "/shop/line-items/{id}/")
             [""; "shop"] "line-items" ["{id}"; ""]).
    + reflexivity.
    + discriminate.
    + reflexivity.
    + constructor; [right; reflexivity|].
      constructor; [left; reflexivity|constructor].
  - apply (proj1 (proj2 (generateOperationId_spec "put" "/{id}"))).
    constructor; [left; reflexivity|].
    constructor; [right; reflexivity|constructor].
Defined.

(** C5 (as stated) fails: an upper-case method string is not lower-cased,
    so the identifier does not begin with the lower-case method name. *)
Lemma generateOperationId_keeps_method_case :
  generateOperationId "GET" "/health" = "GETHealth"
  /\ ~ (exists suffix,
          generateOperationId "GET" "/health" = Js.toLowerCase "GET" ++ suffix).
Proof.
  split; [reflexivity|].
  intros [suffix H]. vm_compute in H. discriminate H.
Qed.

(** ** The path-parameter synchroniser *)

Lemma take_until_close_length (s n rest : string) :
  take_until_close s = Some (n, rest) ->
  String.length s = String.length n + 1 + String.length rest.
Proof.
  revert n rest. induction s as [|c r IH]; intros n rest; simpl; [discriminate|].
  destruct (Ascii.eqb c "}").
  - intros [= <- <-]. simpl. lia.
  - destruct (take_until_close r) as [[n' rest']|]; [|discriminate].
    intros [= <- <-]. simpl. rewrite (IH n' rest' eq_refl). lia.
Qed.

Lemma match_placeholder_here_shorter (s n rest : string) :
  match_placeholder_here s = Some (n, rest) ->
  String.length rest < String.length s.
Proof.
  destruct s as [|c r]; simpl; [discriminate|].
  destruct (Ascii.eqb c "{"); [|discriminate].
  destruct (take_until_close r) as [[[|d m] rest']|] eqn:E; try discriminate.
  intros [= <- <-]. apply take_until_close_length in E. simpl in *. lia.
Qed.

Lemma regex_exec_shorter (s n rest : string) :
  regex_exec s = Some (n, rest) -> String.length rest < String.length s.
Proof.
  induction s as [|c r IH]; [discriminate|].
  cbn [regex_exec].
  destruct (match_placeholder_here (String c r)) as [[n' rest']|] eqn:E.
  - intros [= <- <-]. now apply match_placeholder_here_shorter in E.
  - intros H. apply IH in H. simpl. lia.
Qed.

(** The loop never runs out of fuel: any fuel above the length of the
    text gives the same list of names. *)
Lemma exec_loop_fuel (f1 f2 : nat) (s : string) :
  String.length s < f1 -> String.length s < f2 ->
  exec_loop f1 s = exec_loop f2 s.
Proof.
  revert f2 s. induction f1 as [|f1 IH]; intros f2 s H1 H2; [lia|].
  destruct f2 as [|f2]; [lia|]. simpl.
  destruct (regex_exec s) as [[n rest]|] eqn:E; [|reflexivity].
  apply regex_exec_shorter in E. f_equal. apply IH; lia.
Qed.

Lemma extractPathParameters_unfold (s : string) :
  extractPathParameters s
  = match regex_exec s with
    | None => []
    | Some (n, rest) => n :: extractPathParameters rest
    end.
Proof.
  unfold extractPathParameters.
  change (exec_loop (S (String.length s)) s)
    with (match regex_exec s with
          | None => []
          | Some (n, rest) => n :: exec_loop (String.length s) rest
          end).
  destruct (regex_exec s) as [[n rest]|] eqn:E; [|reflexivity].
  apply regex_exec_shorter in E. f_equal. apply exec_loop_fuel; lia.
Qed.

Lemma take_until_close_name (n post : string) :
  Js.includes_char "}" n = false ->
  take_until_close (n ++ String "}" post) = Some (n, post).
Proof.
  induction n as [|c r IH]; simpl.
  - intros _. reflexivity.
  - intros H. apply orb_false_iff in H as [H1 H2].
    rewrite H1, IH by assumption. reflexivity.
Qed.

Lemma regex_exec_placeholder (pre n post : string) :
  Js.includes_char "{" pre = false ->
  n <> "" -> Js.includes_char "}" n = false ->
  regex_exec (pre ++ String "{" (n ++ String "}" post)) = Some (n, post).
Proof.
  intros Hpre Hn Hclose. induction pre as [|c r IH].
  - cbn [append regex_exec match_placeholder_here].
    rewrite Ascii.eqb_refl, take_until_close_name by assumption.
    destruct n; [congruence|reflexivity].
  - simpl in Hpre. apply orb_false_iff in Hpre as [H1 H2].
    cbn [append regex_exec match_placeholder_here].
    rewrite H1. now apply IH.
Qed.

(** A placeholder is found where it stands: text without an opening
    brace, then a non-empty name without a closing brace between braces. *)
Lemma extractPathParameters_placeholder (pre n post : string) :
  Js.includes_char "{" pre = false ->
  n <> "" -> Js.includes_char "}" n = false ->
  extractPathParameters (pre ++ String "{" (n ++ String "}" post))
  = n :: extractPathParameters post.
Proof.
  intros. rewrite extractPathParameters_unfold.
  now rewrite regex_exec_placeholder.
Qed.

Lemma extractPathParameters_no_brace (s : string) :
  Js.includes_char "{" s = false -> extractPathParameters s = [].
Proof.
  intros H. rewrite extractPathParameters_unfold.
  assert (regex_exec s = None) as ->; [|reflexivity].
  induction s as [|c r IH]; [reflexivity|].
  simpl in H. apply orb_false_iff in H as [H1 H2].
  cbn [regex_exec match_placeholder_here]. rewrite H1. now apply IH.
Qed.

Lemma find_filter {A} (f g : A -> bool) (l : list A) :
  find f (filter g l) = find (fun x => g x && f x) l.
Proof.
  induction l as [|x xs IH]; simpl; [reflexivity|].
  destruct (g x); simpl; [|exact IH].
  destruct (f x); [reflexivity|exact IH].
Qed.

Lemma find_ext_in {A} (f g : A -> bool) (l : list A) :
  (forall x, In x l -> f x = g x) -> find f l = find g l.
Proof.
  induction l as [|x xs IH]; simpl; intros H; [reflexivity|].
  rewrite (H x) by now left. destruct (g x); [reflexivity|].
  apply IH. intros y Hy. apply H. now right.
Qed.

Lemma includes_In (xs : list string) (x : string) :
  Js.includes xs x = true <-> In x xs.
Proof.
  unfold Js.includes. rewrite existsb_exists. split.
  - intros [y [Hy E]]. apply String.eqb_eq in E. now subst.
  - intros H. exists x. split; [assumption|apply String.eqb_refl].
Qed.

Lemma find_fresh (n : string) (l : list string) :
  In n l ->
  find (fun p => pp_name p =? n) (map fresh_path_parameter l)
  = Some (fresh_path_parameter n).
Proof.
  induction l as [|h t IH]; simpl; [tauto|].
  destruct (String.eqb_spec h n) as [->|Hne]; [reflexivity|].
  intros [H|H]; [congruence|]. now apply IH.
Qed.

Lemma syncPathParameters_eq (currentParams : list PathParameter) (pathString : string) :
  syncPathParameters currentParams pathString
  = (map (parameter_for currentParams) (extractPathParameters pathString)
     ++ filter (fun p => negb (pp_in p =? "path")) currentParams)%list.
Proof.
  unfold syncPathParameters. f_equal.
  set (D := extractPathParameters pathString).
  set (E := filter _ currentParams).
  rewrite flat_map_concat_map.
  assert (Hpoint : forall n, In n D ->
    match find (fun p => pp_name p =? n) E with
    | Some p => [p]
    | None =>
        match find (fun p => pp_name p =? n)
                (map fresh_path_parameter
                   (filter (fun name => negb (Js.includes (map pp_name E) name)) D)) with
        | Some p => [p]
        | None => []
        end
    end = [parameter_for currentParams n]).
  { intros n Hn. unfold parameter_for, first_path_parameter.
    assert (HE : find (fun p => pp_name p =? n) E
                 = find (fun p => (pp_in p =? "path") && (pp_name p =? n)) currentParams).
    { unfold E. rewrite find_filter. apply find_ext_in. intros x _.
      destruct (String.eqb_spec (pp_name x) n) as [->|Hne].
      - apply (includes_In D) in Hn. rewrite Hn. now rewrite !andb_true_r.
      - now rewrite !andb_false_r. }
    rewrite <- HE.
    destruct (find (fun p => pp_name p =? n) E) as [p|] eqn:F; [reflexivity|].
    rewrite find_fresh; [reflexivity|].
    apply filter_In. split; [assumption|].
    apply negb_true_iff. apply not_true_is_false. intros Hinc.
    apply includes_In, in_map_iff in Hinc as [q [Hq1 Hq2]].
    eapply find_none in F; [|exact Hq2]. simpl in F.
    rewrite Hq1, String.eqb_refl in F. discriminate. }
  assert (Hmap : forall l, incl l D ->
    concat (map (fun name =>
      match find (fun p => pp_name p =? name) E with
      | Some p => [p]
      | None =>
          match find (fun p => pp_name p =? name)
                  (map fresh_path_parameter
                     (filter (fun name0 => negb (Js.includes (map pp_name E) name0)) D)) with
          | Some p => [p]
          | None => []
          end
      end) l) = map (parameter_for currentParams) l).
  { induction l as [|n t IH]; intros Hincl; [reflexivity|].
    cbn [map concat]. rewrite Hpoint by (apply Hincl; now left).
    rewrite IH; [reflexivity|]. intros x Hx. apply Hincl. now right. }
  apply Hmap, incl_refl.
Qed.



(** ** The serialiser's string formatter *)

Lemma double_single_quotes_chars (s : string) :
  list_ascii_of_string (double_single_quotes s)
  = flat_map (fun c => if Ascii.eqb c "'" then ["'"; "'"]%char else [c])
             (list_ascii_of_string s).
Proof.
  induction s as [|c r IH]; [reflexivity|].
  cbn [double_single_quotes list_ascii_of_string flat_map].
  destruct (Ascii.eqb c "'"); cbn [list_ascii_of_string app]; now rewrite IH.
Qed.

Lemma includes_char_truthy (c : ascii) (s : string) :
  Js.includes_char c s = true -> Js.truthy s = true.
Proof. destruct s; [discriminate|reflexivity]. Qed.

(** C3.  A text with a newline is emitted as a literal block scalar: a bar,
    a newline, and then exactly the lines of the text, each behind [indent]
    spaces.  A non-empty text of one line is put between single quotes with
    every single quote of the text doubled.  The empty text becomes two
    single quotes. *)
Theorem formatDescription_spec : forall (description : string) (indent : nat),
  (Js.includes_char newline description = true ->
     exists body,
       formatDescription description indent = "|" ++ nl ++ body
       /\ Js.split newline body
          = map (fun line => Js.spaces indent ++ line)
                (Js.split newline description))
  /\ (description <> "" -> Js.includes_char newline description = false ->
       formatDescription description indent
       = "'" ++ double_single_quotes description ++ "'"
       /\ list_ascii_of_string (double_single_quotes description)
          = flat_map (fun c => if Ascii.eqb c "'" then ["'"; "'"]%char else [c])
                     (list_ascii_of_string description))
  /\ formatDescription "" indent = "''"
  /\ formatDescription "It's fine" indent = "'It''s fine'".
Proof.
  intros description indent.
  split; [|split; [|split; reflexivity]].
  - intros Hnl. unfold formatDescription.
    rewrite (includes_char_truthy _ _ Hnl), Hnl. cbn [negb].
    eexists. split; [reflexivity|].
    unfold nl. apply split_join.
    + intros E. apply map_eq_nil in E. now apply split_not_nil in E.
    + apply Forall_forall. intros w Hw.
      apply in_map_iff in Hw as [line [<- Hline]].
      rewrite includes_char_app, includes_char_spaces by discriminate.
      pose proof (split_no_sep newline description) as HF.
      rewrite Forall_forall in HF. now apply HF.
  - intros Hne Hnl. split; [|apply double_single_quotes_chars].
    unfold formatDescription. rewrite Hnl.
    destruct description; [congruence|reflexivity].
Qed.

Lemma read_quoted_body_doubled (s : string) :
  read_quoted_body (double_single_quotes s ++ "'") = Some s.
Proof.
  induction s as [|c r IH]; [reflexivity|].
  cbn [double_single_quotes].
  destruct (Ascii.eqb c "'") eqn:E.
  - apply Ascii.eqb_eq in E. subst c.
    cbn [append read_quoted_body]. rewrite !Ascii.eqb_refl, IH. reflexivity.
  - cbn [append read_quoted_body]. rewrite E, IH. reflexivity.
Qed.

(** What the formatter writes for a text of one line reads back, as a
    single-quoted scalar, to that text. *)
Lemma formatDescription_read_back (description : string) (indent : nat) :
  Js.includes_char newline description = false ->
  read_single_quoted (formatDescription description indent) = Some description.
Proof.
  intros Hnl. unfold formatDescription. rewrite Hnl.
  destruct description as [|c r]; [reflexivity|].
  cbn [Js.truthy negb]. cbn [append read_single_quoted].
  rewrite Ascii.eqb_refl. apply read_quoted_body_doubled.
Qed.

Lemma formatDescription_spec_witness :
  (exists body,
     formatDescription ("a" ++ nl ++ "b") 4 = "|" ++ nl ++ body
     /\ Js.split newline body = ["    a"; "    b"])
  /\ formatDescription "plain" 2 = "'plain'".
Proof.
  split.
  - destruct (proj1 (formatDescription_spec ("a" ++ nl ++ "b") 4) eq_refl)
      as [body [H1 H2]].
    exists body. split; [exact H1|exact H2].
  - apply (proj1 (proj2 (formatDescription_spec "plain" 2)));
      [discriminate|reflexivity].
Defined.

(** ** Reference extraction in the importer *)

Lemma strip_prefix_app (p s : string) : Js.strip_prefix p (p ++ s) = Some s.
Proof.
  induction p as [|c r IH]; simpl; [now destruct s|].
  now rewrite Ascii.eqb_refl.
Qed.

Lemma strip_prefix_not_prefix (p s : string) :
  String.prefix p s = false -> Js.strip_prefix p s = None.
Proof.
  revert s. induction p as [|a p IH]; intros s.
  - destruct s; discriminate.
  - destruct s as [|b s]; [reflexivity|].
    cbn [String.prefix Js.strip_prefix].
    destruct (ascii_dec a b) as [->|Hne].
    + rewrite Ascii.eqb_refl. apply IH.
    + intros _. apply Ascii.eqb_neq in Hne. now rewrite Hne.
Qed.

Lemma take_line_whole (s : string) :
  Js.every_char (fun c => negb (is_line_terminator c)) s = true ->
  take_line s = s.
Proof.
  induction s as [|c r IH]; simpl; [reflexivity|].
  intros H. apply andb_true_iff in H as [H1 H2].
  apply negb_true_iff in H1. rewrite H1, IH by assumption. reflexivity.
Qed.

Lemma match_schema_ref_none (s : string) :
  Js.includes_str schemas_marker s = false -> match_schema_ref s = None.
Proof.
  induction s as [|c r IH]; intros H.
  - reflexivity.
  - cbn [Js.includes_str] in H. apply orb_false_iff in H as [H1 H2].
    cbn [match_schema_ref]. unfold match_schema_ref_here.
    rewrite strip_prefix_not_prefix by assumption. now apply IH.
Qed.

Lemma match_schema_ref_nonempty (s name : string) :
  match_schema_ref s = Some name -> name <> "".
Proof.
  assert (Hhere : forall t n, match_schema_ref_here t = Some n -> n <> "").
  { intros t n. unfold match_schema_ref_here.
    destruct (Js.strip_prefix schemas_marker t) as [rest|]; [|discriminate].
    destruct (take_line rest); [discriminate|]. intros [= <-]. discriminate. }
  induction s as [|c r IH]; cbn [match_schema_ref].
  - destruct (match_schema_ref_here "") eqn:E; [|discriminate].
    intros [= <-]. eapply Hhere; eauto.
  - destruct (match_schema_ref_here (String c r)) eqn:E.
    + intros [= <-]. eapply Hhere; eauto.
    + exact IH.
Qed.

Lemma match_schema_ref_found (pre rest : string) (c : ascii) :
  is_line_terminator c = false ->
  match_schema_ref (pre ++ schemas_marker ++ String c rest) <> None.
Proof.
  intros Hc. induction pre as [|d pre IH].
  - change ("" ++ schemas_marker ++ String c rest)
      with (schemas_marker ++ String c rest).
    destruct (schemas_marker ++ String c rest) eqn:E; [discriminate|].
    cbn [match_schema_ref]. rewrite <- E. unfold match_schema_ref_here.
    rewrite strip_prefix_app. cbn [take_line]. rewrite Hc. discriminate.
  - cbn [append match_schema_ref].
    destruct (match_schema_ref_here _); [discriminate|exact IH].
Qed.

Lemma extractSchemaRef_of_marker (name : string) :
  Js.every_char (fun c => negb (is_line_terminator c)) name = true ->
  extractSchemaRef (Some (schemas_marker ++ name)) = name.
Proof.
  intros Hname. destruct name as [|c r]; [reflexivity|].
  unfold extractSchemaRef.
  change (Js.truthy (schemas_marker ++ String c r)) with true. cbn [negb].
  destruct (schemas_marker ++ String c r) eqn:E; [discriminate|].
  cbn [match_schema_ref]. rewrite <- E. unfold match_schema_ref_here.
  rewrite strip_prefix_app, take_line_whole by assumption. reflexivity.
Qed.

(** C7 (as amended).  A reference made of the marker and a name of one line
    gives the name.  A reference in which the marker occurs nowhere gives
    the empty reference, and so does a missing one.  A reference that
    carries the marker behind other text does not give the empty
    reference: the text behind the marker is taken, as for the reference
    into another file shown last. *)
Theorem extractSchemaRef_spec :
  (forall name,
      Js.every_char (fun c => negb (is_line_terminator c)) name = true ->
      extractSchemaRef (Some (schemas_marker ++ name)) = name)
  /\ (forall ref, Js.includes_str schemas_marker ref = false ->
        extractSchemaRef (Some ref) = "")
  /\ extractSchemaRef None = ""
  /\ (forall pre c rest, is_line_terminator c = false ->
        extractSchemaRef (Some (pre ++ schemas_marker ++ String c rest)) <> "")
  /\ extractSchemaRef (Some "#/components/parameters/Limit") = ""
  /\ extractSchemaRef (Some "other.yaml#/components/schemas/Pet") = "Pet".
Proof.
  split; [|split; [|split; [reflexivity|split; [|split; reflexivity]]]].
  - exact extractSchemaRef_of_marker.
  - intros ref H. unfold extractSchemaRef.
    rewrite match_schema_ref_none by assumption. now destruct (negb _).
  - intros pre c rest Hc. unfold extractSchemaRef.
    assert (Js.truthy (pre ++ schemas_marker ++ String c rest) = true) as ->.
    { destruct pre; reflexivity. }
    cbn [negb].
    destruct (match_schema_ref _) as [name|] eqn:E.
    + now apply match_schema_ref_nonempty in E.
    + now apply match_schema_ref_found in E.
Qed.

Lemma extractSchemaRef_spec_witness :
  extractSchemaRef (Some (schemas_marker ++ "PaymentPlan")) = "PaymentPlan"
  /\ extractSchemaRef (Some "./common.yaml#/definitions/Id") = ""
  /\ extractSchemaRef (Some ("a" ++ schemas_marker ++ "B")) <> "".
Proof.
  split; [|split].
  - apply (proj1 extractSchemaRef_spec). reflexivity.
  - apply (proj1 (proj2 extractSchemaRef_spec)). reflexivity.
  - apply (proj1 (proj2 (proj2 (proj2 extractSchemaRef_spec))) "a" "B"%char "").
    reflexivity.
Defined.

(** C7 (as stated) fails: a reference of another shape, here into another
    file, is not mapped to the empty reference. *)
Lemma extractSchemaRef_other_shape_kept :
  ~ (forall ref : string,
       (forall name, ref <> schemas_marker ++ name) ->
       extractSchemaRef (Some ref) = "").
Proof.
  intros H.
  specialize (H "other.yaml#/components/schemas/Pet").
  assert (Hshape : forall name,
            "other.yaml#/components/schemas/Pet" <> schemas_marker ++ name).
  { intros name E. discriminate E. }
  specialize (H Hshape). discriminate H.
Qed.

(** ** The legacy-format migration *)


Lemma ensure_operations_path_idempotent (path : StoredPath) :
  ensure_operations_path (ensure_operations_path path)
  = ensure_operations_path path.
Proof.
  destruct path as [p|l]; [reflexivity|]. simpl.
  destruct (truthy_opt (legacy_method l)) eqn:E; simpl; [reflexivity|].
  now rewrite E.
Qed.

(** The migration of the hook and the one of the serialiser agree. *)
Lemma ensure_operations_path_migrate (path : StoredPath) :
  ensure_operations_path path = migrate_path path.
Proof.
  destruct path as [p|l]; [reflexivity|]. simpl.
  destruct (legacy_method l) as [m|]; simpl; [|reflexivity].
  destruct (Js.truthy m); reflexivity.
Qed.



(** ** Duplicating an operation *)

Lemma spread_parameter_id (p : PathParameter) : spread_parameter p = p.
Proof. now destruct p. Qed.

Lemma spread_response_id (r : PathResponse) : spread_response r = r.
Proof. now destruct r. Qed.

Lemma map_spread_parameter (l : list PathParameter) :
  map spread_parameter l = l.
Proof.
  erewrite map_ext; [apply map_id|]. intros; apply spread_parameter_id.
Qed.

Lemma map_spread_response (l : list PathResponse) :
  map spread_response l = l.
Proof.
  erewrite map_ext; [apply map_id|]. intros; apply spread_response_id.
Qed.

Lemma mapi_from_length {A B} (f : A -> nat -> B) (l : list A) (k : nat) :
  length (Js.mapi_from k f l) = length l.
Proof. revert k. induction l; intros; simpl; [reflexivity|]. now rewrite IHl. Qed.

Lemma mapi_from_nth {A B} (f : A -> nat -> B) (l : list A) (k i : nat) :
  nth_error (Js.mapi_from k f l) i
  = option_map (fun x => f x (k + i)) (nth_error l i).
Proof.
  revert k i. induction l as [|x r IH]; intros k i.
  - now destruct i.
  - destruct i as [|i]; simpl.
    + now rewrite Nat.add_0_r.
    + rewrite IH. now rewrite Nat.add_succ_comm.
Qed.

Lemma find_unused_none (used : list string) :
  find (fun m => negb (Js.includes used m)) availableMethods = None
  <-> (forall m, In m availableMethods -> In m used).
Proof.
  split.
  - intros H m Hm. eapply find_none in H; [|exact Hm].
    apply negb_false_iff in H. now apply includes_In.
  - intros H.
    destruct (find _ availableMethods) as [m|] eqn:F; [|reflexivity].
    apply find_some in F as [Hm Hb]. apply negb_true_iff in Hb.
    apply H, includes_In in Hm. congruence.
Qed.

(** C9.  When the path at [pathIndex] uses all five methods, one path is
    appended: its template is the original template followed by [_copy] and
    its only operation is the chosen one with [_copy] behind its
    operationId and the same parameters and responses; every path that was
    there, the original included, is as before.  When a method is unused,
    no path is added: the path at [pathIndex] gains, as its last operation,
    the chosen one under the first unused method of the list get, post,
    put, patch, delete, with the operationId generated from that method
    and the template; the other paths are as before.  The rest of the document is untouched in both cases. *)
Theorem duplicatePath_spec :
  forall (document : SwaggerDocument) (pathIndex operationIndex : nat)
         (path : SwaggerPath) (operation : PathOperation),
  nth_error (doc_paths document) pathIndex = Some path ->
  nth_error (path_operations path) operationIndex = Some operation ->
  ((forall m, In m availableMethods ->
              In m (map op_method (path_operations path))) ->
     let clone :=
       {| op_method := op_method operation;
          op_tags := op_tags operation;
          op_summary := op_summary operation;
          op_operationId := op_operationId operation ++ "_copy";
          op_description := op_description operation;
          op_deprecated := op_deprecated operation;
          op_parameters := op_parameters operation;
          op_responses := op_responses operation;
          op_requestBody := op_requestBody operation;
          op_security := op_security operation |} in
     let newPath :=
       {| path_path := path_path path ++ "_copy";
          path_operations := [clone] |} in
     exists doc',
       duplicatePath document pathIndex operationIndex = Some doc'
       /\ doc' = with_paths document (doc_paths document ++ [newPath])%list
       /\ nth_error (doc_paths doc') pathIndex = Some path
       /\ (forall i, i < length (doc_paths document) ->
             nth_error (doc_paths doc') i = nth_error (doc_paths document) i)
       /\ nth_error (doc_paths doc') (length (doc_paths document))
          = Some newPath
       /\ length (doc_paths doc') = S (length (doc_paths document)))
  /\ ((exists m, In m availableMethods
                 /\ ~ In m (map op_method (path_operations path))) ->
     exists doc' nextMethod,
       duplicatePath document pathIndex operationIndex = Some doc'
       /\ find (fun m => negb (Js.includes (map op_method (path_operations path)) m))
               availableMethods = Some nextMethod
       /\ In nextMethod availableMethods
       /\ ~ In nextMethod (map op_method (path_operations path))
       /\ let clone :=
            {| op_method := nextMethod;
               op_tags := op_tags operation;
               op_summary := op_summary operation;
               op_operationId :=
                 generateOperationId nextMethod (path_path path);
               op_description := op_description operation;
               op_deprecated := op_deprecated operation;
               op_parameters := op_parameters operation;
               op_responses := op_responses operation;
               op_requestBody := op_requestBody operation;
               op_security := op_security operation |} in
          nth_error (doc_paths doc') pathIndex
          = Some {| path_path := path_path path;
                    path_operations :=
                      (path_operations path ++ [clone])%list |}
          /\ (forall i, i <> pathIndex ->
                nth_error (doc_paths doc') i = nth_error (doc_paths document) i)
          /\ length (doc_paths doc') = length (doc_paths document)
          /\ doc_openapi doc' = doc_openapi document
          /\ doc_info doc' = doc_info document
          /\ doc_servers doc' = doc_servers document
          /\ doc_securitySchemes doc' = doc_securitySchemes document
          /\ doc_tags doc' = doc_tags document
          /\ doc_schemas doc' = doc_schemas document).
Proof.
  intros document pathIndex operationIndex path operation Hpath Hop.
  split.
  - intros Hall clone newPath.
    apply find_unused_none in Hall.
    exists (with_paths document (doc_paths document ++ [newPath])%list).
    assert (Hlt : pathIndex < length (doc_paths document)).
    { apply nth_error_Some. congruence. }
    split; [|split; [reflexivity|split; [|split; [|split]]]].
    + unfold duplicatePath. rewrite Hpath, Hop, Hall.
      unfold copied_operation.
      now rewrite map_spread_parameter, map_spread_response.
    + simpl. rewrite nth_error_app1 by assumption. exact Hpath.
    + intros i Hi. simpl. now rewrite nth_error_app1.
    + simpl. rewrite nth_error_app2 by lia. now rewrite Nat.sub_diag.
    + simpl. rewrite length_app. simpl. lia.
  - intros [m [Hm Hunused]].
    destruct (find (fun m => negb (Js.includes (map op_method (path_operations path)) m))
                   availableMethods) as [next|] eqn:F.
    2:{ exfalso. apply Hunused. eapply find_unused_none; eauto. }
    pose proof (find_some _ _ F) as [Hnext Hb].
    apply negb_true_iff in Hb.
    eexists. exists next.
    split.
    { unfold duplicatePath. rewrite Hpath, Hop, F. reflexivity. }
    split; [reflexivity|].
    split; [exact Hnext|].
    split.
    { intros Hin. apply includes_In in Hin. congruence. }
    cbn zeta. simpl doc_paths. unfold Js.mapi.
    split.
    { rewrite mapi_from_nth, Hpath. simpl. rewrite Nat.eqb_refl.
      unfold cloned_operation.
      now rewrite map_spread_parameter, map_spread_response. }
    split.
    { intros i Hi. rewrite mapi_from_nth. simpl.
      apply Nat.eqb_neq in Hi. rewrite Hi.
      now destruct (nth_error (doc_paths document) i). }
    split; [apply mapi_from_length|].
    repeat split.
Qed.

Lemma duplicatePath_spec_witness :
  let op m :=
    {| op_method := m; op_tags := []; op_summary := "";
       op_operationId := m ++ "Pets"; op_description := "";
       op_deprecated := None; op_parameters := []; op_responses := [];
       op_requestBody := None; op_security := None |} in
  let info :=
    {| info_title := ""; info_description := ""; info_version := "1.0.0";
       info_termsOfService := None; info_contact := None;
       info_license := None |} in
  let full : SwaggerDocument :=
    {| doc_openapi := "3.0.0"; doc_info := info; doc_servers := [];
       doc_securitySchemes := []; doc_tags := [];
       doc_paths :=
         [ {| path_path := "/pets";
              path_operations := map op availableMethods |} ];
       doc_schemas := [] |} in
  let single : SwaggerDocument :=
    {| doc_openapi := "3.0.0"; doc_info := info; doc_servers := [];
       doc_securitySchemes := []; doc_tags := [];
       doc_paths := [ {| path_path := "/pets"; path_operations := [op "get"] |} ];
       doc_schemas := [] |} in
  (exists doc', duplicatePath full 0 0 = Some doc'
                /\ length (doc_paths doc') = 2)
  /\ (exists doc', duplicatePath single 0 0 = Some doc'
                   /\ length (doc_paths doc') = 1).
Proof.
  intros op info full single. split.
  - destruct (proj1 (duplicatePath_spec full 0 0 _ _ eq_refl eq_refl))
      as [doc' [H1 [_ [_ [_ [_ H2]]]]]].
    + intros m Hm. simpl in Hm. simpl.
      repeat (destruct Hm as [<-|Hm]; [tauto|]). contradiction.
    + exists doc'. split; [exact H1|exact H2].
  - destruct (proj2 (duplicatePath_spec single 0 0 _ _ eq_refl eq_refl))
      as [doc' [next [H1 [_ [_ [_ [_ [_ [H2 _]]]]]]]]].
    + exists "post". split; [simpl; tauto|].
      simpl. intros [H|[]]. discriminate H.
    + exists doc'. split; [exact H1|exact H2].
Defined.

(** ** The structural validator *)

Lemma get_cons_other (k key : string) (v : json) (fields : list (string * json)) :
  k <> key ->
  Json.get key (JObj ((k, v) :: fields)) = Json.get key (JObj fields).
Proof.
  intros H. apply String.eqb_neq in H. cbn [Json.get Js.assoc].
  now rewrite H.
Qed.

Lemma elsewhere_app (a b : list ValidationError) :
  Forall elsewhere a -> Forall elsewhere b -> Forall elsewhere (a ++ b)%list.
Proof. intros; apply Forall_app; auto. Qed.

Ltac elsewhere_one :=
  repeat first
    [ apply Forall_nil
    | apply elsewhere_app
    | apply Forall_cons; [unfold elsewhere; cbn; discriminate|]
    | match goal with
      | |- Forall elsewhere (if ?b then _ else _) => destruct b
      end ].

Lemma check_path_parameters_elsewhere
    (yamlContent pathKey op : string) (operation : json)
    (pathParams : list string) (errs : list ValidationError) :
  check_path_parameters yamlContent pathKey op operation pathParams = Some errs ->
  Forall elsewhere errs.
Proof.
  revert errs. induction pathParams as [|param rest IH]; intros errs.
  - intros [= <-]. constructor.
  - cbn [check_path_parameters]. unfold bind.
    destruct (parameters_or_empty operation) as [ps|]; [|discriminate].
    destruct (some_path_parameter ps (slice_inner param)) as [b|]; [|discriminate].
    destruct (check_path_parameters _ _ _ _ rest) as [later|]; [|discriminate].
    intros [= <-]. specialize (IH later eq_refl). elsewhere_one; assumption.
Qed.

Lemma validate_operation_elsewhere
    (yamlContent pathKey op : string) (operation : json)
    (pathParams : list string) (errs : list ValidationError) :
  validate_operation yamlContent pathKey op operation pathParams = Some errs ->
  Forall elsewhere errs.
Proof.
  unfold validate_operation, bind.
  destruct (check_path_parameters _ _ _ _ _) as [ps|] eqn:E; [|discriminate].
  apply check_path_parameters_elsewhere in E.
  intros [= <-]. elsewhere_one; assumption.
Qed.

Lemma validate_operations_elsewhere
    (yamlContent pathKey : string) (pathItem : json)
    (pathParams ops : list string) (errs : list ValidationError) :
  validate_operations yamlContent pathKey pathItem pathParams ops = Some errs ->
  Forall elsewhere errs.
Proof.
  revert errs. induction ops as [|op rest IH]; intros errs.
  - intros [= <-]. constructor.
  - cbn [validate_operations]. unfold bind.
    destruct (match Json.get op pathItem with
              | Some operation => _
              | None => _
              end) as [here|] eqn:E; [|discriminate].
    destruct (validate_operations _ _ _ _ rest) as [later|]; [|discriminate].
    intros [= <-]. apply elsewhere_app; [|now apply IH].
    destruct (Json.get op pathItem) as [operation|].
    + destruct (Json.truthy operation).
      * now apply validate_operation_elsewhere in E.
      * injection E as <-. constructor.
    + injection E as <-. constructor.
Qed.

Lemma validate_path_entries_elsewhere
    (yamlContent : string) (entries : list (string * json))
    (errs : list ValidationError) :
  validate_path_entries yamlContent entries = Some errs ->
  Forall elsewhere errs.
Proof.
  revert errs. induction entries as [|[pathKey pathItem] rest IH]; intros errs.
  - intros [= <-]. constructor.
  - cbn [validate_path_entries]. unfold bind.
    destruct (validate_path_entry yamlContent pathKey pathItem) as [here|] eqn:E;
      [|discriminate].
    destruct (validate_path_entries yamlContent rest) as [later|]; [|discriminate].
    intros [= <-]. apply elsewhere_app; [|now apply IH].
    unfold validate_path_entry, bind in E.
    destruct (match_placeholders pathKey) as [pathParams|].
    + destruct (Json.is_object pathItem).
      * destruct (validate_operations _ _ _ _ _) as [found|] eqn:F; [|discriminate].
        apply validate_operations_elsewhere in F.
        injection E as <-. elsewhere_one; assumption.
      * injection E as <-. elsewhere_one.
    + injection E as <-. elsewhere_one.
Qed.

Lemma check_paths_elsewhere (spec : json) (yamlContent : string)
    (errs : list ValidationError) :
  check_paths spec yamlContent = Some errs -> Forall elsewhere errs.
Proof.
  unfold check_paths.
  destruct (Json.get "paths" spec) as [paths|].
  - destruct (Json.truthy paths).
    + apply validate_path_entries_elsewhere.
    + intros [= <-]. elsewhere_one.
  - intros [= <-]. elsewhere_one.
Qed.

Lemma check_info_elsewhere (spec : json) (yamlContent : string) :
  Forall elsewhere (check_info spec yamlContent).
Proof.
  unfold check_info.
  destruct (Json.get "info" spec) as [info|]; [|elsewhere_one].
  destruct (Json.truthy info); elsewhere_one.
Qed.

Lemma check_components_elsewhere (spec : json) (yamlContent : string) :
  Forall elsewhere (check_components spec yamlContent).
Proof.
  unfold check_components.
  destruct (Json.get "components" spec) as [components|]; [|constructor].
  destruct (Json.truthy components); [|constructor].
  destruct (Json.get "schemas" components) as [schemas|]; [|constructor].
  destruct (Json.truthy schemas); [|constructor].
  unfold validateSchemas. apply Forall_flat_map, Forall_forall.
  intros [name schema] _. unfold validate_schema_entry. cbn [fst snd].
  destruct (Json.is_object schema); elsewhere_one.
Qed.

Lemma filter_elsewhere (errs : list ValidationError) :
  Forall elsewhere errs ->
  filter (fun e => ve_path e =? "openapi") errs = [].
Proof.
  intros H. apply filter_none. eapply Forall_impl; [|exact H].
  intros e He. now apply String.eqb_neq.
Qed.

Lemma performStructuralValidation_without_openapi
    (fields : list (string * json)) (yamlContent : string) :
  Js.assoc fields "openapi" = None ->
  performStructuralValidation (JObj fields) yamlContent
  = option_map (cons missing_openapi_error)
      (performStructuralValidation (with_openapi fields) yamlContent).
Proof.
  intros Hnone. unfold performStructuralValidation, with_openapi.
  unfold check_paths, check_info, check_components, check_openapi.
  rewrite !get_cons_other by discriminate.
  replace (Json.get "openapi" (JObj fields)) with (@None json) by (symmetry; exact Hnone).
  unfold bind.
  destruct (match Json.get "paths" (JObj fields) with
            | Some paths => _
            | None => _
            end) as [pathErrors|]; reflexivity.
Qed.

(** C8 (as amended).  For a document that parses to an object without an
    [openapi] field, the structural pass reports the missing field once, in
    front, under the path [openapi] and at line 1, and its other
    diagnostics are those of the same document with a valid [openapi]
    field, none of them under the path [openapi].  The validator is
    therefore never valid on such a document, and its errors are that one
    error alone exactly when the rest of the document raises no
    structural error and the external validator adds none. *)
Theorem missing_openapi_spec :
  forall (yaml_parse : string -> parse_result json)
         (openApiValidate : json -> external_outcome)
         (yamlContent : string) (fields : list (string * json)),
  yaml_parse yamlContent = Parsed (JObj fields) ->
  Js.assoc fields "openapi" = None ->
  ve_path missing_openapi_error = "openapi"
  /\ ve_line missing_openapi_error = Some 1
  /\ performStructuralValidation (JObj fields) yamlContent
     = option_map (cons missing_openapi_error)
         (performStructuralValidation (with_openapi fields) yamlContent)
  /\ (forall others,
        performStructuralValidation (with_openapi fields) yamlContent
        = Some others ->
        Forall elsewhere others
        /\ validateOpenApiSpec yaml_parse openApiValidate yamlContent
           = Some {| vr_isValid := false;
                     vr_errors :=
                       (missing_openapi_error :: filter is_error others
                        ++ external_errors openApiValidate yamlContent
                             (JObj fields))%list;
                     vr_warnings := filter is_warning others |}
        /\ (filter is_error others = [] ->
            external_errors openApiValidate yamlContent (JObj fields) = [] ->
            exists result,
              validateOpenApiSpec yaml_parse openApiValidate yamlContent
              = Some result
              /\ vr_errors result = [missing_openapi_error]))
  /\ (performStructuralValidation (with_openapi fields) yamlContent = None ->
      validateOpenApiSpec yaml_parse openApiValidate yamlContent = None).
Proof.
  intros yaml_parse openApiValidate yamlContent fields Hparse Hnone.
  pose proof (performStructuralValidation_without_openapi fields yamlContent Hnone)
    as Hstruct.
  split; [reflexivity|]. split; [reflexivity|]. split; [exact Hstruct|].
  split.
  - intros others Hothers. rewrite Hothers in Hstruct. cbn [option_map] in Hstruct.
    assert (Hval : validateOpenApiSpec yaml_parse openApiValidate yamlContent
              = Some {| vr_isValid := false;
                        vr_errors :=
                          (missing_openapi_error :: filter is_error others
                           ++ external_errors openApiValidate yamlContent
                                (JObj fields))%list;
                        vr_warnings := filter is_warning others |}).
    { unfold validateOpenApiSpec. rewrite Hparse. cbn [Json.truthy Json.is_object negb orb].
      rewrite Hstruct. reflexivity. }
    split; [|split; [exact Hval|]].
    + unfold with_openapi, performStructuralValidation, bind in Hothers.
      destruct (check_paths _ yamlContent) as [pathErrors|] eqn:P; [|discriminate].
      apply check_paths_elsewhere in P. injection Hothers as <-.
      apply elsewhere_app; [apply check_info_elsewhere|].
      apply elsewhere_app; [assumption|apply check_components_elsewhere].
    + intros Hnoerr Hext. eexists. split; [exact Hval|].
      cbn [vr_errors]. now rewrite Hnoerr, Hext.
  - intros Hthrow. rewrite Hthrow in Hstruct. cbn [option_map] in Hstruct.
    unfold validateOpenApiSpec. rewrite Hparse.
    cbn [Json.truthy Json.is_object negb orb]. now rewrite Hstruct.
Qed.

Lemma missing_openapi_spec_witness :
  let fields :=
    [ ("info", JObj [("title", JStr "Pets"); ("version", JStr "1.0.0")]);
      ("paths", JObj []) ] in
  let text := "info: {title: Pets, version: 1.0.0}" ++ nl ++ "paths: {}" in
  exists result,
    validateOpenApiSpec (fun _ => Parsed (JObj fields)) (fun _ => Accepted) text
    = Some result
    /\ vr_errors result = [missing_openapi_error].
Proof.
  intros fields text.
  destruct (missing_openapi_spec
              (fun _ => Parsed (JObj fields)) (fun _ => Accepted)
              text fields eq_refl eq_refl)
    as [_ [_ [_ [H _]]]].
  destruct (H [] eq_refl) as [_ [_ Hone]].
  exact (Hone eq_refl eq_refl).
Defined.

(** C8 (as stated) fails: the empty object lacks [openapi] and [info], so
    whatever the external validator does, the validator does not report
    one error only. *)
Lemma missing_openapi_not_alone :
  Js.assoc (@nil (string * json)) "openapi" = None
  /\ ~ (exists (openApiValidate : json -> external_outcome)
                (result : ValidationResult) (e : ValidationError),
          validateOpenApiSpec (fun _ => Parsed (JObj [])) openApiValidate "{}"
          = Some result
          /\ vr_errors result = [e]).
Proof.
  split; [reflexivity|].
  intros [openApiValidate [result [e [Hval Hone]]]].
  unfold validateOpenApiSpec in Hval. cbn in Hval.
  injection Hval as <-. cbn [vr_errors] in Hone. discriminate Hone.
Qed.

(** ** The importer *)

(** C2 (as amended).  A parse failure is caught: the result has no
    document, one error and no success.  A parsed value that is not an
    object gives the same kind of result.  For a parsed object a document
    is built whatever the errors are; the only error then is the one of a
    missing [openapi] field.  In every case success is the emptiness of
    the error list. *)
Theorem importYamlDocument_spec :
  forall (yaml_parse : string -> parse_result yaml_value) (yamlContent : string),
  let result := importYamlDocument yaml_parse yamlContent in
  (forall message, yaml_parse yamlContent = ParseError message ->
     ir_success result = false /\ ir_document result = None
     /\ ir_errors result = ["YAML Parse Error: " ++ message]
     /\ ir_warnings result = [])
  /\ (forall v, yaml_parse yamlContent = Parsed (YScalar v) ->
        ir_success result = false /\ ir_document result = None
        /\ ir_errors result = ["Invalid document: must be an object"]
        /\ ir_warnings result = [])
  /\ (forall parsed, yaml_parse yamlContent = Parsed (YObject parsed) ->
        (exists document, ir_document result = Some document)
        /\ (truthy_opt (oa_openapi parsed) = true -> ir_errors result = [])
        /\ (truthy_opt (oa_openapi parsed) = false ->
            ir_errors result = ["Missing required field: openapi"]))
  /\ (ir_success result = true <-> ir_errors result = []).
Proof.
  intros yaml_parse yamlContent result. subst result.
  unfold importYamlDocument.
  split; [|split; [|split]].
  - intros message ->. repeat split.
  - intros v ->. repeat split.
  - intros parsed ->. cbn [import_parse_result].
    split; [eexists; reflexivity|].
    unfold import_parsed_document. cbn [ir_errors].
    split; intros ->; reflexivity.
  - destruct (yaml_parse yamlContent) as [message|[v|parsed]];
      cbn [import_parse_result ir_success ir_errors].
    + split; discriminate.
    + split; discriminate.
    + unfold import_parsed_document. cbn [ir_success ir_errors].
      destruct (negb (truthy_opt (oa_openapi parsed))); cbn.
      * split; discriminate.
      * split; reflexivity.
Qed.

Lemma importYamlDocument_spec_witness :
  let empty :=
    {| oa_openapi := None; oa_info := None; oa_servers := None;
       oa_tags := None; oa_paths := None; oa_components := None;
       oa_security := None |} in
  (exists document,
     ir_document (importYamlDocument (fun _ => Parsed (YObject empty)) "{}")
     = Some document)
  /\ ir_errors (importYamlDocument (fun _ => Parsed (YObject empty)) "{}")
     = ["Missing required field: openapi"]
  /\ ir_document (importYamlDocument (fun _ => ParseError "bad indentation") ":")
     = None
  /\ ir_document (importYamlDocument (fun _ => Parsed (YScalar (SNum 42))) "42")
     = None.
Proof.
  intros empty.
  pose proof (importYamlDocument_spec (fun _ => Parsed (YObject empty)) "{}")
    as [_ [_ [H _]]].
  destruct (H empty eq_refl) as [Hdoc [_ Herr]].
  split; [exact Hdoc|]. split; [exact (Herr eq_refl)|].
  split.
  - exact (proj1 (proj2 (proj1
             (importYamlDocument_spec (fun _ => ParseError "bad indentation") ":")
             "bad indentation" eq_refl))).
  - exact (proj1 (proj2 (proj1 (proj2
             (importYamlDocument_spec (fun _ => Parsed (YScalar (SNum 42))) "42"))
             (SNum 42) eq_refl))).
Defined.

(** C2 (as stated) fails: a text that parses, but not to an object, gives
    no document although the parser did not fail. *)
Lemma importYamlDocument_scalar_no_document :
  ~ (forall (yaml_parse : string -> parse_result yaml_value)
            (yamlContent : string),
       (forall message, yaml_parse yamlContent <> ParseError message) ->
       ir_document (importYamlDocument yaml_parse yamlContent) <> None).
Proof.
  intros H.
  apply (H (fun _ => Parsed (YScalar (SStr "hello"))) "hello").
  - intros message E. discriminate E.
  - reflexivity.
Qed.

Lemma security_names_length (names : list string) :
  (if Nat.ltb 0 (length names) then Some names else None) <> Some [].
Proof. destruct names; simpl; discriminate. Qed.

Lemma parse_path_item_security
    (pathItem : OpenApiPathItem) (globalSecurity : option (list SecurityRequirement))
    (op : PathOperation) :
  In op (parse_path_item pathItem globalSecurity) -> op_security op <> Some [].
Proof.
  unfold parse_path_item. intros H.
  apply in_flat_map in H as [method [_ H]].
  destruct (Js.assoc pathItem method) as [operation|]; [|contradiction].
  destruct H as [<-|[]]. apply security_names_length.
Qed.

(** C10.  No operation of an imported document has an empty security list.
    The effective security is the list of the operation when it has one
    and the global list otherwise; when it names no scheme the field is
    left undefined, and otherwise it holds the names.  So an operation
    with [security: []] is stored without the field, exactly like the same
    operation without a security field wherever the global list names no
    scheme. *)
Theorem imported_security_never_empty :
  forall (yaml_parse : string -> parse_result yaml_value) (yamlContent : string),
  (forall document path op,
      ir_document (importYamlDocument yaml_parse yamlContent) = Some document ->
      In path (doc_paths document) -> In op (path_operations path) ->
      op_security op <> Some [])
  /\ (forall method operation globalSecurity,
        let effective :=
          match oa_op_security operation with
          | Some own => Some own
          | None => globalSecurity
          end in
        (security_names effective = [] ->
         op_security (parse_operation method operation globalSecurity) = None)
        /\ (security_names effective <> [] ->
            op_security (parse_operation method operation globalSecurity)
            = Some (security_names effective)))
  /\ (forall method operation globalSecurity,
        oa_op_security operation = Some [] ->
        op_security (parse_operation method operation globalSecurity) = None
        /\ (security_names globalSecurity = [] ->
            parse_operation method operation globalSecurity
            = parse_operation method (without_security operation) globalSecurity)).
Proof.
  intros yaml_parse yamlContent. split; [|split].
  - intros document path op Hdoc Hpath Hop.
    unfold importYamlDocument in Hdoc.
    destruct (yaml_parse yamlContent) as [message|[v|parsed]];
      cbn [import_parse_result ir_document] in Hdoc; try discriminate.
    unfold import_parsed_document in Hdoc. cbn [ir_document] in Hdoc.
    injection Hdoc as <-. cbn [doc_paths] in Hpath.
    unfold parsePaths in Hpath.
    destruct (oa_paths parsed) as [entries|]; [|contradiction].
    apply in_flat_map in Hpath as [entry [_ Hpath]].
    destruct (Nat.ltb 0 (length (parse_path_item (snd entry) (oa_security parsed))));
      [|contradiction].
    destruct Hpath as [<-|[]]. cbn [path_operations] in Hop.
    now apply parse_path_item_security in Hop.
  - intros method operation globalSecurity effective.
    unfold parse_operation. cbn [op_security]. fold effective.
    split; intros H.
    + now rewrite H.
    + destruct (security_names effective); [congruence|reflexivity].
  - intros method operation globalSecurity Hempty. split.
    + unfold parse_operation. cbn [op_security]. now rewrite Hempty.
    + intros Hglobal. unfold parse_operation, without_security.
      cbn [oa_op_security oa_op_tags oa_op_summary oa_op_operationId
           oa_op_description oa_op_parameters oa_op_responses oa_op_requestBody].
      rewrite Hempty, Hglobal. reflexivity.
Qed.

Lemma imported_security_never_empty_witness :
  let operation :=
    {| oa_op_security := Some []; oa_op_tags := None;
       oa_op_summary := Some "List pets"; oa_op_operationId := Some "getPets";
       oa_op_description := None; oa_op_parameters := None;
       oa_op_responses := None; oa_op_requestBody := None |} in
  let parsed :=
    {| oa_openapi := Some "3.0.0"; oa_info := None; oa_servers := None;
       oa_tags := None; oa_paths := Some [("/pets", [("get", operation)])];
       oa_components := None; oa_security := Some [[("bearer", [])]] |} in
  (forall path op,
     In path (doc_paths
                {| doc_openapi := "3.0.0";
                   doc_info := {| info_title := ""; info_description := "";
                                  info_version := "1.0.0";
                                  info_termsOfService := None;
                                  info_contact := None; info_license := None |};
                   doc_servers := []; doc_securitySchemes := []; doc_tags := [];
                   doc_paths := parsePaths (oa_paths parsed) (oa_security parsed);
                   doc_schemas := [] |}) ->
     In op (path_operations path) -> op_security op <> Some [])
  /\ op_security (parse_operation "get" operation (oa_security parsed)) = None
  /\ parse_operation "get" operation None
     = parse_operation "get" (without_security operation) None.
Proof.
  intros operation parsed.
  pose proof (imported_security_never_empty
                (fun _ => Parsed (YObject parsed)) "text") as [H1 [_ H3]].
  split; [|split].
  - intros path op. apply H1. reflexivity.
  - exact (proj1 (H3 "get" operation (oa_security parsed) eq_refl)).
  - exact (proj2 (H3 "get" operation None eq_refl) eq_refl).
Defined.

(** ** The enumeration order of keys *)

Section OrderMap.

Context {A B : Type} (key : A -> string) (key' : B -> string) (g : A -> B).
Hypothesis key_g : forall x, key' (g x) = key x.





End OrderMap.

Lemma insert_index_in {A} (key : A -> string) (n : N) (x y : A) (l : list A) :
  In y (insert_index key n x l) <-> y = x \/ In y l.
Proof.
  induction l as [|z r IH]; cbn [insert_index].
  - simpl. intuition congruence.
  - destruct (array_index (key z)) as [m|].
    + destruct (N.leb n m); simpl in *; intuition congruence.
    + simpl in *. intuition congruence.
Qed.


Section OrderSorted.

Context {A : Type} (key : A -> string).

Lemma insert_index_ascending (n : N) (x : A) (l : list A) :
  array_index (key x) = Some n ->
  Forall (fun y => is_named key y = false) l ->
  ascending key l -> ascending key (insert_index key n x l).
Proof.
  intros Hx Hidx Hsorted. unfold ascending in *.
  induction l as [|y r IH]; cbn [insert_index].
  - repeat constructor.
  - inversion Hidx as [|? ? Hy Hr]; subst.
    inversion Hsorted as [|? ? Hs Hall]; subst.
    unfold is_named in Hy.
    destruct (array_index (key y)) as [m|] eqn:Ey; [|discriminate].
    destruct (N.leb n m) eqn:Hle.
    + apply N.leb_le in Hle. constructor; [assumption|].
      assert (Hxy : (index_of key x <= index_of key y)%N).
      { unfold index_of. now rewrite Hx, Ey. }
      constructor; [exact Hxy|].
      eapply Forall_impl; [|exact Hall]. cbn. intros z Hz. lia.
    + apply N.leb_gt in Hle. constructor; [now apply IH|].
      apply Forall_forall. intros z Hz.
      apply insert_index_in in Hz as [->|Hz].
      * unfold index_of. rewrite Hx, Ey. lia.
      * rewrite Forall_forall in Hall. now apply Hall.
Qed.

Lemma sort_indices_indexed (l : list A) :
  Forall (fun y => is_named key y = false) (sort_indices key l).
Proof.
  induction l as [|x r IH]; cbn [sort_indices]; [constructor|].
  destruct (array_index (key x)) as [n|] eqn:E; [|exact IH].
  apply Forall_forall. intros y Hy.
  apply insert_index_in in Hy as [->|Hy].
  - unfold is_named. now rewrite E.
  - rewrite Forall_forall in IH. now apply IH.
Qed.

(** The index keys come first, in ascending order. *)
Lemma sort_indices_ascending (l : list A) : ascending key (sort_indices key l).
Proof.
  induction l as [|x r IH]; cbn [sort_indices]; [constructor|].
  destruct (array_index (key x)) as [n|] eqn:E; [|exact IH].
  apply insert_index_ascending; [exact E|apply sort_indices_indexed|exact IH].
Qed.

End OrderSorted.

(** A list without index keys is left as it is. *)
Lemma own_property_order_named {A} (key : A -> string) (l : list A) :
  forallb (is_named key) l = true -> own_property_order key l = l.
Proof.
  intros H. unfold own_property_order.
  assert (sort_indices key l = []) as ->.
  { induction l as [|x r IH]; [reflexivity|].
    cbn [forallb] in H. apply andb_true_iff in H as [H1 H2].
    cbn [sort_indices]. unfold is_named in H1.
    destruct (array_index (key x)); [discriminate|now apply IH]. }
  cbn [app]. induction l as [|x r IH]; [reflexivity|].
  cbn [forallb] in H. apply andb_true_iff in H as [H1 H2].
  cbn [filter]. rewrite H1. f_equal. now apply IH.
Qed.

(** ** The round trip *)



































(** * Further properties of the sources *)

(** ** The path-parameter parser, further *)

Lemma take_until_close_app (s n rest : string) :
  take_until_close s = Some (n, rest) ->
  s = n ++ String "}" rest /\ Js.includes_char "}" n = false.
Proof.
  revert n rest. induction s as [|c r IH]; intros n rest; simpl; [discriminate|].
  destruct (Ascii.eqb_spec c "}") as [->|Hne].
  - intros [= <- <-]. split; reflexivity.
  - destruct (take_until_close r) as [[n' rest']|]; [|discriminate].
    intros [= <- <-]. destruct (IH n' rest' eq_refl) as [-> Hn].
    split; [reflexivity|]. simpl. rewrite Hn, orb_false_r.
    now apply Ascii.eqb_neq.
Qed.

Lemma match_placeholder_here_app (s n rest : string) :
  match_placeholder_here s = Some (n, rest) ->
  s = String "{" (n ++ String "}" rest)
  /\ n <> "" /\ Js.includes_char "}" n = false.
Proof.
  destruct s as [|c r]; simpl; [discriminate|].
  destruct (Ascii.eqb_spec c "{") as [->|Hne]; [|discriminate].
  destruct (take_until_close r) as [[[|d m] rest']|] eqn:E; try discriminate.
  intros [= <- <-]. apply take_until_close_app in E as [-> Hn].
  repeat split; [discriminate|assumption].
Qed.

Lemma regex_exec_app (s n rest : string) :
  regex_exec s = Some (n, rest) ->
  (exists pre, s = pre ++ String "{" (n ++ String "}" rest))
  /\ n <> "" /\ Js.includes_char "}" n = false.
Proof.
  induction s as [|c r IH]; [discriminate|].
  cbn [regex_exec].
  destruct (match_placeholder_here (String c r)) as [[n' rest']|] eqn:E.
  - intros [= <- <-]. apply match_placeholder_here_app in E as [E [Hn Hc]].
    repeat split; [|assumption|assumption]. exists "". exact E.
  - intros H. apply IH in H as [[pre Hpre] [Hn Hc]].
    repeat split; [|assumption|assumption].
    exists (String c pre). simpl. now rewrite Hpre.
Qed.

Lemma append_assoc (a b c : string) : (a ++ b) ++ c = a ++ (b ++ c).
Proof. induction a; simpl; congruence. Qed.

(** X1.  Every name that [extractPathParameters] returns is non-empty,
    holds no closing brace, and stands between braces somewhere in the
    template: the parser invents no name and returns no empty one. *)
Theorem extractPathParameters_names : forall path : string,
  Forall (fun n =>
            n <> "" /\ Js.includes_char "}" n = false
            /\ exists pre post, path = pre ++ "{" ++ n ++ "}" ++ post)
         (extractPathParameters path).
Proof.
  intros path. unfold extractPathParameters.
  generalize (S (String.length path)). intros fuel. revert path.
  induction fuel as [|f IH]; intros s; simpl; [constructor|].
  destruct (regex_exec s) as [[n rest]|] eqn:E; [|constructor].
  apply regex_exec_app in E as [[pre Hpre] [Hn Hc]].
  constructor.
  - repeat split; [assumption|assumption|]. exists pre, rest. exact Hpre.
  - specialize (IH rest). rewrite Forall_forall in IH |- *.
    intros m Hm. destruct (IH m Hm) as [Hm1 [Hm2 [pre' [post' Hrest]]]].
    repeat split; [assumption|assumption|].
    exists (pre ++ String "{" (n ++ String "}" pre')), post'.
    rewrite Hpre, Hrest. rewrite !append_assoc. simpl.
    rewrite !append_assoc. reflexivity.
Qed.

Lemma parameter_for_path (cur : list PathParameter) (n : string) :
  pp_in (parameter_for cur n) = "path" /\ pp_name (parameter_for cur n) = n.
Proof.
  unfold parameter_for, first_path_parameter.
  destruct (find _ cur) as [p|] eqn:F; [|split; reflexivity].
  apply find_some in F as [_ F]. apply andb_true_iff in F as [F1 F2].
  split; now apply String.eqb_eq.
Qed.

Lemma filter_path_parameter_for (cur : list PathParameter) (D : list string) :
  filter (fun p => negb (pp_in p =? "path")) (map (parameter_for cur) D) = [].
Proof.
  apply filter_none. apply Forall_forall. intros p Hp.
  apply in_map_iff in Hp as [n [<- _]].
  destruct (parameter_for_path cur n) as [-> _]. reflexivity.
Qed.

Lemma filter_idem {A} (f : A -> bool) (l : list A) :
  filter f (filter f l) = filter f l.
Proof.
  induction l as [|x xs IH]; simpl; [reflexivity|].
  destruct (f x) eqn:E; simpl; [rewrite E|]; now rewrite IH.
Qed.

Lemma first_path_parameter_synced
    (pf : string -> PathParameter) (D : list string)
    (rest : list PathParameter) (n : string) :
  (forall d, pp_in (pf d) = "path" /\ pp_name (pf d) = d) ->
  In n D ->
  first_path_parameter (map pf D ++ rest) n = Some (pf n).
Proof.
  intros Hpf. unfold first_path_parameter.
  induction D as [|d t IH]; simpl; [tauto|].
  destruct (Hpf d) as [-> ->]. rewrite String.eqb_refl. simpl.
  destruct (String.eqb_spec d n) as [->|Hne]; [reflexivity|].
  intros [H|H]; [congruence|]. now apply IH.
Qed.

(** X2.  [syncPathParameters] is idempotent: synchronising the result
    again with the same template changes nothing. *)
Theorem syncPathParameters_idempotent :
  forall (currentParams : list PathParameter) (pathString : string),
    syncPathParameters (syncPathParameters currentParams pathString) pathString
    = syncPathParameters currentParams pathString.
Proof.
  intros cur path.
  rewrite (syncPathParameters_eq (syncPathParameters cur path)).
  rewrite (syncPathParameters_eq cur path).
  set (D := extractPathParameters path).
  rewrite filter_app, filter_path_parameter_for, filter_idem. simpl.
  f_equal. apply map_ext_in. intros n Hn.
  unfold parameter_for at 1.
  rewrite first_path_parameter_synced;
    [reflexivity|apply parameter_for_path|assumption].
Qed.

Lemma path_names_synced (cur : list PathParameter) (path : string) :
  map pp_name
      (filter (fun p => pp_in p =? "path") (syncPathParameters cur path))
  = extractPathParameters path.
Proof.
  rewrite syncPathParameters_eq.
  set (D := extractPathParameters path).
  rewrite filter_app.
  assert (filter (fun p => pp_in p =? "path")
                 (filter (fun p => negb (pp_in p =? "path")) cur) = []) as ->.
  { apply filter_none. apply Forall_forall. intros p Hp.
    apply filter_In in Hp as [_ Hp]. now apply negb_true_iff in Hp. }
  rewrite app_nil_r.
  assert (filter (fun p => pp_in p =? "path") (map (parameter_for cur) D)
          = map (parameter_for cur) D) as ->.
  { induction D as [|d t IH]; simpl; [reflexivity|].
    destruct (parameter_for_path cur d) as [-> _]. simpl. now rewrite IH. }
  rewrite map_map. rewrite <- (map_id D) at 2. apply map_ext.
  intros n. apply parameter_for_path.
Qed.

(** X3.  For a template without an opening brace [syncPathParameters]
    returns the stored non-path parameters alone, in their order: every
    stored path parameter is dropped and none is created. *)
Theorem syncPathParameters_no_placeholder :
  forall (currentParams : list PathParameter) (pathString : string),
    Js.includes_char "{" pathString = false ->
    syncPathParameters currentParams pathString
    = filter (fun p => negb (pp_in p =? "path")) currentParams.
Proof.
  intros cur path H. rewrite syncPathParameters_eq.
  now rewrite extractPathParameters_no_brace.
Qed.

Lemma syncPathParameters_no_placeholder_witness :
  syncPathParameters
    [fresh_path_parameter "id";
     {| pp_name := "limit"; pp_in := "query"; pp_description := "";
        pp_required := false; pp_type := "integer"; pp_format := None;
        pp_enum := None; pp_example := None; pp_default := None;
        pp_deprecated := None |}]
    "/users"
  = [ {| pp_name := "limit"; pp_in := "query"; pp_description := "";
         pp_required := false; pp_type := "integer"; pp_format := None;
         pp_enum := None; pp_example := None; pp_default := None;
         pp_deprecated := None |} ].
Proof.
  rewrite (syncPathParameters_no_placeholder _ "/users"); reflexivity.
Defined.

(** ** The handlers of the hook *)

Lemma filteri_from_remove {A} (l : list A) (k n : nat) :
  filteri_from k (fun _ i => negb (Nat.eqb i (k + n))) l
  = (firstn n l ++ skipn (S n) l)%list.
Proof.
  revert k n. induction l as [|x r IH]; intros k n.
  - now destruct n.
  - cbn [filteri_from]. destruct n as [|n].
    + rewrite Nat.add_0_r, Nat.eqb_refl. simpl.
      clear IH. assert (H : forall (l : list A) j, k < j ->
        filteri_from j (fun _ i => negb (Nat.eqb i k)) l = l).
      { induction l as [|y t IHl]; intros j Hj; simpl; [reflexivity|].
        destruct (Nat.eqb_spec j k); [lia|]. simpl.
        f_equal. apply IHl. lia. }
      apply H. lia.
    + destruct (Nat.eqb_spec k (k + S n)); [lia|]. simpl. f_equal.
      replace (k + S n) with (S k + n) by lia. apply IH.
Qed.

Lemma filteri_remove {A} (l : list A) (n : nat) :
  filteri (fun _ i => negb (Nat.eqb i n)) l
  = (firstn n l ++ skipn (S n) l)%list.
Proof. apply (filteri_from_remove l 0 n). Qed.

Lemma remove_out_of_range {A} (l : list A) (n : nat) :
  length l <= n -> (firstn n l ++ skipn (S n) l)%list = l.
Proof.
  intros H. rewrite firstn_all2 by assumption.
  rewrite skipn_all2 by lia. apply app_nil_r.
Qed.

Lemma remove_in_range {A} (l : list A) (n : nat) :
  n < length l -> S (length (firstn n l ++ skipn (S n) l)) = length l.
Proof.
  intros H. rewrite length_app, length_firstn, length_skipn. lia.
Qed.

Lemma mapi_from_ext {A B} (f g : A -> nat -> B) (l : list A) (k : nat) :
  (forall x i, f x i = g x i) -> Js.mapi_from k f l = Js.mapi_from k g l.
Proof.
  intros H. revert k. induction l as [|x r IH]; intros k; simpl; [reflexivity|].
  now rewrite H, IH.
Qed.

Lemma mapi_from_update {A} (f : A -> A) (l : list A) (k n : nat) :
  Js.mapi_from k (fun x i => if Nat.eqb i (k + n) then f x else x) l
  = (firstn n l
     ++ match nth_error l n with Some x => [f x] | None => [] end
     ++ skipn (S n) l)%list.
Proof.
  revert k n. induction l as [|x r IH]; intros k n.
  - now destruct n.
  - cbn [Js.mapi_from]. destruct n as [|n].
    + rewrite Nat.add_0_r, Nat.eqb_refl. simpl. f_equal.
      clear IH. assert (H : forall (l : list A) j, k < j ->
        Js.mapi_from j (fun x i => if Nat.eqb i k then f x else x) l = l).
      { induction l as [|y t IHl]; intros j Hj; simpl; [reflexivity|].
        destruct (Nat.eqb_spec j k); [lia|]. f_equal. apply IHl. lia. }
      apply H. lia.
    + destruct (Nat.eqb_spec k (k + S n)); [lia|]. simpl. f_equal.
      replace (k + S n) with (S k + n) by lia. apply IH.
Qed.

Lemma mapi_update {A} (f : A -> A) (l : list A) (n : nat) :
  Js.mapi (fun x i => if Nat.eqb i n then f x else x) l
  = (firstn n l
     ++ match nth_error l n with Some x => [f x] | None => [] end
     ++ skipn (S n) l)%list.
Proof. apply (mapi_from_update f l 0 n). Qed.

Lemma mapi_update_out_of_range {A} (f : A -> A) (l : list A) (n : nat) :
  length l <= n ->
  Js.mapi (fun x i => if Nat.eqb i n then f x else x) l = l.
Proof.
  intros H. rewrite mapi_update.
  assert (nth_error l n = None) as -> by now apply nth_error_None.
  simpl. now apply remove_out_of_range.
Qed.

Lemma nth_error_update {A} (f : A -> A) (l : list A) (n k : nat) :
  nth_error (Js.mapi (fun x i => if Nat.eqb i n then f x else x) l) k
  = option_map (fun x => if Nat.eqb k n then f x else x) (nth_error l k).
Proof. unfold Js.mapi. now rewrite mapi_from_nth. Qed.

Lemma split_at {A} (l : list A) (n : nat) (x : A) :
  nth_error l n = Some x ->
  l = (firstn n l ++ x :: skipn (S n) l)%list.
Proof.
  revert n. induction l as [|y r IH]; intros n; destruct n; simpl;
    try discriminate.
  - now intros [= ->].
  - intros H. f_equal. now apply IH.
Qed.

Lemma with_paths_same (prev : SwaggerDocument) :
  with_paths prev (doc_paths prev) = prev.
Proof. now destruct prev. Qed.

Lemma with_tags_same (prev : SwaggerDocument) :
  with_tags prev (doc_tags prev) = prev.
Proof. now destruct prev. Qed.

Lemma with_servers_same (prev : SwaggerDocument) :
  with_servers prev (doc_servers prev) = prev.
Proof. now destruct prev. Qed.

Lemma with_securitySchemes_same (prev : SwaggerDocument) :
  with_securitySchemes prev (doc_securitySchemes prev) = prev.
Proof. now destruct prev. Qed.

Lemma with_schemas_same (prev : SwaggerDocument) :
  with_schemas prev (doc_schemas prev) = prev.
Proof. now destruct prev. Qed.

(** X4.  Each of [removeTag], [removeServer], [removeSecurityScheme],
    [removePath] and [removeSchema] deletes the entry at the index and
    keeps the others in their order ([without] is the list with one
    position left out); an index past the end leaves the document as it
    is. *)
Theorem remove_handlers_spec : forall (index : nat) (prev : SwaggerDocument),
  removeTag index prev = with_tags prev (without index (doc_tags prev))
  /\ removeServer index prev
     = with_servers prev (without index (doc_servers prev))
  /\ removeSecurityScheme index prev
     = with_securitySchemes prev (without index (doc_securitySchemes prev))
  /\ removePath index prev = with_paths prev (without index (doc_paths prev))
  /\ removeSchema index prev
     = with_schemas prev (without index (doc_schemas prev))
  /\ (length (doc_tags prev) <= index -> removeTag index prev = prev)
  /\ (length (doc_servers prev) <= index -> removeServer index prev = prev)
  /\ (length (doc_securitySchemes prev) <= index ->
      removeSecurityScheme index prev = prev)
  /\ (length (doc_paths prev) <= index -> removePath index prev = prev)
  /\ (length (doc_schemas prev) <= index -> removeSchema index prev = prev).
Proof.
  intros index prev.
  unfold removeTag, removeServer, removeSecurityScheme, removePath,
    removeSchema, without.
  rewrite !filteri_remove.
  repeat split; try reflexivity; intros H;
    rewrite remove_out_of_range by assumption.
  - apply with_tags_same.
  - apply with_servers_same.
  - apply with_securitySchemes_same.
  - apply with_paths_same.
  - apply with_schemas_same.
Qed.

Lemma remove_handlers_spec_witness :
  removePath 1 (addPath initialDocument) = addPath initialDocument.
Proof.
  destruct (remove_handlers_spec 1 (addPath initialDocument))
    as (_ & _ & _ & _ & _ & _ & _ & _ & H & _).
  apply H. simpl. lia.
Defined.

Lemma mapi_from_Forall {A} (P : A -> Prop) (f : A -> nat -> A)
    (l : list A) (k : nat) :
  (forall x i, P x -> P (f x i)) ->
  Forall P l -> Forall P (Js.mapi_from k f l).
Proof.
  intros Hf H. revert k. induction H as [|x r Hx _ IH]; intros k; simpl;
    constructor; auto.
Qed.

Lemma Forall_firstn {A} (P : A -> Prop) (l : list A) (n : nat) :
  Forall P l -> Forall P (firstn n l).
Proof.
  intros H. rewrite <- (firstn_skipn n l) in H.
  now apply Forall_app in H.
Qed.

Lemma Forall_skipn {A} (P : A -> Prop) (l : list A) (n : nat) :
  Forall P l -> Forall P (skipn n l).
Proof.
  intros H. rewrite <- (firstn_skipn n l) in H.
  now apply Forall_app in H.
Qed.

Lemma Forall_remove {A} (P : A -> Prop) (l : list A) (n : nat) :
  Forall P l -> Forall P (firstn n l ++ skipn (S n) l)%list.
Proof.
  intros H. apply Forall_app. split.
  - now apply Forall_firstn.
  - now apply Forall_skipn.
Qed.

Lemma filter_has_operations (paths : list SwaggerPath) :
  Forall (fun path => path_operations path <> []) paths ->
  filter (fun path => Nat.ltb 0 (length (path_operations path))) paths = paths.
Proof.
  induction 1 as [|p r Hp _ IH]; simpl; [reflexivity|].
  destruct (path_operations p) as [|op ops]; [congruence|]. simpl.
  now rewrite IH.
Qed.

Lemma removeOperation_paths (pathIndex operationIndex : nat)
    (prev : SwaggerDocument) :
  doc_paths (removeOperation pathIndex operationIndex prev)
  = filter (fun path => Nat.ltb 0 (length (path_operations path)))
      (firstn pathIndex (doc_paths prev)
       ++ match nth_error (doc_paths prev) pathIndex with
          | Some p =>
              [with_operations p
                 (firstn operationIndex (path_operations p)
                  ++ skipn (S operationIndex) (path_operations p))]
          | None => []
          end
       ++ skipn (S pathIndex) (doc_paths prev))%list.
Proof.
  unfold removeOperation. cbn [doc_paths with_paths]. f_equal.
  unfold Js.mapi.
  rewrite (mapi_from_ext _
    (fun path i =>
       if Nat.eqb i pathIndex then
         with_operations path
           (firstn operationIndex (path_operations path)
            ++ skipn (S operationIndex) (path_operations path))
       else path)).
  - apply (mapi_update
             (fun path =>
                with_operations path
                  (firstn operationIndex (path_operations path)
                   ++ skipn (S operationIndex) (path_operations path)))).
  - intros x i. rewrite filteri_remove. now destruct (Nat.eqb i pathIndex).
Qed.

(** X5.  In a document whose paths all have an operation,
    [removeOperation] deletes the operation at [operationIndex] from the
    path at [pathIndex]; when that was the only operation of the path the
    path itself is deleted, and every other path stays where it is. *)
Theorem removeOperation_spec :
  forall (pathIndex operationIndex : nat) (prev : SwaggerDocument)
         (p : SwaggerPath),
    has_operations prev ->
    nth_error (doc_paths prev) pathIndex = Some p ->
    doc_paths (removeOperation pathIndex operationIndex prev)
    = (firstn pathIndex (doc_paths prev)
       ++ match (firstn operationIndex (path_operations p)
                 ++ skipn (S operationIndex) (path_operations p))%list with
          | [] => []
          | ops => [ {| path_path := path_path p; path_operations := ops |} ]
          end
       ++ skipn (S pathIndex) (doc_paths prev))%list.
Proof.
  intros i j prev p Hinv Hp. rewrite removeOperation_paths, Hp.
  rewrite !filter_app.
  rewrite (filter_has_operations (firstn i (doc_paths prev)))
    by now apply Forall_firstn.
  rewrite (filter_has_operations (skipn (S i) (doc_paths prev)))
    by now apply Forall_skipn.
  f_equal. f_equal.
  destruct (firstn j (path_operations p) ++ skipn (S j) (path_operations p))%list
    eqn:E; reflexivity.
Qed.

Lemma removeOperation_spec_witness :
  doc_paths (removeOperation 0 0 (addPath (addPath initialDocument)))
  = doc_paths (addPath initialDocument).
Proof.
  rewrite (removeOperation_spec 0 0 (addPath (addPath initialDocument))
             {| path_path := "";
                path_operations :=
                  [ {| op_method := "get"; op_tags := []; op_summary := "";
                       op_operationId := ""; op_description := "";
                       op_deprecated := None; op_parameters := [];
                       op_responses := []; op_requestBody := None;
                       op_security := None |} ] |}).
  - reflexivity.
  - repeat constructor; discriminate.
  - reflexivity.
Defined.

Lemma mapi_Forall {A} (P : A -> Prop) (f : A -> nat -> A) (l : list A) :
  (forall x i, P x -> P (f x i)) -> Forall P l -> Forall P (Js.mapi f l).
Proof. apply mapi_from_Forall. Qed.

Lemma mapi_from_nil {A B} (f : A -> nat -> B) (l : list A) (k : nat) :
  Js.mapi_from k f l = [] -> l = [].
Proof. destruct l; [reflexivity|discriminate]. Qed.

Lemma at_operation_has_operations
    (i j : nat) (f : PathOperation -> PathOperation) (prev : SwaggerDocument) :
  has_operations prev -> has_operations (at_operation i j f prev).
Proof.
  unfold has_operations, at_operation. cbn [doc_paths with_paths].
  apply mapi_Forall. intros p k Hp.
  destruct (Nat.eqb k i); [|assumption].
  cbn [with_operations path_operations]. intros E.
  apply mapi_from_nil in E. contradiction.
Qed.

Lemma duplicatePath_paths
    (document : SwaggerDocument) (pathIndex operationIndex : nat)
    (d : SwaggerDocument) :
  duplicatePath document pathIndex operationIndex = Some d ->
  exists path operation,
    nth_error (doc_paths document) pathIndex = Some path
    /\ nth_error (path_operations path) operationIndex = Some operation
    /\ match find (fun m => negb (Js.includes (map op_method (path_operations path)) m))
               availableMethods with
       | None =>
           doc_paths d
           = (doc_paths document
              ++ [ {| path_path := path_path path ++ "_copy";
                      path_operations := [copied_operation operation] |} ])%list
       | Some nextMethod =>
           doc_paths d
           = Js.mapi
               (fun p i =>
                  if Nat.eqb i pathIndex then
                    {| path_path := path_path p;
                       path_operations :=
                         (path_operations p
                          ++ [cloned_operation operation nextMethod
                                (path_path path)])%list |}
                  else p)
               (doc_paths document)
       end.
Proof.
  unfold duplicatePath.
  destruct (nth_error (doc_paths document) pathIndex) as [path|]; [|discriminate].
  destruct (nth_error (path_operations path) operationIndex) as [operation|]
    eqn:E; [|discriminate].
  intros H. exists path, operation. split; [reflexivity|]. split; [exact E|].
  destruct (find _ availableMethods); injection H as <-; reflexivity.
Qed.

(** X6.  Every path keeps an operation: when each path of the document
    has at least one operation, the same holds after [addPath],
    [updatePath], [removePath], [addOperation], [duplicatePath] and the
    handlers of parameters, responses and request bodies; after
    [removeOperation] it holds whatever the document was. *)
Theorem handlers_keep_operations : forall prev : SwaggerDocument,
  has_operations prev ->
  has_operations (addPath prev)
  /\ (forall index field value,
        has_operations (updatePath index field value prev))
  /\ (forall index, has_operations (removePath index prev))
  /\ (forall pathIndex method,
        has_operations (addOperation pathIndex method prev))
  /\ (forall pathIndex operationIndex d,
        duplicatePath prev pathIndex operationIndex = Some d ->
        has_operations d)
  /\ (forall i j, has_operations (addParameter i j prev))
  /\ (forall i j k, has_operations (removeParameter i j k prev))
  /\ (forall i j, has_operations (addResponse i j prev))
  /\ (forall i j k, has_operations (removeResponse i j k prev))
  /\ (forall document i j,
        has_operations (addCommonErrorResponses document i j prev))
  /\ (forall i j, has_operations (addRequestBody i j prev))
  /\ (forall i j, has_operations (removeRequestBody i j prev))
  /\ (forall stale i j, has_operations (removeOperation i j stale)).
Proof.
  intros prev Hinv. unfold has_operations in *.
  repeat lazymatch goal with |- _ /\ _ => split end.
  - unfold addPath. cbn [doc_paths with_paths]. apply Forall_app. split;
      [assumption|]. repeat constructor. discriminate.
  - intros index field value. unfold updatePath. cbn [doc_paths with_paths].
    apply mapi_Forall; [|assumption]. intros p k Hp.
    destruct (negb (Nat.eqb k index)); [assumption|].
    destruct (field =? "path"); [|assumption].
    cbn [path_operations]. intros E. apply map_eq_nil in E. contradiction.
  - intros index. unfold removePath. cbn [doc_paths with_paths].
    rewrite filteri_remove. now apply Forall_remove.
  - intros pathIndex method. unfold addOperation. cbn [doc_paths with_paths].
    apply mapi_Forall; [|assumption]. intros p k Hp.
    destruct (negb (Nat.eqb k pathIndex)); [assumption|].
    destruct (existsb _ _); [assumption|].
    cbn [with_operations path_operations]. intros E.
    apply app_eq_nil in E as [_ E]. discriminate.
  - intros pathIndex operationIndex d H.
    apply duplicatePath_paths in H as (path & operation & _ & _ & H).
    destruct (find _ availableMethods).
    + rewrite H. apply mapi_Forall; [|assumption]. intros p k Hp.
      destruct (Nat.eqb k pathIndex); [|assumption].
      cbn [path_operations]. intros E.
      apply app_eq_nil in E as [_ E]. discriminate.
    + rewrite H. apply Forall_app. split; [assumption|].
      repeat constructor. discriminate.
  - intros. now apply at_operation_has_operations.
  - intros. now apply at_operation_has_operations.
  - intros. now apply at_operation_has_operations.
  - intros. now apply at_operation_has_operations.
  - intros. now apply at_operation_has_operations.
  - intros. now apply at_operation_has_operations.
  - intros. now apply at_operation_has_operations.
  - intros stale i j. unfold removeOperation. cbn [doc_paths with_paths].
    apply Forall_forall. intros p Hp. apply filter_In in Hp as [_ Hp].
    destruct (path_operations p); [discriminate|discriminate].
Qed.

Lemma handlers_keep_operations_witness :
  has_operations (addOperation 0 "post" (addPath initialDocument)).
Proof.
  refine (proj1 (proj2 (proj2 (proj2
            (handlers_keep_operations (addPath initialDocument) _)))) 0 "post").
  repeat constructor. discriminate.
Defined.

Lemma NoDup_snoc {A} (l : list A) (x : A) :
  NoDup l -> ~ In x l -> NoDup (l ++ [x]).
Proof.
  intros Hl Hx. apply NoDup_app; [assumption|repeat constructor; intros []|].
  intros a Ha [<-|[]]. contradiction.
Qed.

Lemma NoDup_map_remove {A B} (g : A -> B) (l : list A) (n : nat) :
  NoDup (map g l) -> NoDup (map g (firstn n l ++ skipn (S n) l)).
Proof.
  intros H. destruct (nth_error l n) as [x|] eqn:E.
  - rewrite (split_at l n x E), map_app in H. cbn [map] in H.
    apply NoDup_remove_1 in H. now rewrite map_app.
  - apply nth_error_None in E. now rewrite remove_out_of_range.
Qed.

Lemma at_operation_distinct_methods
    (i j : nat) (f : PathOperation -> PathOperation) (prev : SwaggerDocument) :
  (forall op, op_method (f op) = op_method op) ->
  distinct_methods prev -> distinct_methods (at_operation i j f prev).
Proof.
  intros Hf. unfold distinct_methods, at_operation. cbn [doc_paths with_paths].
  apply mapi_Forall. intros p k Hp.
  destruct (Nat.eqb k i); [|assumption].
  cbn [with_operations path_operations].
  assert (map op_method
            (Js.mapi (fun op j0 => if Nat.eqb j0 j then f op else op)
                     (path_operations p))
          = map op_method (path_operations p)) as ->; [|assumption].
  clear Hp. unfold Js.mapi. generalize 0.
  induction (path_operations p) as [|op ops IH]; intros n; simpl;
    [reflexivity|].
  rewrite IH. destruct (Nat.eqb n j); [now rewrite Hf|reflexivity].
Qed.

(** X7.  No path gets two operations of one method: when the methods of
    each path are pairwise different, they still are after [addPath],
    [updatePath], [removePath], [addOperation], [removeOperation],
    [duplicatePath] and the handlers of parameters, responses and request
    bodies. *)
Theorem handlers_keep_methods_distinct : forall prev : SwaggerDocument,
  distinct_methods prev ->
  distinct_methods (addPath prev)
  /\ (forall index field value,
        distinct_methods (updatePath index field value prev))
  /\ (forall index, distinct_methods (removePath index prev))
  /\ (forall pathIndex method,
        distinct_methods (addOperation pathIndex method prev))
  /\ (forall pathIndex operationIndex,
        distinct_methods (removeOperation pathIndex operationIndex prev))
  /\ (forall pathIndex operationIndex d,
        duplicatePath prev pathIndex operationIndex = Some d ->
        distinct_methods d)
  /\ (forall i j, distinct_methods (addParameter i j prev))
  /\ (forall i j k, distinct_methods (removeParameter i j k prev))
  /\ (forall i j, distinct_methods (addResponse i j prev))
  /\ (forall i j k, distinct_methods (removeResponse i j k prev))
  /\ (forall document i j,
        distinct_methods (addCommonErrorResponses document i j prev))
  /\ (forall i j, distinct_methods (addRequestBody i j prev))
  /\ (forall i j, distinct_methods (removeRequestBody i j prev)).
Proof.
  intros prev Hinv. unfold distinct_methods in *.
  repeat lazymatch goal with |- _ /\ _ => split end.
  - unfold addPath. cbn [doc_paths with_paths]. apply Forall_app. split;
      [assumption|]. repeat constructor. intros [].
  - intros index field value. unfold updatePath. cbn [doc_paths with_paths].
    apply mapi_Forall; [|assumption]. intros p k Hp.
    destruct (negb (Nat.eqb k index)); [assumption|].
    destruct (field =? "path"); [|assumption].
    cbn [path_operations]. rewrite map_map. exact Hp.
  - intros index. unfold removePath. cbn [doc_paths with_paths].
    rewrite filteri_remove. now apply Forall_remove.
  - intros pathIndex method. unfold addOperation. cbn [doc_paths with_paths].
    apply mapi_Forall; [|assumption]. intros p k Hp.
    destruct (negb (Nat.eqb k pathIndex)); [assumption|].
    destruct (existsb _ _) eqn:E; [assumption|].
    cbn [with_operations path_operations]. rewrite map_app. cbn [map op_method].
    apply NoDup_snoc; [assumption|]. intros Hin.
    apply in_map_iff in Hin as [op [Hop Hin]].
    assert (existsb (fun op => op_method op =? method) (path_operations p) = true);
      [|congruence].
    apply existsb_exists. exists op. split; [assumption|].
    now apply String.eqb_eq.
  - intros pathIndex operationIndex. rewrite removeOperation_paths.
    apply Forall_forall. intros p Hp. apply filter_In in Hp as [Hp _].
    rewrite Forall_forall in Hinv.
    apply in_app_or in Hp as [Hp|Hp].
    + apply Hinv. rewrite <- (firstn_skipn pathIndex (doc_paths prev)).
      apply in_or_app. now left.
    + apply in_app_or in Hp as [Hp|Hp].
      * destruct (nth_error (doc_paths prev) pathIndex) as [q|] eqn:E;
          [|destruct Hp].
        destruct Hp as [<-|[]]. cbn [with_operations path_operations].
        apply NoDup_map_remove. apply Hinv. eapply nth_error_In. exact E.
      * apply Hinv. rewrite <- (firstn_skipn (S pathIndex) (doc_paths prev)).
        apply in_or_app. now right.
  - intros pathIndex operationIndex d H.
    apply duplicatePath_paths in H as (path & operation & Hpath & _ & H).
    destruct (find _ availableMethods) as [nextMethod|] eqn:F.
    + rewrite H. unfold Js.mapi.
      apply Forall_forall. intros q Hq.
      apply In_nth_error in Hq as [k Hk]. rewrite mapi_from_nth in Hk.
      destruct (nth_error (doc_paths prev) k) as [p|] eqn:Ek; [|discriminate].
      injection Hk as <-. cbn [Nat.add].
      rewrite Forall_forall in Hinv.
      destruct (Nat.eqb_spec k pathIndex) as [->|Hne].
      * cbn [path_operations]. rewrite map_app. cbn [map cloned_operation op_method].
        assert (p = path) as -> by congruence.
        apply NoDup_snoc; [apply Hinv; eapply nth_error_In; exact Hpath|].
        apply find_some in F as [_ F]. apply negb_true_iff in F.
        intros Hin. apply includes_In in Hin. congruence.
      * apply Hinv. eapply nth_error_In. exact Ek.
    + rewrite H. apply Forall_app. split; [assumption|].
      repeat constructor. intros [].
  - intros. now apply at_operation_distinct_methods.
  - intros. now apply at_operation_distinct_methods.
  - intros. now apply at_operation_distinct_methods.
  - intros. now apply at_operation_distinct_methods.
  - intros. now apply at_operation_distinct_methods.
  - intros. now apply at_operation_distinct_methods.
  - intros. now apply at_operation_distinct_methods.
Qed.

Lemma handlers_keep_methods_distinct_witness :
  distinct_methods (addOperation 0 "get" (addPath initialDocument)).
Proof.
  refine (proj1 (proj2 (proj2 (proj2
            (handlers_keep_methods_distinct (addPath initialDocument) _))))
            0 "get").
  repeat constructor. intros [].
Defined.

Lemma mapi_from_id {A} (f : A -> nat -> A) (l : list A) (k : nat) :
  (forall x i, f x i = x) -> Js.mapi_from k f l = l.
Proof.
  intros H. revert k. induction l as [|x r IH]; intros k; simpl; [reflexivity|].
  now rewrite H, IH.
Qed.

Lemma updatePath_paths (index : nat) (value : string) (prev : SwaggerDocument) :
  doc_paths (updatePath index "path" value prev)
  = Js.mapi
      (fun path i =>
         if Nat.eqb i index then
           {| path_path := value;
              path_operations :=
                map (fun op =>
                       with_parameters op
                         (syncPathParameters (op_parameters op) value))
                    (path_operations path) |}
         else path)
      (doc_paths prev).
Proof.
  unfold updatePath. cbn [doc_paths with_paths]. apply mapi_from_ext.
  intros x i. now destruct (Nat.eqb i index).
Qed.

(** X8.  [updatePath] with the field [path] renames the path at the
    index and synchronises every operation of it: afterwards the
    path-location parameters of each operation are named after the
    placeholders of the new template, in their order, while the methods
    and the non-path parameters are as before.  The other paths are not
    touched, and another field name leaves the whole document as it
    is. *)
Theorem updatePath_spec :
  forall (index : nat) (value : string) (prev : SwaggerDocument),
    (forall field, field <> "path" ->
       updatePath index field value prev = prev)
    /\ (forall k, k <> index ->
          nth_error (doc_paths (updatePath index "path" value prev)) k
          = nth_error (doc_paths prev) k)
    /\ (forall p, nth_error (doc_paths prev) index = Some p ->
          exists p',
            nth_error (doc_paths (updatePath index "path" value prev)) index
            = Some p'
            /\ path_path p' = value
            /\ map op_method (path_operations p')
               = map op_method (path_operations p)
            /\ Forall (fun op =>
                         path_parameter_names op = extractPathParameters value)
                      (path_operations p')
            /\ map (fun op =>
                      filter (fun q => negb (pp_in q =? "path"))
                             (op_parameters op))
                   (path_operations p')
               = map (fun op =>
                        filter (fun q => negb (pp_in q =? "path"))
                               (op_parameters op))
                     (path_operations p)).
Proof.
  intros index value prev. split; [|split].
  - intros field Hf. unfold updatePath.
    apply String.eqb_neq in Hf. rewrite Hf.
    unfold Js.mapi. rewrite mapi_from_id; [apply with_paths_same|].
    intros x i. now destruct (negb (Nat.eqb i index)).
  - intros k Hk. rewrite updatePath_paths, nth_error_update.
    apply Nat.eqb_neq in Hk. rewrite Hk.
    now destruct (nth_error (doc_paths prev) k).
  - intros p Hp. rewrite updatePath_paths, nth_error_update, Hp.
    rewrite Nat.eqb_refl. cbn [option_map].
    eexists. split; [reflexivity|]. cbn [path_path path_operations].
    split; [reflexivity|]. split; [|split].
    + now rewrite map_map.
    + apply Forall_forall. intros op Hop.
      apply in_map_iff in Hop as [op0 [<- _]].
      unfold path_parameter_names. cbn [with_parameters op_parameters].
      apply path_names_synced.
    + rewrite map_map. apply map_ext. intros op.
      cbn [with_parameters op_parameters].
      rewrite syncPathParameters_eq, filter_app, filter_path_parameter_for.
      apply filter_idem.
Qed.

Lemma updatePath_spec_witness :
  exists p',
    nth_error
      (doc_paths (updatePath 0 "path" "/users/{id}" (addPath initialDocument)))
      0 = Some p'
    /\ path_path p' = "/users/{id}"
    /\ Forall (fun op => path_parameter_names op = ["id"]) (path_operations p').
Proof.
  destruct (updatePath_spec 0 "/users/{id}" (addPath initialDocument))
    as (_ & _ & H).
  destruct (H _ eq_refl) as (p' & H1 & H2 & _ & H4 & _).
  exists p'. repeat split; assumption.
Defined.





(** ** Reordering *)

Lemma nth_error_length_app {A} (a b : list A) (x : A) :
  nth_error (a ++ x :: b) (length a) = Some x.
Proof. induction a; simpl; [reflexivity|assumption]. Qed.

Lemma without_length_app {A} (a b : list A) (x : A) :
  without (length a) (a ++ x :: b) = (a ++ b)%list.
Proof.
  unfold without. rewrite firstn_app, firstn_all, Nat.sub_diag. cbn [firstn].
  rewrite app_nil_r. f_equal.
  induction a; simpl; [reflexivity|assumption].
Qed.

Lemma splice_move_moved {A} (xs : list A) (startIndex endIndex : nat) (x : A) :
  nth_error xs startIndex = Some x ->
  exists result,
    splice_move xs startIndex endIndex = Some result
    /\ moved xs startIndex endIndex x result.
Proof.
  intros Hx. unfold splice_move. rewrite Hx. eexists. split; [reflexivity|].
  set (rest := (firstn startIndex xs ++ skipn (S startIndex) xs)%list).
  assert (Hlen : length rest = length xs - 1).
  { assert (startIndex < length xs) by (apply nth_error_Some; congruence).
    pose proof (remove_in_range xs startIndex H). subst rest. lia. }
  assert (Hpos : Nat.min endIndex (length xs - 1)
                 = length (firstn endIndex rest)).
  { rewrite length_firstn, Hlen. reflexivity. }
  unfold moved. cbv zeta. rewrite Hpos. split; [|split].
  - rewrite (split_at xs startIndex x Hx) at 1.
    etransitivity; [symmetry; apply Permutation_middle|].
    etransitivity; [|apply Permutation_middle].
    constructor. fold rest. now rewrite firstn_skipn.
  - apply nth_error_length_app.
  - rewrite without_length_app, firstn_skipn. reflexivity.
Qed.

Lemma splice_move_none {A} (xs : list A) (startIndex endIndex : nat) :
  length xs <= startIndex -> splice_move xs startIndex endIndex = None.
Proof.
  intros H. unfold splice_move.
  now assert (nth_error xs startIndex = None) as -> by now apply nth_error_None.
Qed.

(** X10.  [reorderTags], [reorderPaths] and [reorderSchemas] move one
    entry: when the first index names an entry, the new list is a
    permutation of the old one with that entry at the second index (at
    the end when the index lies past it) and the other entries in their
    old order.  The tags are taken from the state, the paths and the
    schemas from the rendered document.  When the first index names no
    entry, the new list holds an entry that is no element. *)
Theorem reorder_handlers_spec :
  forall (document prev : SwaggerDocument) (startIndex endIndex : nat),
    (forall tag, nth_error (doc_tags prev) startIndex = Some tag ->
       exists result,
         reorderTags startIndex endIndex prev = Some (with_tags prev result)
         /\ moved (doc_tags prev) startIndex endIndex tag result)
    /\ (forall path, nth_error (doc_paths document) startIndex = Some path ->
          exists result,
            reorderPaths document startIndex endIndex prev
            = Some (with_paths prev result)
            /\ moved (doc_paths document) startIndex endIndex path result)
    /\ (forall schema, nth_error (doc_schemas document) startIndex = Some schema ->
          exists result,
            reorderSchemas document startIndex endIndex prev
            = Some (with_schemas prev result)
            /\ moved (doc_schemas document) startIndex endIndex schema result)
    /\ (length (doc_tags prev) <= startIndex ->
        reorderTags startIndex endIndex prev = None)
    /\ (length (doc_paths document) <= startIndex ->
        reorderPaths document startIndex endIndex prev = None)
    /\ (length (doc_schemas document) <= startIndex ->
        reorderSchemas document startIndex endIndex prev = None).
Proof.
  intros document prev s e.
  unfold reorderTags, reorderPaths, reorderSchemas.
  repeat lazymatch goal with |- _ /\ _ => split end.
  - intros x Hx.
    destruct (splice_move_moved _ s e x Hx) as (r & -> & Hr). now exists r.
  - intros x Hx.
    destruct (splice_move_moved _ s e x Hx) as (r & -> & Hr). now exists r.
  - intros x Hx.
    destruct (splice_move_moved _ s e x Hx) as (r & -> & Hr). now exists r.
  - intros H. now rewrite splice_move_none.
  - intros H. now rewrite splice_move_none.
  - intros H. now rewrite splice_move_none.
Qed.

Lemma reorder_handlers_spec_witness :
  exists result,
    reorderTags 0 5 (addTag (addTag initialDocument))
    = Some (with_tags (addTag (addTag initialDocument)) result)
    /\ moved (doc_tags (addTag (addTag initialDocument))) 0 5
         {| tag_name := ""; tag_description := "" |} result.
Proof.
  exact (proj1 (reorder_handlers_spec initialDocument
                  (addTag (addTag initialDocument)) 0 5) _ eq_refl).
Defined.

(** ** The handlers of one operation *)

Lemma operation_at_at_operation
    (i j : nat) (f : PathOperation -> PathOperation) (prev : SwaggerDocument)
    (a b : nat) :
  operation_at (at_operation i j f prev) a b
  = option_map (fun op => if Nat.eqb a i && Nat.eqb b j then f op else op)
               (operation_at prev a b).
Proof.
  unfold operation_at, at_operation. cbn [doc_paths with_paths].
  rewrite (nth_error_update
             (fun path =>
                with_operations path
                  (Js.mapi (fun op j0 => if Nat.eqb j0 j then f op else op)
                           (path_operations path)))).
  destruct (nth_error (doc_paths prev) a) as [p|]; [|reflexivity].
  cbn [option_map]. destruct (Nat.eqb a i); [|now destruct (nth_error _ b)].
  cbn [with_operations path_operations]. rewrite nth_error_update.
  reflexivity.
Qed.

Lemma mapi_from_map_inv {A B} (h : A -> B) (f : A -> nat -> A)
    (l : list A) (k : nat) :
  (forall x i, h (f x i) = h x) ->
  map h (Js.mapi_from k f l) = map h l.
Proof.
  intros H. revert k. induction l as [|x r IH]; intros k; simpl; [reflexivity|].
  now rewrite H, IH.
Qed.

Lemma at_operation_path_names
    (i j : nat) (f : PathOperation -> PathOperation) (prev : SwaggerDocument) :
  map path_path (doc_paths (at_operation i j f prev))
  = map path_path (doc_paths prev).
Proof.
  unfold at_operation. cbn [doc_paths with_paths].
  apply mapi_from_map_inv. intros p n. now destruct (Nat.eqb n i).
Qed.

(** X11.  The handlers of parameters, responses and request bodies
    change one operation only: the operation at [operationIndex] of the
    path at [pathIndex] gets a parameter or a response appended, the
    entry at the given index deleted, or its request body set or
    cleared; every other operation is as before, and so are the
    templates of all paths. *)
Theorem operation_handlers_spec :
  forall (i j k : nat) (prev : SwaggerDocument) (a b : nat),
    let changed (g : PathOperation -> PathOperation) doc :=
      operation_at doc a b
      = option_map (fun op => if Nat.eqb a i && Nat.eqb b j then g op else op)
                   (operation_at prev a b)
      /\ map path_path (doc_paths doc) = map path_path (doc_paths prev) in
    changed (fun op =>
               with_parameters op
                 (op_parameters op
                  ++ [ {| pp_name := ""; pp_in := "path"; pp_description := "";
                          pp_required := true; pp_type := "string";
                          pp_format := None; pp_enum := None;
                          pp_example := None; pp_default := None;
                          pp_deprecated := None |} ])%list)
            (addParameter i j prev)
    /\ changed (fun op => with_parameters op (without k (op_parameters op)))
               (removeParameter i j k prev)
    /\ changed (fun op =>
                  with_responses op
                    (op_responses op
                     ++ [ {| resp_statusCode := "200"; resp_description := "";
                             resp_schemaRef := ""; resp_contentType := None;
                             resp_headers := None |} ])%list)
               (addResponse i j prev)
    /\ changed (fun op => with_responses op (without k (op_responses op)))
               (removeResponse i j k prev)
    /\ changed (fun op =>
                  with_requestBody op
                    (Some {| body_description := ""; body_required := true;
                             body_schemaRef := "";
                             body_contentType := "application/json" |}))
               (addRequestBody i j prev)
    /\ changed (fun op => with_requestBody op None)
               (removeRequestBody i j prev).
Proof.
  intros i j k prev a b changed. subst changed. cbv beta.
  unfold addParameter, removeParameter, addResponse, removeResponse,
    addRequestBody, removeRequestBody, without.
  rewrite !operation_at_at_operation, !at_operation_path_names.
  repeat split.
  - destruct (operation_at prev a b); [|reflexivity]. cbn [option_map].
    now rewrite filteri_remove.
  - destruct (operation_at prev a b); [|reflexivity]. cbn [option_map].
    now rewrite filteri_remove.
Qed.

Lemma find_error_schema (schemas : list SwaggerSchema) :
  (exists s, find (fun s => schema_name s =? "Error") schemas = Some s)
  <-> In "Error" (map schema_name schemas).
Proof.
  split.
  - intros [s H]. apply find_some in H as [H1 H2].
    apply String.eqb_eq in H2. rewrite <- H2. now apply in_map.
  - intros H. apply in_map_iff in H as [s [H1 H2]].
    destruct (find (fun s => schema_name s =? "Error") schemas) as [t|] eqn:F;
      [now exists t|].
    eapply find_none in F; [|exact H2]. cbv beta in F.
    rewrite H1 in F. discriminate.
Qed.

(** X12.  [addCommonErrorResponses] appends five responses to the
    addressed operation and changes no other operation.  Their status
    codes are the error codes 400, 401, 403, 404 and 500, in that order;
    each of them refers to the schema [Error] when the rendered document
    has a schema of that name, and to no schema otherwise, so that no
    reference to a missing schema is created. *)
Theorem addCommonErrorResponses_spec :
  forall (document prev : SwaggerDocument) (pathIndex operationIndex : nat),
  exists added : list PathResponse,
    (forall a b,
       operation_at
         (addCommonErrorResponses document pathIndex operationIndex prev) a b
       = option_map
           (fun op =>
              if Nat.eqb a pathIndex && Nat.eqb b operationIndex
              then with_responses op (op_responses op ++ added)%list
              else op)
           (operation_at prev a b))
    /\ map resp_statusCode added = ERROR_STATUS_CODES
    /\ Forall (fun r =>
                 resp_schemaRef r
                 = if Js.includes (map schema_name (doc_schemas document))
                                  "Error"
                   then "Error" else "")
              added.
Proof.
  intros document prev i j. unfold addCommonErrorResponses.
  eexists. split; [|split].
  - intros a b. apply operation_at_at_operation.
  - reflexivity.
  - assert (E : match find (fun s => schema_name s =? "Error")
                           (doc_schemas document) with
                | Some _ => "Error"
                | None => ""
                end
                = if Js.includes (map schema_name (doc_schemas document))
                                 "Error"
                  then "Error" else "").
    { destruct (Js.includes _ "Error") eqn:I.
      - apply includes_In, find_error_schema in I as [s ->]. reflexivity.
      - destruct (find _ (doc_schemas document)) as [s|] eqn:F; [|reflexivity].
        assert (Js.includes (map schema_name (doc_schemas document)) "Error"
                = true); [|congruence].
        apply includes_In, find_error_schema. now exists s. }
    rewrite E. repeat constructor.
Qed.








(** ** The serialiser, further *)

Lemma all_with_operations_none (paths : list StoredPath) :
  all_with_operations (map ensure_operations_path paths) = None
  <-> exists l, In (Flat l) paths /\ truthy_opt (legacy_method l) = false.
Proof.
  induction paths as [|p r IH].
  - simpl. split; [discriminate|]. intros [l [[] _]].
  - assert (Hcons : forall q,
      ensure_operations_path p = WithOperations q ->
      (forall l, p = Flat l -> truthy_opt (legacy_method l) = true) ->
      all_with_operations (map ensure_operations_path (p :: r)) = None
      <-> exists l, In (Flat l) (p :: r)
                    /\ truthy_opt (legacy_method l) = false).
    { intros q Hq Hflat. cbn [map]. rewrite Hq. cbn [all_with_operations].
      destruct (all_with_operations (map ensure_operations_path r)) as [ps|];
        cbn [bind].
      - split; [discriminate|]. intros [l [[H|H] Hl]].
        + rewrite (Hflat l H) in Hl. discriminate.
        + destruct IH as [_ IH].
          assert (Some ps = None) by (apply IH; now exists l). discriminate.
      - split; [|reflexivity]. intros _.
        destruct IH as [IH _]. destruct (IH eq_refl) as [l [H Hl]].
        exists l. split; [now right|assumption]. }
    destruct p as [q|l].
    + apply (Hcons q); [reflexivity|discriminate].
    + destruct (truthy_opt (legacy_method l)) eqn:T.
      * eapply Hcons.
        -- cbn [ensure_operations_path]. rewrite T. reflexivity.
        -- intros l' [= <-]. exact T.
      * cbn [map ensure_operations_path]. rewrite T.
        cbn [all_with_operations]. split; [|reflexivity]. intros _.
        exists l. split; [now left|assumption].
Qed.

(** X15.  [buildYamlDocument] fails with a TypeError exactly on a
    document that holds a path in the flat shape without a method, the
    one kind of path its migration leaves without an operations array;
    on every other document it returns a text.  Running the migration of
    the hook first makes no difference to the outcome. *)
Theorem buildYamlDocument_failure : forall doc : StoredDocument,
  (buildYamlDocument doc = None
   <-> exists l, In (Flat l) (doc_paths doc)
                 /\ truthy_opt (legacy_method l) = false)
  /\ buildYamlDocument (migrateDocument doc) = buildYamlDocument doc.
Proof.
  intros doc. split.
  - unfold buildYamlDocument, ensureOperationsFormat.
    cbn [doc_paths with_paths].
    rewrite <- all_with_operations_none.
    destruct (all_with_operations (map ensure_operations_path (doc_paths doc)));
      cbn [bind]; split; congruence.
  - unfold buildYamlDocument, ensureOperationsFormat, migrateDocument.
    cbn [doc_paths with_paths].
    assert (map ensure_operations_path (map migrate_path (doc_paths doc))
            = map ensure_operations_path (doc_paths doc)) as ->.
    { rewrite map_map. apply map_ext. intros p.
      rewrite <- ensure_operations_path_migrate.
      apply ensure_operations_path_idempotent. }
    destruct (all_with_operations (map ensure_operations_path (doc_paths doc)));
      reflexivity.
Qed.

(** *** Enumerations *)

Lemma trimStart_head (s : string) :
  trimStart s = ""
  \/ exists c r, trimStart s = String c r /\ is_space c = false.
Proof.
  induction s as [|c r IH]; [now left|]. cbn [trimStart].
  destruct (is_space c) eqn:E; [exact IH|]. right. now exists c, r.
Qed.

Lemma trimEnd_head (c : ascii) (r : string) :
  is_space c = false -> exists t, trimEnd (String c r) = String c t.
Proof.
  intros H. cbn [trimEnd]. rewrite H.
  destruct (trimEnd r) as [|d t]; eexists; reflexivity.
Qed.

Lemma trimEnd_idem (s : string) : trimEnd (trimEnd s) = trimEnd s.
Proof.
  induction s as [|c r IH]; [reflexivity|]. cbn [trimEnd].
  destruct (trimEnd r) as [|d t] eqn:E.
  - destruct (is_space c) eqn:S; [reflexivity|].
    cbn [trimEnd]. now rewrite S.
  - change (trimEnd (String c (String d t)))
      with (match trimEnd (String d t) with
            | "" => if is_space c then "" else String c ""
            | String a t0 => String c (String a t0)
            end).
    now rewrite IH.
Qed.

Lemma trimStart_trim (s : string) : trimStart (trim s) = trim s.
Proof.
  unfold trim. destruct (trimStart_head s) as [->|[c [r [-> H]]]];
    [reflexivity|].
  destruct (trimEnd_head c r H) as [t ->]. cbn [trimStart]. now rewrite H.
Qed.

Lemma trim_idem (s : string) : trim (trim s) = trim s.
Proof.
  unfold trim at 1. rewrite trimStart_trim. unfold trim.
  apply trimEnd_idem.
Qed.

Lemma includes_char_trimStart (c : ascii) (s : string) :
  Js.includes_char c s = false -> Js.includes_char c (trimStart s) = false.
Proof.
  induction s as [|d r IH]; [reflexivity|]. intros H.
  cbn [trimStart]. destruct (is_space d); [|assumption].
  simpl in H. apply orb_false_iff in H as [_ H]. now apply IH.
Qed.

Lemma includes_char_trimEnd (c : ascii) (s : string) :
  Js.includes_char c s = false -> Js.includes_char c (trimEnd s) = false.
Proof.
  induction s as [|d r IH]; [reflexivity|]. intros H.
  simpl in H. apply orb_false_iff in H as [H1 H2]. specialize (IH H2).
  cbn [trimEnd]. destruct (trimEnd r) as [|e t].
  - destruct (is_space d); [reflexivity|]. simpl. now rewrite H1.
  - cbn [Js.includes_char] in *. now rewrite H1, IH.
Qed.

Lemma includes_char_trim (c : ascii) (s : string) :
  Js.includes_char c s = false -> Js.includes_char c (trim s) = false.
Proof.
  intros H. unfold trim. now apply includes_char_trimEnd, includes_char_trimStart.
Qed.

Lemma split_joined (pre t : string) (ts : list string) :
  Js.includes_char "," pre = false ->
  Forall (fun v => Js.includes_char "," v = false) (t :: ts) ->
  Js.split "," (pre ++ Js.join ", " (t :: ts))
  = (pre ++ t) :: map (fun v => " " ++ v) ts.
Proof.
  revert pre t. induction ts as [|u r IH]; intros pre t Hpre HF.
  - inversion HF; subst. cbn [Js.join String.concat map].
    apply split_whole. rewrite includes_char_app. now rewrite Hpre, H1.
  - inversion HF as [|? ? Ht HF']; subst.
    change (Js.join ", " (t :: u :: r))
      with (t ++ String "," (" " ++ Js.join ", " (u :: r))).
    rewrite <- append_assoc.
    rewrite split_app_sep by (rewrite includes_char_app; now rewrite Hpre, Ht).
    rewrite (IH " " u); [reflexivity|reflexivity|assumption].
Qed.

(** X16.  The enumeration text round trip: the values that
    [enum_array] returns are trimmed, non-empty and free of commas, and
    a list of such values joined with a comma and a space, the form in
    which the importer stores an enumeration, is split by [enum_array]
    into the same values again. *)
Theorem enum_array_join :
  (forall raw,
     Forall (fun v => trim v = v /\ v <> ""
                      /\ Js.includes_char "," v = false)
            (enum_array raw))
  /\ (forall values,
        Forall (fun v => trim v = v /\ v <> ""
                         /\ Js.includes_char "," v = false) values ->
        enum_array (Js.join ", " values) = values).
Proof.
  split.
  - intros raw. unfold enum_array. apply Forall_forall. intros v Hv.
    apply filter_In in Hv as [Hv Hne].
    apply in_map_iff in Hv as [w [<- Hw]].
    split; [apply trim_idem|]. split.
    + apply negb_true_iff, String.eqb_neq in Hne. exact Hne.
    + apply includes_char_trim.
      pose proof (split_no_sep "," raw) as HF.
      rewrite Forall_forall in HF. now apply HF.
  - intros values HF. unfold enum_array.
    destruct values as [|t ts]; [reflexivity|].
    change (Js.join ", " (t :: ts)) with ("" ++ Js.join ", " (t :: ts)).
    rewrite (split_joined "" t ts); [|reflexivity|].
    + cbn [append map filter].
      inversion HF as [|? ? [Ht1 [Ht2 _]] HF']; subst.
      rewrite Ht1. apply String.eqb_neq in Ht2. rewrite Ht2. cbn [negb].
      f_equal. clear -HF'. induction HF' as [|u r [Hu1 [Hu2 _]] _ IH];
        [reflexivity|].
      cbn [map filter]. change (trim (String " " u)) with (trim u).
      rewrite Hu1.
      apply String.eqb_neq in Hu2. rewrite Hu2. cbn [negb]. now rewrite IH.
    + apply Forall_forall. intros v Hv. rewrite Forall_forall in HF.
      now apply HF.
Qed.

Lemma enum_array_join_witness :
  enum_array (Js.join ", " ["available"; "sold out"]) = ["available"; "sold out"].
Proof.
  apply (proj2 enum_array_join).
  repeat constructor; discriminate.
Defined.

(** ** The validator, further *)

Lemma substring_prefix (n rest : string) :
  String.substring 0 (String.length n) (n ++ rest) = n.
Proof.
  induction n as [|c r IH]; simpl.
  - now destruct rest.
  - now rewrite IH.
Qed.

Lemma slice_inner_braced (n : string) : slice_inner ("{" ++ n ++ "}") = n.
Proof.
  cbn [append slice_inner]. rewrite string_length_app. cbn [String.length].
  replace (String.length n + 1 - 1) with (String.length n) by lia.
  apply substring_prefix.
Qed.

Lemma some_path_parameter_existsb (parameters : list json) (paramName : string) :
  Forall (fun p => p <> JNull) parameters ->
  some_path_parameter parameters paramName
  = Some (existsb (fun p =>
                     Json.is_string paramName (Json.get "name" p)
                     && Json.is_string "path" (Json.get "in" p))
                  parameters).
Proof.
  induction 1 as [|p r Hp _ IH]; [reflexivity|].
  cbn [some_path_parameter existsb].
  destruct (Json.is_string paramName (Json.get "name" p)
            && Json.is_string "path" (Json.get "in" p)) eqn:E.
  - destruct p; [congruence|reflexivity..].
  - rewrite IH. destruct p; [congruence|reflexivity..].
Qed.

(** X17.  The check of the path parameters of an operation, when its
    [parameters] field is missing, falsy or an array without [null]
    entries: it reports one error for each placeholder of the path key
    that no entry declares with that name and [in: path], in the order
    of the placeholders, and nothing else.  So an operation without
    parameters gets one error for each placeholder, and one that
    declares them all gets none. *)
Theorem check_path_parameters_spec :
  forall (yamlContent pathKey op : string) (operation : json)
         (parameters : list json) (names : list string),
    parameters_or_empty operation = Some parameters ->
    Forall (fun p => p <> JNull) parameters ->
    check_path_parameters yamlContent pathKey op operation
      (map (fun n => "{" ++ n ++ "}") names)
    = Some
        (map (fun paramName =>
                {| ve_path := "paths." ++ pathKey ++ "." ++ op ++ ".parameters";
                   ve_message :=
                     "Path parameter " ++ dq ++ paramName ++ dq
                     ++ " is used in path but not defined in parameters";
                   ve_severity := error;
                   ve_line :=
                     findLineNumber yamlContent
                       (Some ["paths"; pathKey; op; "parameters"]) |})
             (filter
                (fun paramName =>
                   negb (existsb
                           (fun p =>
                              Json.is_string paramName (Json.get "name" p)
                              && Json.is_string "path" (Json.get "in" p))
                           parameters))
                names)).
Proof.
  intros yaml pathKey op operation parameters names Hps Hnull.
  induction names as [|n r IH]; [reflexivity|].
  cbn [map check_path_parameters filter].
  rewrite Hps. cbn [bind]. rewrite slice_inner_braced.
  rewrite some_path_parameter_existsb by assumption. cbn [bind].
  rewrite IH. cbn [bind].
  destruct (existsb _ parameters); reflexivity.
Qed.

Lemma check_path_parameters_spec_witness :
  check_path_parameters "" "/items/{id}" "get"
    (JObj [("operationId", JStr "getItem")]) ["{id}"]
  = Some
      [ {| ve_path := "paths./items/{id}.get.parameters";
           ve_message :=
             "Path parameter " ++ dq ++ "id" ++ dq
             ++ " is used in path but not defined in parameters";
           ve_severity := error;
           ve_line := None |} ].
Proof.
  apply (check_path_parameters_spec "" "/items/{id}" "get"
           (JObj [("operationId", JStr "getItem")]) [] ["id"]).
  - reflexivity.
  - constructor.
Defined.

(** X18.  Path keys without a placeholder are checked for their
    leading slash only: when no key of the [paths] object has a
    placeholder, [validatePaths] does not throw and reports one error
    for each key that does not start with a slash, in the order of the
    keys, and nothing about any operation, whatever the path items hold
    (operations without operationId or without responses included). *)
Theorem validatePaths_without_placeholders :
  forall (paths : json) (yamlContent : string),
    Forall (fun entry => extractPathParameters (fst entry) = [])
           (Json.entries paths) ->
    validatePaths paths yamlContent
    = Some
        (map (fun entry =>
                {| ve_path := "paths." ++ fst entry;
                   ve_message :=
                     "Path " ++ dq ++ fst entry ++ dq
                     ++ " must start with a forward slash (/)";
                   ve_severity := error;
                   ve_line :=
                     findLineNumber yamlContent (Some ["paths"; fst entry]) |})
             (filter (fun entry => negb (Js.startsWith (fst entry) "/"))
                     (Json.entries paths))).
Proof.
  intros paths yaml. unfold validatePaths.
  induction (Json.entries paths) as [|[k v] r IH]; intros HF; [reflexivity|].
  inversion HF as [|? ? Hk Hr]; subst. cbn [fst] in Hk.
  cbn [validate_path_entries]. rewrite (IH Hr).
  unfold validate_path_entry, match_placeholders. rewrite Hk.
  cbn [bind filter map fst].
  destruct (Js.startsWith k "/"); reflexivity.
Qed.

Lemma validatePaths_without_placeholders_witness :
  validatePaths (JObj [("/users", JObj [("get", JObj [])])]) "" = Some [].
Proof.
  apply (validatePaths_without_placeholders
           (JObj [("/users", JObj [("get", JObj [])])]) "").
  repeat constructor.
Defined.

Lemma validate_operations_throws
    (yamlContent pathKey : string) (pathItem operation : json)
    (pathParams ops : list string) (op : string) :
  In op ops ->
  Json.get op pathItem = Some operation ->
  Json.truthy operation = true ->
  validate_operation yamlContent pathKey op operation pathParams = None ->
  validate_operations yamlContent pathKey pathItem pathParams ops = None.
Proof.
  intros Hin Hget Htruthy Hnone.
  induction ops as [|o r IH]; [destruct Hin|].
  cbn [validate_operations].
  destruct Hin as [->|Hin].
  - now rewrite Hget, Htruthy, Hnone.
  - rewrite (IH Hin).
    destruct (match Json.get o pathItem with
              | Some operation0 =>
                  if Json.truthy operation0
                  then validate_operation yamlContent pathKey o operation0 pathParams
                  else Some []
              | None => Some []
              end); reflexivity.
Qed.

Lemma validate_path_entries_throws
    (yamlContent pathKey : string) (pathItem : json)
    (entries : list (string * json)) :
  In (pathKey, pathItem) entries ->
  validate_path_entry yamlContent pathKey pathItem = None ->
  validate_path_entries yamlContent entries = None.
Proof.
  intros Hin Hnone. induction entries as [|[k v] r IH]; [destruct Hin|].
  cbn [validate_path_entries]. destruct Hin as [[= -> ->]|Hin].
  - now rewrite Hnone.
  - rewrite (IH Hin).
    destruct (validate_path_entry yamlContent k v); reflexivity.
Qed.

(** X19.  A [parameters] field that is truthy without being an array,
    on an operation of a path with a placeholder, makes the structural
    pass throw: the promise of [validateOpenApiSpec] is rejected, no
    diagnostic of the document is returned, and [runValidation] shows
    the text of the thrown error as the single error of the document. *)
Theorem validateOpenApiSpec_rejected :
  forall (yaml_parse : string -> parse_result json)
         (openApiValidate : json -> external_outcome) (error_text : string)
         (yamlContent : string) (fields : list (string * json)) (paths : json)
         (pathKey op : string) (pathItem operation value : json),
    yaml_parse yamlContent = Parsed (JObj fields) ->
    Js.assoc fields "paths" = Some paths ->
    Json.truthy paths = true ->
    In (pathKey, pathItem) (Json.entries paths) ->
    extractPathParameters pathKey <> [] ->
    Json.is_object pathItem = true ->
    In op validator_operations ->
    Json.get op pathItem = Some operation ->
    Json.truthy operation = true ->
    Json.get "parameters" operation = Some value ->
    Json.truthy value = true ->
    (forall items, value <> JArr items) ->
    validateOpenApiSpec yaml_parse openApiValidate yamlContent = None
    /\ runValidation yaml_parse openApiValidate error_text yamlContent
       = {| vr_isValid := false;
            vr_errors :=
              [ {| ve_path := "document"; ve_message := error_text;
                   ve_severity := error; ve_line := None |} ];
            vr_warnings := [] |}.
Proof.
  intros yaml_parse openApiValidate error_text yaml fields paths pathKey op
    pathItem operation value Hparse Hpaths Htp Hin Hph Hobj Hop Hget Hto
    Hparams Htv Harr.
  assert (Hnone : validateOpenApiSpec yaml_parse openApiValidate yaml = None).
  { unfold validateOpenApiSpec. rewrite Hparse.
    cbn [Json.truthy Json.is_object negb orb].
    unfold performStructuralValidation, check_paths.
    cbn [Json.get]. rewrite Hpaths, Htp. unfold validatePaths.
    rewrite (validate_path_entries_throws yaml pathKey pathItem); 
      [reflexivity|assumption|].
    unfold validate_path_entry, match_placeholders.
    destruct (extractPathParameters pathKey) as [|n names] eqn:E; [congruence|].
    rewrite Hobj.
    rewrite (validate_operations_throws yaml pathKey pathItem operation
               _ validator_operations op); try assumption; [reflexivity|].
    unfold validate_operation. cbn [map check_path_parameters].
    unfold parameters_or_empty. rewrite Hparams, Htv.
    destruct value; try reflexivity. now elim (Harr items). }
  split; [exact Hnone|]. unfold runValidation. now rewrite Hnone.
Qed.

Lemma validateOpenApiSpec_rejected_witness :
  validateOpenApiSpec
    (fun _ =>
       Parsed
         (JObj [("paths",
                 JObj [("/items/{id}",
                        JObj [("get", JObj [("parameters", JStr "none")])])])]))
    (fun _ => Accepted) "paths: ..."
  = None.
Proof.
  refine (proj1
    (validateOpenApiSpec_rejected
       (fun _ =>
          Parsed
            (JObj [("paths",
                    JObj [("/items/{id}",
                           JObj [("get", JObj [("parameters", JStr "none")])])])]))
       (fun _ => Accepted) "TypeError" "paths: ..."
       [("paths",
         JObj [("/items/{id}",
                JObj [("get", JObj [("parameters", JStr "none")])])])]
       (JObj [("/items/{id}",
               JObj [("get", JObj [("parameters", JStr "none")])])])
       "/items/{id}" "get"
       (JObj [("get", JObj [("parameters", JStr "none")])])
       (JObj [("parameters", JStr "none")])
       (JStr "none")
       eq_refl eq_refl eq_refl _ _ eq_refl _ eq_refl eq_refl eq_refl eq_refl _)).
  - simpl. now left.
  - discriminate.
  - simpl. now left.
  - discriminate.
Defined.

Lemma external_errors_severity
    (openApiValidate : json -> external_outcome)
    (yamlContent : string) (parsedSpec : json) :
  Forall (fun e => ve_severity e = error)
         (external_errors openApiValidate yamlContent parsedSpec).
Proof.
  unfold external_errors. destruct (openApiValidate parsedSpec) as [|[d|] m].
  - constructor.
  - apply Forall_map, Forall_forall. intros; reflexivity.
  - repeat constructor.
Qed.

Lemma filter_is_error (l : list ValidationError) :
  Forall (fun e => ve_severity e = error) (filter is_error l).
Proof.
  apply Forall_forall. intros e He. apply filter_In in He as [_ He].
  unfold is_error in He. now destruct (ve_severity e).
Qed.

Lemma filter_is_warning (l : list ValidationError) :
  Forall (fun e => ve_severity e = warning) (filter is_warning l).
Proof.
  apply Forall_forall. intros e He. apply filter_In in He as [_ He].
  unfold is_warning in He. now destruct (ve_severity e).
Qed.

(** X20.  Whatever the parser, the external validator and the text are,
    the result that [runValidation] stores is consistent: it is valid
    exactly when its list of errors is empty, every entry of that list
    has the severity error and every entry of the list of warnings the
    severity warning. *)
Theorem runValidation_result :
  forall (yaml_parse : string -> parse_result json)
         (openApiValidate : json -> external_outcome) (error_text : string)
         (content : string),
    let result := runValidation yaml_parse openApiValidate error_text content in
    (vr_isValid result = true <-> vr_errors result = [])
    /\ Forall (fun e => ve_severity e = error) (vr_errors result)
    /\ Forall (fun e => ve_severity e = warning) (vr_warnings result).
Proof.
  intros yaml_parse openApiValidate error_text content.
  unfold runValidation, validateOpenApiSpec.
  destruct (yaml_parse content) as [message|parsedSpec].
  - cbv zeta. cbn [vr_isValid vr_errors vr_warnings].
    split; [split; discriminate|]. split; repeat constructor.
  - destruct (negb (Json.truthy parsedSpec) || negb (Json.is_object parsedSpec)).
    + cbv zeta. cbn [vr_isValid vr_errors vr_warnings].
      split; [split; discriminate|]. split; repeat constructor.
    + destruct (performStructuralValidation parsedSpec content) as [s|];
        cbn [bind]; cbv zeta; cbn [vr_isValid vr_errors vr_warnings].
      * split; [|split].
        -- rewrite Nat.eqb_eq. apply length_zero_iff_nil.
        -- apply Forall_app. split;
             [apply filter_is_error|apply external_errors_severity].
        -- apply filter_is_warning.
      * split; [split; discriminate|]. split; repeat constructor.
Qed.

Lemma find_line_loop_sound
    (lines : list string) (i : nat) (path : list string) (indent n : nat) :
  find_line_loop lines i path indent = Some n ->
  exists k line,
    n = i + k + 1
    /\ nth_error lines k = Some line
    /\ Js.truthy (trimStart line) = true
    /\ Js.startsWith (trimStart line) "#" = false
    /\ key_pattern_test (last path "") (trimStart line) = true.
Proof.
  revert i path indent.
  induction lines as [|line rest IH]; intros i path indent; [discriminate|].
  cbn [find_line_loop].
  assert (Hlater : forall path' indent',
            last path' "" = last path "" ->
            find_line_loop rest (S i) path' indent' = Some n ->
            exists k line0,
              n = i + k + 1
              /\ nth_error (line :: rest) k = Some line0
              /\ Js.truthy (trimStart line0) = true
              /\ Js.startsWith (trimStart line0) "#" = false
              /\ key_pattern_test (last path "") (trimStart line0) = true).
  { intros path' indent' Hlast H.
    apply IH in H as (k & l & Hn & Hk & H1 & H2 & H3).
    exists (S k), l. rewrite <- Hlast. repeat split; try assumption. lia. }
  destruct (negb (Js.truthy (trimStart line))
            || Js.startsWith (trimStart line) "#") eqn:Skip.
  - now apply Hlater.
  - apply orb_false_iff in Skip as [S1 S2]. apply negb_false_iff in S1.
    destruct path as [|searchKey later]; [discriminate|].
    destruct (key_pattern_test searchKey (trimStart line)
              && Nat.leb indent (String.length line
                                 - String.length (trimStart line))) eqn:T.
    + apply andb_true_iff in T as [T _].
      destruct later as [|next later'].
      * intros [= <-]. exists 0, line. repeat split; try assumption. lia.
      * now apply Hlater.
    + now apply Hlater.
Qed.

(** X21.  A line number that [findLineNumber] returns names a line of
    the text, counted from one; that line is neither blank nor a
    comment, and its text after the indentation is the last key of the
    path, in optional quotes, followed by a colon. *)
Theorem findLineNumber_sound :
  forall (yamlContent : string) (path : list string) (n : nat),
    findLineNumber yamlContent (Some path) = Some n ->
    1 <= n <= length (Js.split newline yamlContent)
    /\ exists line,
         nth_error (Js.split newline yamlContent) (n - 1) = Some line
         /\ Js.truthy (trimStart line) = true
         /\ Js.startsWith (trimStart line) "#" = false
         /\ key_pattern_test (last path "") (trimStart line) = true.
Proof.
  intros yaml path n H. unfold findLineNumber in H.
  destruct path as [|key later]; [discriminate|].
  apply find_line_loop_sound in H as (k & line & -> & Hk & H1 & H2 & H3).
  split.
  - assert (k < length (Js.split newline yaml))
      by (apply nth_error_Some; congruence).
    lia.
  - exists line. replace (0 + k + 1 - 1) with k by lia.
    repeat split; assumption.
Qed.

Lemma findLineNumber_sound_witness :
  exists line,
    nth_error (Js.split newline ("openapi: 3.0.0" ++ nl ++ "info:")) (2 - 1)
    = Some line
    /\ key_pattern_test "info" (trimStart line) = true.
Proof.
  destruct (findLineNumber_sound ("openapi: 3.0.0" ++ nl ++ "info:")
              ["info"] 2 eq_refl)
    as (_ & line & H1 & _ & _ & H2).
  exists line. split; assumption.
Defined.

Lemma find_line_loop_first (lines : list string) (i : nat) (key : string) :
  match find_line_loop lines i [key] 0 with
  | Some n =>
      exists before line after,
        lines = (before ++ line :: after)%list
        /\ n = i + length before + 1
        /\ (Js.truthy (trimStart line)
            && negb (Js.startsWith (trimStart line) "#")
            && key_pattern_test key (trimStart line)) = true
        /\ Forall (fun l =>
                     (Js.truthy (trimStart l)
                      && negb (Js.startsWith (trimStart l) "#")
                      && key_pattern_test key (trimStart l)) = false)
                  before
  | None =>
      Forall (fun l =>
                (Js.truthy (trimStart l)
                 && negb (Js.startsWith (trimStart l) "#")
                 && key_pattern_test key (trimStart l)) = false)
             lines
  end.
Proof.
  revert i. induction lines as [|line rest IH]; intros i; [constructor|].
  cbn [find_line_loop Nat.leb]. rewrite andb_true_r.
  assert (Hlater :
    (Js.truthy (trimStart line)
     && negb (Js.startsWith (trimStart line) "#")
     && key_pattern_test key (trimStart line)) = false ->
    match find_line_loop rest (S i) [key] 0 with
    | Some n =>
        exists before line0 after,
          line :: rest = (before ++ line0 :: after)%list
          /\ n = i + length before + 1
          /\ (Js.truthy (trimStart line0)
              && negb (Js.startsWith (trimStart line0) "#")
              && key_pattern_test key (trimStart line0)) = true
          /\ Forall (fun l =>
                       (Js.truthy (trimStart l)
                        && negb (Js.startsWith (trimStart l) "#")
                        && key_pattern_test key (trimStart l)) = false)
                    before
    | None =>
        Forall (fun l =>
                  (Js.truthy (trimStart l)
                   && negb (Js.startsWith (trimStart l) "#")
                   && key_pattern_test key (trimStart l)) = false)
               (line :: rest)
    end).
  { intros Hline. specialize (IH (S i)).
    destruct (find_line_loop rest (S i) [key] 0) as [n|].
    - destruct IH as (before & l & after & -> & -> & Hl & Hb).
      exists (line :: before), l, after.
      repeat split; [simpl; lia|assumption|now constructor].
    - now constructor. }
  destruct (Js.truthy (trimStart line)) eqn:T; cbn [negb orb andb].
  - destruct (Js.startsWith (trimStart line) "#") eqn:C; cbn [negb andb].
    + now apply Hlater.
    + destruct (key_pattern_test key (trimStart line)) eqn:K.
      * exists [], line, rest. cbn [app length].
        rewrite T, C, K. repeat split; [lia|constructor].
      * now apply Hlater.
  - now apply Hlater.
Qed.

(** X22.  For a path of one key, [findLineNumber] returns the number
    of the first line that is neither blank nor a comment and consists,
    after its indentation, whatever that is, of the key, in optional
    quotes, followed by a colon; it returns nothing exactly when the
    text has no such line. *)
Theorem findLineNumber_top_level : forall (yamlContent key : string),
  let has_key line :=
    Js.truthy (trimStart line)
    && negb (Js.startsWith (trimStart line) "#")
    && key_pattern_test key (trimStart line) in
  match findLineNumber yamlContent (Some [key]) with
  | Some n =>
      exists before line after,
        Js.split newline yamlContent = (before ++ line :: after)%list
        /\ n = length before + 1
        /\ has_key line = true
        /\ Forall (fun l => has_key l = false) before
  | None => Forall (fun l => has_key l = false) (Js.split newline yamlContent)
  end.
Proof.
  intros yaml key. cbv zeta. cbn [findLineNumber].
  pose proof (find_line_loop_first (Js.split newline yaml) 0 key) as H.
  destruct (find_line_loop (Js.split newline yaml) 0 [key] 0) as [n|];
    [|exact H].
  destruct H as (before & line & after & H1 & H2 & H3 & H4).
  exists before, line, after. repeat split; assumption.
Qed.

(** ** The importer, further *)

Lemma or_default_nonempty (x : option string) (d : string) :
  d <> "" -> or_default x d <> "".
Proof.
  intros Hd. unfold or_default. destruct x as [s|]; [|assumption].
  destruct s; [assumption|discriminate].
Qed.

Lemma number_to_string_nonempty (z : Z) : Js.number_to_string z <> "".
Proof.
  unfold Js.number_to_string.
  destruct (Z.to_int z) as [d|d]; [|discriminate].
  cbn [NilZero.string_of_int]. unfold NilZero.string_of_uint.
  destruct d; discriminate.
Qed.

Lemma parse_path_item_methods
    (pathItem : OpenApiPathItem)
    (globalSecurity : option (list SecurityRequirement)) :
  map op_method (parse_path_item pathItem globalSecurity)
  = filter (fun method =>
              match Js.assoc pathItem method with
              | Some _ => true
              | None => false
              end)
           httpMethods.
Proof.
  unfold parse_path_item.
  induction httpMethods as [|m r IH]; [reflexivity|].
  cbn [flat_map filter]. rewrite map_app, IH.
  destruct (Js.assoc pathItem m); reflexivity.
Qed.

Lemma NoDup_filter {A} (f : A -> bool) (l : list A) :
  NoDup l -> NoDup (filter f l).
Proof.
  induction 1 as [|x r Hx _ IH]; simpl; [constructor|].
  destruct (f x); [|assumption]. constructor; [|assumption].
  intros H. apply filter_In in H as [H _]. contradiction.
Qed.

Lemma httpMethods_NoDup : NoDup httpMethods.
Proof.
  unfold httpMethods.
  repeat (constructor; [simpl; intuition discriminate|]). constructor.
Qed.

Lemma parsePaths_Forall
    (P : SwaggerPath -> Prop) (entries : list (string * OpenApiPathItem))
    (globalSecurity : option (list SecurityRequirement)) :
  (forall k item,
     In (k, item) entries ->
     parse_path_item item globalSecurity <> [] ->
     P {| path_path := k;
          path_operations := parse_path_item item globalSecurity |}) ->
  Forall P (parsePaths (Some entries) globalSecurity).
Proof.
  intros H. unfold parsePaths. apply Forall_flat_map, Forall_forall.
  intros [k item] Hin. cbn [fst snd].
  destruct (parse_path_item item globalSecurity) as [|op ops] eqn:E;
    [constructor|].
  cbn [length Nat.ltb Nat.leb]. constructor; [|constructor].
  rewrite <- E. apply H; [assumption|]. rewrite E. discriminate.
Qed.

(** X23.  A document that the importer builds has an operation on
    every path, a path item without any operation of the eight methods
    being dropped; the operations of a path stand in the order of the
    method list get, post, put, delete, patch, options, head, trace, and
    no method occurs twice on a path. *)
Theorem imported_paths_spec : forall parsed : OpenApiDocument,
  exists document,
    ir_document (import_parsed_document parsed) = Some document
    /\ has_operations document
    /\ distinct_methods document
    /\ Forall (fun path =>
                 exists pathItem,
                   In (path_path path, pathItem) (or_list (oa_paths parsed))
                   /\ map op_method (path_operations path)
                      = filter (fun method =>
                                  match Js.assoc pathItem method with
                                  | Some _ => true
                                  | None => false
                                  end)
                               httpMethods)
              (doc_paths document).
Proof.
  intros parsed. eexists. split; [reflexivity|].
  unfold has_operations, distinct_methods. cbn [doc_paths].
  destruct (oa_paths parsed) as [entries|];
    [|repeat split; constructor].
  cbn [or_list].
  repeat split; apply parsePaths_Forall; intros k item Hin Hne;
    cbn [path_operations path_path].
  - assumption.
  - rewrite parse_path_item_methods.
    apply NoDup_filter, httpMethods_NoDup.
  - exists item. split; [assumption|]. apply parse_path_item_methods.
Qed.

(** X24.  The defaults of the importer leave no required text empty:
    in every document it builds, the [openapi] version and the version
    of the info block are non-empty, and so are the type of every
    security scheme and of every schema and the location and the type of
    every parameter. *)
Theorem imported_defaults_spec : forall parsed : OpenApiDocument,
  exists document,
    ir_document (import_parsed_document parsed) = Some document
    /\ doc_openapi document <> ""
    /\ info_version (doc_info document) <> ""
    /\ Forall (fun scheme => scheme_type scheme <> "")
              (doc_securitySchemes document)
    /\ Forall (fun schema => schema_type schema <> "") (doc_schemas document)
    /\ Forall (fun path =>
                 Forall (fun operation =>
                           Forall (fun param =>
                                     pp_in param <> "" /\ pp_type param <> "")
                                  (op_parameters operation))
                        (path_operations path))
              (doc_paths document).
Proof.
  intros parsed. eexists. split; [reflexivity|].
  cbn [doc_openapi doc_info info_version doc_securitySchemes doc_schemas
       doc_paths].
  split; [apply or_default_nonempty; discriminate|].
  split; [apply or_default_nonempty; discriminate|].
  split; [|split].
  - unfold parseSecuritySchemes.
    destruct (match oa_components parsed with
              | Some c => oa_securitySchemes c
              | None => None
              end) as [entries|]; [|constructor].
    apply Forall_map, Forall_forall. intros entry _.
    cbn [parse_security_scheme scheme_type].
    apply or_default_nonempty. discriminate.
  - unfold parseSchemas.
    destruct (match oa_components parsed with
              | Some c => oa_schemas c
              | None => None
              end) as [entries|]; [|constructor].
    apply Forall_map, Forall_forall. intros entry _.
    cbn [parse_schema schema_type].
    apply or_default_nonempty. discriminate.
  - unfold parsePaths. destruct (oa_paths parsed) as [entries|]; [|constructor].
    apply Forall_flat_map, Forall_forall. intros entry _.
    destruct (Nat.ltb 0 (length (parse_path_item (snd entry) (oa_security parsed))));
      [|constructor].
    constructor; [|constructor]. cbn [path_operations].
    unfold parse_path_item. apply Forall_flat_map, Forall_forall.
    intros method _. destruct (Js.assoc (snd entry) method) as [operation|];
      [|constructor].
    constructor; [|constructor]. cbn [parse_operation op_parameters].
    unfold parseParameters. destruct (oa_op_parameters operation) as [l|];
      [|constructor].
    apply Forall_map, Forall_forall. intros p _.
    cbn [parse_parameter pp_in pp_type]. split.
    + apply or_default_nonempty. discriminate.
    + destruct (oa_param_schema p) as [schema|]; [|discriminate].
      destruct (oa_pschema_type schema) as [t|]; [|discriminate].
      destruct (scalar_truthy t) eqn:T; [|discriminate].
      destruct t as [|b|z|s]; cbn [scalar_to_String scalar_truthy] in *.
      * discriminate.
      * subst b. discriminate.
      * apply number_to_string_nonempty.
      * destruct s; discriminate.
Qed.

Lemma strip_prefix_some (p s rest : string) :
  Js.strip_prefix p s = Some rest -> s = p ++ rest.
Proof.
  revert s. induction p as [|a p IH]; intros s; simpl.
  - now intros [= ->].
  - destruct s as [|b s]; [discriminate|].
    destruct (Ascii.eqb_spec a b) as [->|]; [|discriminate].
    intros H. now rewrite (IH s H).
Qed.

Lemma take_line_split (s : string) :
  Js.every_char (fun c => negb (is_line_terminator c)) (take_line s) = true
  /\ exists post,
       s = take_line s ++ post
       /\ (post = ""
           \/ exists c r, post = String c r /\ is_line_terminator c = true).
Proof.
  induction s as [|c r [IH1 [post [IH2 IH3]]]].
  - split; [reflexivity|]. exists "". split; [reflexivity|now left].
  - cbn [take_line]. destruct (is_line_terminator c) eqn:E.
    + split; [reflexivity|]. exists (String c r). split; [reflexivity|].
      right. now exists c, r.
    + split.
      * cbn [Js.every_char]. now rewrite E, IH1.
      * exists post. split; [|assumption]. simpl. now rewrite <- IH2.
Qed.

Lemma match_schema_ref_occurs (s name : string) :
  match_schema_ref s = Some name ->
  Js.every_char (fun c => negb (is_line_terminator c)) name = true
  /\ exists pre post,
       s = pre ++ schemas_marker ++ name ++ post
       /\ (post = ""
           \/ exists c r, post = String c r /\ is_line_terminator c = true).
Proof.
  assert (Hhere : forall s, match_schema_ref_here s = Some name ->
    Js.every_char (fun c => negb (is_line_terminator c)) name = true
    /\ exists post,
         s = schemas_marker ++ name ++ post
         /\ (post = ""
             \/ exists c r, post = String c r /\ is_line_terminator c = true)).
  { intros t H. unfold match_schema_ref_here in H.
    destruct (Js.strip_prefix schemas_marker t) as [rest|] eqn:P;
      [|discriminate].
    apply strip_prefix_some in P.
    destruct (take_line_split rest) as [H1 [post [H2 H3]]].
    destruct (take_line rest) as [|c r] eqn:L; [discriminate|].
    injection H as <-. split; [assumption|].
    exists post. split; [|assumption]. now rewrite P, H2. }
  induction s as [|c r IH].
  - cbn [match_schema_ref].
    destruct (match_schema_ref_here "") as [m|] eqn:E; [|discriminate].
    intros [= ->]. destruct (Hhere "" E) as [H1 [post [H2 H3]]].
    split; [assumption|]. exists "", post. now split.
  - cbn [match_schema_ref].
    destruct (match_schema_ref_here (String c r)) as [m|] eqn:E.
    + intros [= ->]. destruct (Hhere _ E) as [H1 [post [H2 H3]]].
      split; [assumption|]. exists "", post. now split.
    + intros H. destruct (IH H) as [H1 [pre [post [H2 H3]]]].
      split; [assumption|]. exists (String c pre), post.
      split; [|assumption]. simpl. now rewrite H2.
Qed.

(** X25.  What [extractSchemaRef] returns is never made up: a
    non-empty result stands in the reference right behind an occurrence
    of the marker [#/components/schemas/], holds no line terminator, and
    runs to the end of the reference or to the next line terminator. *)
Theorem extractSchemaRef_result : forall ref : string,
  extractSchemaRef (Some ref) = ""
  \/ (Js.every_char (fun c => negb (is_line_terminator c))
                    (extractSchemaRef (Some ref)) = true
      /\ exists pre post,
           ref = pre ++ schemas_marker ++ extractSchemaRef (Some ref) ++ post
           /\ (post = ""
               \/ exists c r, post = String c r /\ is_line_terminator c = true)).
Proof.
  intros ref. unfold extractSchemaRef.
  destruct (negb (Js.truthy ref)); [now left|].
  destruct (match_schema_ref ref) as [name|] eqn:E; [|now left].
  right. now apply match_schema_ref_occurs.
Qed.

(** ** The import dialog *)




(** ** The font size of the preview *)

(** X27.  The font size of the preview never leaves its range:
    whatever was stored, and whatever sequence of the two buttons is
    pressed, the size stays between 10 and 24. *)
Theorem font_size_in_range :
  forall (storedSize : option Z) (presses : list bool),
    let size :=
      fold_left
        (fun (size : Z) (increase : bool) =>
           if increase then increaseFontSize size else decreaseFontSize size)
        presses (getStoredFontSize storedSize) in
    (MIN_FONT_SIZE <= size <= MAX_FONT_SIZE)%Z.
Proof.
  intros storedSize presses. cbv zeta.
  assert (H0 : (MIN_FONT_SIZE <= getStoredFontSize storedSize <= MAX_FONT_SIZE)%Z).
  { unfold getStoredFontSize, MIN_FONT_SIZE, MAX_FONT_SIZE, DEFAULT_FONT_SIZE.
    destruct storedSize as [z|]; [|lia].
    destruct (Z.leb 10 z && Z.leb z 24) eqn:E; [|lia].
    apply andb_true_iff in E as [E1 E2].
    apply Z.leb_le in E1, E2. lia. }
  revert H0. generalize (getStoredFontSize storedSize).
  induction presses as [|b r IH]; intros z Hz; [exact Hz|].
  cbn [fold_left]. apply IH.
  unfold increaseFontSize, decreaseFontSize, MIN_FONT_SIZE, MAX_FONT_SIZE,
    FONT_SIZE_STEP in *.
  destruct b; lia.
Qed.

(** ** Adding and removing *)

Lemma without_last {A} (l : list A) (x : A) :
  (firstn (length l) (l ++ [x]) ++ skipn (S (length l)) (l ++ [x]))%list = l.
Proof.
  rewrite firstn_app, firstn_all, Nat.sub_diag. cbn [firstn].
  rewrite app_nil_r.
  rewrite skipn_all2 by (rewrite length_app; simpl; lia).
  apply app_nil_r.
Qed.

(** X28.  Adding and removing undo each other: after [addTag],
    [addServer], [addSecurityScheme], [addCognitoSecurityScheme],
    [addPath] or [addSchema], removing the entry at the old length of
    the list gives the document back as it was. *)
Theorem add_remove_round_trip : forall prev : SwaggerDocument,
  removeTag (length (doc_tags prev)) (addTag prev) = prev
  /\ removeServer (length (doc_servers prev)) (addServer prev) = prev
  /\ removeSecurityScheme (length (doc_securitySchemes prev))
       (addSecurityScheme prev) = prev
  /\ removeSecurityScheme (length (doc_securitySchemes prev))
       (addCognitoSecurityScheme prev) = prev
  /\ removePath (length (doc_paths prev)) (addPath prev) = prev
  /\ removeSchema (length (doc_schemas prev)) (addSchema prev) = prev.
Proof.
  intros prev.
  unfold removeTag, removeServer, removeSecurityScheme, removePath,
    removeSchema, addTag, addServer, addSecurityScheme,
    addCognitoSecurityScheme, addPath, addSchema.
  cbn [doc_tags doc_servers doc_securitySchemes doc_paths doc_schemas
       with_tags with_servers with_securitySchemes with_paths with_schemas].
  rewrite !filteri_remove, !without_last.
  destruct prev. repeat split.
Qed.
